(** * NeuroViz: the reasoning-graph layout solver and its entrance animation

    A shallow embedding of the [VisualizedGraph] component (the [layout]
    memo, the entrance animation effect and the edge rendering; second
    part of [components/ReasoningOverlay.tsx]) together with the data
    model of [types.ts].

    Around it: the rest of what [VisualizedGraph] draws (spheres and stage
    labels), the particles of the idle and thinking modes, the name of a
    downloaded image, the removal of markdown fences from a model response
    ([services/geminiService.ts]) and the state of the application with
    its handlers ([App]), run as a session of events.

    Numbers.  A JavaScript number is modelled by [num]: an exact rational
    or one of the three special values NaN, +Infinity, -Infinity.  The
    arithmetic on finite values is exact: binary64 rounding and the sign of
    zero are not modelled.

    Records.  The record [stageX] is an object literal: its own
    properties are a finite map, and a read that finds none falls back on
    the properties of [Object.prototype] ([setProperty], [getProperty]).

    d3.  The force simulation of d3-force is an external dependency.  It is
    a parameter of the development ([D3Force]); what the layout code relies
    on from its documentation is collected in [d3_contract].

    Two embeddings of the layout are given.  [layout] works on values and
    carries the properties of the computed positions.  [Store.layoutS]
    works on a store of objects and carries the frame property (what is
    written, what is shared); [layoutS_computes_layout] relates the two. *)

From Stdlib Require Import QArith Qcanon ZArith Lia Lqa Ascii.
From stdpp Require Import gmap strings list.

(** ** JavaScript numbers *)

Inductive num : Type :=
  | NaN
  | PInf
  | NInf
  | Fin (q : Qc).

#[global] Instance Qc_eq_decision : EqDecision Qc := Qc_eq_dec.

#[global] Instance num_eq_decision : EqDecision num.
Proof. solve_decision. Defined.

Module Num.

Definition of_Q (q : Q) : num := Fin (Q2Qc q).
Definition of_Z (z : Z) : num := of_Q (inject_Z z).
Definition of_nat (n : nat) : num := of_Z (Z.of_nat n).

(** [Number.isFinite] *)
Definition isFinite (v : num) : bool :=
  match v with Fin _ => true | _ => false end.

Definition Qc_ltb (a b : Qc) : bool :=
  match (a ?= b)%Qc with Lt => true | _ => false end.

Definition Qc_eqb (a b : Qc) : bool :=
  match (a ?= b)%Qc with Eq => true | _ => false end.

(** [a < b]: false as soon as one side is NaN. *)
Definition ltb (a b : num) : bool :=
  match a, b with
  | NaN, _ | _, NaN => false
  | _, NInf => false
  | NInf, _ => true
  | PInf, _ => false
  | Fin _, PInf => true
  | Fin p, Fin q => Qc_ltb p q
  end.

(** [a <= b] *)
Definition leb (a b : num) : bool :=
  match a, b with
  | NaN, _ | _, NaN => false
  | NInf, _ => true
  | _, PInf => true
  | _, NInf => false
  | PInf, _ => false
  | Fin p, Fin q => negb (Qc_ltb q p)
  end.

(** Truthiness of a number: 0 and NaN are falsy. *)
Definition truthy (v : num) : bool :=
  match v with
  | NaN => false
  | Fin q => negb (Qc_eqb q 0)
  | _ => true
  end.

(** [v || d], where [None] stands for [undefined]. *)
Definition or (v : option num) (d : num) : num :=
  match v with
  | Some n => if truthy n then n else d
  | None => d
  end.

Definition neg (a : num) : num :=
  match a with
  | NaN => NaN
  | PInf => NInf
  | NInf => PInf
  | Fin q => Fin (- q)
  end.

Definition add (a b : num) : num :=
  match a, b with
  | NaN, _ | _, NaN => NaN
  | PInf, NInf | NInf, PInf => NaN
  | PInf, _ | _, PInf => PInf
  | NInf, _ | _, NInf => NInf
  | Fin p, Fin q => Fin (p + q)
  end.

Definition sub (a b : num) : num := add a (neg b).

(** The infinity of the given sign. *)
Definition inf_signed (positive : bool) : num :=
  if positive then PInf else NInf.

Definition mul (a b : num) : num :=
  match a, b with
  | NaN, _ | _, NaN => NaN
  | Fin p, Fin q => Fin (p * q)
  | PInf, PInf | NInf, NInf => PInf
  | PInf, NInf | NInf, PInf => NInf
  | PInf, Fin q | Fin q, PInf =>
      if Qc_eqb q 0 then NaN else inf_signed (Qc_ltb 0 q)
  | NInf, Fin q | Fin q, NInf =>
      if Qc_eqb q 0 then NaN else inf_signed (Qc_ltb q 0)
  end.

Definition div (a b : num) : num :=
  match a, b with
  | NaN, _ | _, NaN => NaN
  | Fin p, Fin q =>
      if Qc_eqb q 0
      then (if Qc_eqb p 0 then NaN else inf_signed (Qc_ltb 0 p))
      else Fin (p / q)
  | Fin _, _ => Fin 0
  | PInf, Fin q => inf_signed (negb (Qc_ltb q 0))
  | NInf, Fin q => inf_signed (Qc_ltb q 0)
  | _, _ => NaN
  end.

(** Integer part of a rational, rounded towards zero. *)
Definition trunc (q : Qc) : Z := Z.quot (Qnum q) (Zpos (Qden q)).

(** [a % b]: the remainder has the sign of the dividend. *)
Definition rem (a b : num) : num :=
  match a, b with
  | NaN, _ | _, NaN => NaN
  | PInf, _ | NInf, _ => NaN
  | Fin p, Fin q =>
      if Qc_eqb q 0 then NaN
      else Fin (p - q * Q2Qc (inject_Z (trunc (p / q))))
  | Fin p, _ => Fin p
  end.

(** [Math.min(a, b)] and [Math.max(a, b)]: NaN if an argument is NaN. *)
Definition min (a b : num) : num :=
  match a, b with
  | NaN, _ | _, NaN => NaN
  | _, _ => if ltb b a then b else a
  end.

Definition max (a b : num) : num :=
  match a, b with
  | NaN, _ | _, NaN => NaN
  | _, _ => if ltb a b then b else a
  end.

(** [Math.sqrt(v) < c] for a constant [c > 0].  The model has no
    irrational values, so the test is made on the squares; the square
    root of a negative number is NaN, which compares false. *)
Definition sqrt_ltb (v c : num) : bool :=
  negb (ltb v (of_Z 0)) && ltb v (mul c c).

End Num.

Declare Scope num_scope.
Delimit Scope num_scope with num.
Bind Scope num_scope with num.
Infix "+" := Num.add : num_scope.
Infix "-" := Num.sub : num_scope.
Infix "*" := Num.mul : num_scope.
Infix "/" := Num.div : num_scope.
Notation "- a" := (Num.neg a) : num_scope.
Infix "<?" := Num.ltb : num_scope.
Infix "<=?" := Num.leb : num_scope.
Coercion Num.of_Z : Z >-> num.

(** ** JavaScript values and plain objects

    What a property read of the record [stageX] can yield: a number, an
    object or function of [Object.prototype], or [undefined]. *)

Inductive value : Type :=
  | VNumber (v : num)
  | VObject
  | VUndefined.

(** [+v], the number d3 makes of what an accessor returns. *)
Definition toNumber (v : value) : num :=
  match v with
  | VNumber n => n
  | VObject | VUndefined => NaN
  end.

(** The properties every object literal inherits from [Object.prototype]
    (ECMAScript with its Annex B, as in a browser): [__proto__] is an
    accessor, the others are functions. *)
Definition objectPrototype : list string :=
  ["__proto__"; "constructor"; "hasOwnProperty"; "isPrototypeOf";
   "propertyIsEnumerable"; "toLocaleString"; "toString"; "valueOf";
   "__defineGetter__"; "__defineSetter__"; "__lookupGetter__";
   "__lookupSetter__"].

(** [o[key] = v] for a number [v] on an object literal whose own properties
    are [o]: the setter of [__proto__] ignores a value that is no object,
    every other key becomes an own property. *)
Definition setProperty (o : gmap string num) (key : string) (v : num)
  : gmap string num :=
  if String.eqb key "__proto__" then o else <[key := v]> o.

(** [o[key]]: the own property if there is one, else the inherited one. *)
Definition getProperty (o : gmap string num) (key : string) : value :=
  match o !! key with
  | Some v => VNumber v
  | None => if bool_decide (key ∈ objectPrototype) then VObject
            else VUndefined
  end.

(** ** Data model ([types.ts]) *)

Module Stage.
Record t : Type := mk
  { id : string; label : string; description : string; weight : num }.
End Stage.

Inductive NodeType : Type :=
  | intent | fact | intermediate | conclusion | constraint | context.

Module Node.
Record t : Type := mk
  { id : string; label : string; type : NodeType;
    importance : num; stage_id : string }.
End Node.

Module Edge.
Record t : Type := mk
  { source : string; target : string;
    relation_label : string; strength : num }.
End Edge.

Inductive Confidence : Type := high | medium | low.

(** [None] in an array field stands for a value that is absent or not an
    array (the trace may come from a parsed JSON document). *)
Module ExplainTrace.
Record t : Type := mk
  { stages : option (list Stage.t);
    nodes : option (list Node.t);
    edges : option (list Edge.t);
    steps : list string;
    key_factors : list string;
    confidence : Confidence;
    timestamp : string }.
End ExplainTrace.

Module Point3D.
Record t : Type := mk { x : num; y : num; z : num }.
End Point3D.

#[global] Instance Point3D_eq_decision : EqDecision Point3D.t.
Proof. solve_decision. Defined.

(** The objects handed to d3: a copy of the node's own fields, the seeded
    [x] and [y], and [index], which is [undefined] until d3 assigns it. *)
Module D3Node.
Record t : Type := mk
  { node : Node.t; x : num; y : num; index : option num }.
Definition id (d : t) : string := Node.id (node d).
Definition stage_id (d : t) : string := Node.stage_id (node d).
End D3Node.

Module D3Link.
Record t : Type := mk { source : string; target : string; strength : num }.
End D3Link.

(** ** The d3-force interface

    A call into d3 either completes or throws; in both cases the nodes it
    was given have been mutated in place, so both completions carry the
    state the call left behind. *)

Inductive completion (A : Type) : Type :=
  | Normal (a : A)
  | Throws (a : A).
Arguments Normal {A} a.
Arguments Throws {A} a.

Definition state_of {A : Type} (c : completion A) : A :=
  match c with Normal a | Throws a => a end.

Definition threw {A : Type} (c : completion A) : bool :=
  match c with Normal _ => false | Throws _ => true end.

(** [forceSimulation] stands for the whole builder chain
    [d3.forceSimulation(d3Nodes).force(..)...stop()]; [tick] for one
    [simulation.tick()].  Both receive the links and the lane accessor
    given to [forceLink] and [forceX]. *)
Record D3Force : Type := mkD3Force
  { forceSimulation :
      list D3Node.t -> list D3Link.t -> (D3Node.t -> value) ->
      completion (list D3Node.t);
    tick :
      list D3Link.t -> (D3Node.t -> value) -> list D3Node.t ->
      completion (list D3Node.t) }.

(** Node [k] of the array carries [index = k]. *)
Definition indexed (ns : list D3Node.t) : Prop :=
  forall k d, ns !! k = Some d -> D3Node.index d = Some (Num.of_nat k).

(** What the layout relies on from d3-force: the simulation writes the
    fields [x], [y], [vx], [vy] and [index] of the nodes it is given and
    nothing else of them, and [simulation.nodes] assigns every node its
    zero-based position in the array as [index] before any force is
    initialised; ticks leave [index] alone. *)
Record d3_contract (E : D3Force) : Prop := mk_d3_contract
  { setup_keeps_nodes : forall ns ls f,
      map D3Node.node (state_of (forceSimulation E ns ls f))
      = map D3Node.node ns;
    setup_indexes : forall ns ls f,
      indexed (state_of (forceSimulation E ns ls f));
    tick_keeps_nodes : forall ls f ns,
      map D3Node.node (state_of (tick E ls f ns)) = map D3Node.node ns;
    tick_keeps_index : forall ls f ns,
      map D3Node.index (state_of (tick E ls f ns)) = map D3Node.index ns }.

(** ** The layout solver ([layout] memo of [VisualizedGraph]) *)

Module LayoutResult.
Record t : Type := mk { nodePositions : gmap string Point3D.t }.
End LayoutResult.

Definition stageWidth : num := 6%Z.
Definition zSpread : num := Num.of_Q (3 # 2).

(** [nodes.map(n => ({...n, x: Math.random() * 10 - 5, y: Math.random() * 10 - 5}))].
    [random k] is the value of the [k]-th call of [Math.random] counted
    from the start of the layout; [c] counts the calls made so far. *)
Fixpoint seedNodes (random : nat -> num) (c : nat) (nodes : list Node.t)
  : list D3Node.t :=
  match nodes with
  | [] => []
  | n :: rest =>
      D3Node.mk n (random c * 10%Z - 5%Z)%num (random (S c) * 10%Z - 5%Z)%num None
      :: seedNodes random (S (S c)) rest
  end.

(** [nodeIds.has(e.source) && nodeIds.has(e.target)] *)
Definition endpoints_known (nodeIds : gset string) (e : Edge.t) : bool :=
  bool_decide (Edge.source e ∈ nodeIds) && bool_decide (Edge.target e ∈ nodeIds).

Definition mkLink (e : Edge.t) : D3Link.t :=
  D3Link.mk (Edge.source e) (Edge.target e) (Edge.strength e).

Definition d3Links_of (nodeIds : gset string) (edges : list Edge.t)
  : list D3Link.t :=
  map mkLink (filter (fun e => endpoints_known nodeIds e = true) edges).

(** [arr.forEach((a, index) => ...)] threading the state [s]. *)
Fixpoint forEach_from {A St : Type} (f : St -> A -> nat -> St)
    (index : nat) (l : list A) (s : St) : St :=
  match l with
  | [] => s
  | a :: rest => forEach_from f (S index) rest (f s a index)
  end.

Definition forEach {A St : Type} (f : St -> A -> nat -> St) (l : list A)
    (s : St) : St := forEach_from f 0 l s.

(** The lane target written for the stage at [index] of [stageCount]:
    [t = index / (stageCount - 1 || 1)], then [-stageWidth/2 + t * stageWidth]. *)
Definition lane (stageCount index : nat) : num :=
  let t := (Num.of_nat index
            / Num.or (Some (Num.of_nat stageCount - 1%Z)) 1%Z)%num in
  ((- stageWidth) / 2%Z + t * stageWidth)%num.

(** The own properties of the record [stageX] once the loop has run. *)
Definition stageX_of (stageIds : list string) : gmap string num :=
  let stageCount := length stageIds in
  if (0 <? stageCount)%nat
  then forEach (fun (stageX : gmap string num) id index =>
                  setProperty stageX id (lane stageCount index)) stageIds ∅
  else ∅.

(** [(d) => stageX[d.stage_id] || 0], the accessor given to [d3.forceX]:
    a number that is 0 or NaN and [undefined] are falsy, an inherited
    function or object is truthy. *)
Definition laneTarget (stageX : gmap string num) (d : D3Node.t) : value :=
  match getProperty stageX (D3Node.stage_id d) with
  | VNumber v => VNumber (if Num.truthy v then v else 0%Z)
  | VObject => VObject
  | VUndefined => VNumber 0%Z
  end.

(** The loop [for (i = 0; i < 300; i++) { simulation.tick(); if (...) break; }]
    with [fuel] iterations left. *)
Fixpoint runTicks (E : D3Force) (ls : list D3Link.t) (f : D3Node.t -> value)
    (fuel : nat) (ns : list D3Node.t) : completion (list D3Node.t) :=
  match fuel with
  | O => Normal ns
  | S fuel' =>
      match tick E ls f ns with
      | Throws ns' => Throws ns'
      | Normal ns' =>
          match ns' with
          | first :: _ =>
              if negb (Num.isFinite (D3Node.x first)) then Normal ns'
              else runTicks E ls f fuel' ns'
          | [] => runTicks E ls f fuel' ns'
          end
      end
  end.

(** The body of the [try] block. *)
Definition simulate (E : D3Force) (d3Nodes : list D3Node.t)
    (d3Links : list D3Link.t) (f : D3Node.t -> value)
  : completion (list D3Node.t) :=
  match forceSimulation E d3Nodes d3Links f with
  | Throws ns => Throws ns
  | Normal ns => runTicks E d3Links f 300 ns
  end.

(** [Math.max(-50, Math.min(50, v))] *)
Definition clamp (v : num) : num := Num.max (-50)%Z (Num.min 50%Z v).

(** [((indexVal * 1337) % 100) / 100 - 0.5] *)
Definition pseudoRandomZ (indexVal : num) : num :=
  (Num.rem (indexVal * 1337%Z) 100%Z / 100%Z - Num.of_Q (1 # 2))%num.

(** The body of [d3Nodes.forEach((node) => ...)], up to the [set]. *)
Definition position (node : D3Node.t) : Point3D.t :=
  let x := if Num.isFinite (D3Node.x node) then D3Node.x node else 0%Z : num in
  let y := if Num.isFinite (D3Node.y node) then D3Node.y node else 0%Z : num in
  let x := clamp x in
  let y := clamp y in
  let indexVal := Num.or (D3Node.index node) 0%Z in
  let prz := pseudoRandomZ indexVal in
  let z := if Num.isFinite prz then (prz * zSpread)%num else 0%Z : num in
  Point3D.mk x y z.

Definition collect (d3Nodes : list D3Node.t) : gmap string Point3D.t :=
  foldl (fun (nodePositions : gmap string Point3D.t) node =>
           <[D3Node.id node := position node]> nodePositions) ∅ d3Nodes.

(** The [try] block run on the seeded copies of [nodes]. *)
Definition attempt (E : D3Force) (random : nat -> num)
    (nodes : list Node.t) (edges : list Edge.t) (stages : list Stage.t)
  : completion (list D3Node.t) :=
  let nodeIds : gset string := list_to_set (map Node.id nodes) in
  let d3Nodes := seedNodes random 0 nodes in
  let d3Links := d3Links_of nodeIds edges in
  let stageX := stageX_of (map Stage.id stages) in
  simulate E d3Nodes d3Links (laneTarget stageX).

(** The working nodes as they are when the [try]/[catch] statement is
    left: the [catch] clause only logs a warning. *)
Definition settled (E : D3Force) (random : nat -> num)
    (nodes : list Node.t) (edges : list Edge.t) (stages : list Stage.t)
  : list D3Node.t :=
  state_of (attempt E random nodes edges stages).

Definition layout (E : D3Force) (random : nat -> num)
    (data : option ExplainTrace.t) : LayoutResult.t :=
  match data with
  | None => LayoutResult.mk ∅
  | Some data =>
      match ExplainTrace.nodes data with
      | None | Some [] => LayoutResult.mk ∅
      | Some nodes =>
          let edges := default [] (ExplainTrace.edges data) in
          let stages := default [] (ExplainTrace.stages data) in
          LayoutResult.mk (collect (settled E random nodes edges stages))
      end
  end.

(** ** Rendering of the edges ([VisualizedGraph], after the layout) *)

Definition finite3 (p : Point3D.t) : bool :=
  Num.isFinite (Point3D.x p) && Num.isFinite (Point3D.y p)
  && Num.isFinite (Point3D.z p).

(** The argument of [Math.sqrt] in [distance3D]; [Math.pow(d, 2)] is [d * d]. *)
Definition distance3D_sq (p1 p2 : Point3D.t) : num :=
  let dx := (Point3D.x p2 - Point3D.x p1)%num in
  let dy := (Point3D.y p2 - Point3D.y p1)%num in
  let dz := (Point3D.z p2 - Point3D.z p1)%num in
  (dx * dx + dy * dy + dz * dz)%num.

(** [distance3D(p1, p2) < c] *)
Definition distance3D_ltb (p1 p2 : Point3D.t) (c : num) : bool :=
  Num.sqrt_ltb (distance3D_sq p1 p2) c.

(** Whether the callback of [data.edges.map] returns a [Line] for [edge]. *)
Definition drawsEdge (layout : LayoutResult.t) (edge : Edge.t) : bool :=
  match LayoutResult.nodePositions layout !! Edge.source edge,
        LayoutResult.nodePositions layout !! Edge.target edge with
  | Some start, Some end_ =>
      finite3 start && finite3 end_
      && negb (distance3D_ltb start end_ (Num.of_Q (1 # 100)))
  | _, _ => false
  end.

(** The edges for which a line is rendered. *)
Definition renderedEdges (data : option ExplainTrace.t)
    (layout : LayoutResult.t) : list Edge.t :=
  match data with
  | None => []
  | Some data =>
      if (size (LayoutResult.nodePositions layout) =? 0)%nat then []
      else match ExplainTrace.edges data with
           | Some edges => filter (fun e => drawsEdge layout e = true) edges
           | None => []
           end
  end.

(** ** The entrance animation ([useEffect] of [VisualizedGraph])

    [start] is [undefined] until the first frame; [pending] tells whether
    a frame callback is scheduled. *)

Module Animation.
Record t : Type := mk
  { start : option num; animationProgress : num; pending : bool }.
End Animation.

(** [d3.easeCubicOut]: [--t * t * t + 1]. *)
Definition easeCubicOut (t : num) : num :=
  let t := (t - 1%Z)%num in
  (t * t * t + 1%Z)%num.

(** The effect body: the progress is reset and a first frame requested. *)
Definition startAnimation : Animation.t :=
  Animation.mk None 0%Z true.

(** The frame callback; [if (!start) start = timestamp] first. *)
Definition animate (st : Animation.t) (timestamp : num) : Animation.t :=
  let start := match Animation.start st with
               | Some v => if Num.truthy v then v else timestamp
               | None => timestamp
               end in
  let progress := Num.min ((timestamp - start) / 1500%Z)%num 1%Z in
  Animation.mk (Some start) (easeCubicOut progress) (progress <? 1%Z)%num.

(** The host runs the callback at a frame only if one is pending. *)
Definition frame (st : Animation.t) (timestamp : num) : Animation.t :=
  if Animation.pending st then animate st timestamp else st.

Definition playback (timestamps : list num) : Animation.t :=
  foldl frame startAnimation timestamps.

(** ** The layout on a store of objects

    The same function with object identity made explicit: arrays and
    objects live in a store and are referred to by location, so that it can
    be said which objects the layout writes and which it shares.  Strings
    and numbers are immutable values; the id set, the id array and the lane
    record are local to the layout, hold only such values, and stay outside
    the store.  The store is typed as in [types.ts]: an item that is not of
    the declared kind is not read. *)

Module Store.

Definition loc : Type := positive.

Inductive object : Type :=
  | OStage (s : Stage.t)
  | ONode (n : Node.t)
  | OEdge (e : Edge.t)
  | OArray (items : list loc)
  | OD3Node (d : D3Node.t)
  | OD3Link (l : D3Link.t)
  | OPoint (p : Point3D.t)
  | OMap (entries : gmap string loc)
  | OLayout (nodePositions : loc).

(** The fields of [data] read by the layout: references to arrays, [None]
    for an absent field. *)
Record TraceRef : Type := mkTraceRef
  { stages : option loc; nodes : option loc; edges : option loc }.

Definition items (h : gmap loc object) (a : loc) : list loc :=
  match h !! a with Some (OArray ls) => ls | _ => [] end.

(** [Array.isArray] *)
Definition isArray (h : gmap loc object) (a : loc) : bool :=
  match h !! a with Some (OArray _) => true | _ => false end.

Definition nodeAt (h : gmap loc object) (l : loc) : option Node.t :=
  match h !! l with Some (ONode n) => Some n | _ => None end.

Definition edgeAt (h : gmap loc object) (l : loc) : option Edge.t :=
  match h !! l with Some (OEdge e) => Some e | _ => None end.

Definition stageAt (h : gmap loc object) (l : loc) : option Stage.t :=
  match h !! l with Some (OStage s) => Some s | _ => None end.

Definition d3NodeAt (h : gmap loc object) (l : loc) : option D3Node.t :=
  match h !! l with Some (OD3Node d) => Some d | _ => None end.

Definition d3LinkAt (h : gmap loc object) (l : loc) : option D3Link.t :=
  match h !! l with Some (OD3Link k) => Some k | _ => None end.

Definition pointAt (h : gmap loc object) (l : loc) : option Point3D.t :=
  match h !! l with Some (OPoint p) => Some p | _ => None end.

(** A new object gets a location that is not in use. *)
Definition alloc (o : object) (h : gmap loc object) : loc * gmap loc object :=
  let l := fresh (dom h) in (l, <[l := o]> h).

Fixpoint allocList (os : list object) (h : gmap loc object)
  : list loc * gmap loc object :=
  match os with
  | [] => ([], h)
  | o :: rest =>
      let '(l, h1) := alloc o h in
      let '(ls, h2) := allocList rest h1 in
      (l :: ls, h2)
  end.

(** d3 working on the store: it is given the two arrays by reference. *)
Record D3ForceS : Type := mkD3ForceS
  { forceSimulationS :
      loc -> loc -> (D3Node.t -> value) -> gmap loc object ->
      completion (gmap loc object);
    tickS :
      loc -> loc -> (D3Node.t -> value) -> gmap loc object ->
      completion (gmap loc object) }.

(** [h'] differs from [h] at most on the items of the two arrays and on
    locations that were not in use. *)
Definition framed (h h' : gmap loc object) (nodesArr linksArr : loc) : Prop :=
  forall l, is_Some (h !! l) ->
            l ∉ items h nodesArr -> l ∉ items h linksArr ->
            h' !! l = h !! l.

(** What the layout relies on from d3-force here: it assigns fields of
    the node and link objects it is given (and may create objects of its
    own), and writes to nothing else. *)
Record d3_frame (E : D3ForceS) : Prop := mk_d3_frame
  { setup_framed : forall na la f h,
      framed h (state_of (forceSimulationS E na la f h)) na la;
    tick_framed : forall na la f h,
      framed h (state_of (tickS E na la f h)) na la }.

Fixpoint runTicksS (E : D3ForceS) (na la : loc) (f : D3Node.t -> value)
    (fuel : nat) (h : gmap loc object) : completion (gmap loc object) :=
  match fuel with
  | O => Normal h
  | S fuel' =>
      match tickS E na la f h with
      | Throws h' => Throws h'
      | Normal h' =>
          match items h' na with
          | first :: _ =>
              if negb (from_option (fun d => Num.isFinite (D3Node.x d)) false
                         (d3NodeAt h' first))
              then Normal h'
              else runTicksS E na la f fuel' h'
          | [] => runTicksS E na la f fuel' h'
          end
      end
  end.

Definition simulateS (E : D3ForceS) (na la : loc) (f : D3Node.t -> value)
    (h : gmap loc object) : completion (gmap loc object) :=
  match forceSimulationS E na la f h with
  | Throws h' => Throws h'
  | Normal h' => runTicksS E na la f 300 h'
  end.

(** [nodePositions.set(node.id, { x, y, z })] for each working node, the
    new point objects being at [points]. *)
Definition collectS (final : list D3Node.t) (points : list loc)
  : gmap string loc :=
  foldl (fun (entries : gmap string loc) dl =>
           <[D3Node.id dl.1 := dl.2]> entries) ∅ (zip final points).

Definition emptyLayoutS (h : gmap loc object) : loc * gmap loc object :=
  let '(m, h1) := alloc (OMap ∅) h in
  alloc (OLayout m) h1.

Definition layoutS (E : D3ForceS) (random : nat -> num)
    (data : option TraceRef) (h : gmap loc object)
  : loc * gmap loc object :=
  match data ≫= nodes with
  | None => emptyLayoutS h
  | Some nodesArr =>
      if negb (isArray h nodesArr) || (length (items h nodesArr) =? 0)%nat
      then emptyLayoutS h
      else
        let nodes := omap (nodeAt h) (items h nodesArr) in
        let edgeLocs :=
          match data ≫= edges with
          | Some edgesArr => items h edgesArr
          | None => []
          end in
        let stages :=
          match data ≫= stages with
          | Some stagesArr => omap (stageAt h) (items h stagesArr)
          | None => []
          end in
        let nodeIds : gset string := list_to_set (map Node.id nodes) in
        (* nodes.map(n => ({ ...n, x, y })) *)
        let '(d3NodeLocs, h1) :=
          allocList (map OD3Node (seedNodes random 0 nodes)) h in
        let '(d3Nodes, h2) := alloc (OArray d3NodeLocs) h1 in
        (* edges.filter(...): a new array holding the kept edge objects *)
        let keptLocs :=
          filter (fun l => from_option (endpoints_known nodeIds) false
                             (edgeAt h l) = true) edgeLocs in
        let '(_, h3) := alloc (OArray keptLocs) h2 in
        (* .map(e => ({ source, target, strength })) *)
        let '(linkLocs, h4) :=
          allocList (map (fun e => OD3Link (mkLink e))
                       (omap (edgeAt h) keptLocs)) h3 in
        let '(d3Links, h5) := alloc (OArray linkLocs) h4 in
        let stageX := stageX_of (map Stage.id stages) in
        (* try { ... } catch (e) { console.warn(...) } *)
        let h6 := state_of (simulateS E d3Nodes d3Links (laneTarget stageX) h5) in
        (* d3Nodes.forEach(node => nodePositions.set(node.id, { x, y, z })) *)
        let final := omap (d3NodeAt h6) (items h6 d3Nodes) in
        let '(pointLocs, h7) :=
          allocList (map (fun d => OPoint (position d)) final) h6 in
        let '(m, h8) := alloc (OMap (collectS final pointLocs)) h7 in
        alloc (OLayout m) h8
  end.

(** The objects making up a layout result: the result object, its map and
    the points the map holds. *)
Definition resultLocs (h : gmap loc object) (r : loc) : gset loc :=
  {[r]} ∪ match h !! r with
          | Some (OLayout m) =>
              {[m]} ∪ match h !! m with
                      | Some (OMap entries) => map_img entries
                      | _ => ∅
                      end
          | _ => ∅
          end.

(** The objects making up a trace: the three arrays and their items. *)
Definition traceLocs (h : gmap loc object) (data : TraceRef) : gset loc :=
  let of_array (a : option loc) : gset loc :=
    match a with
    | Some l => {[l]} ∪ list_to_set (items h l)
    | None => ∅
    end in
  of_array (stages data) ∪ of_array (nodes data) ∪ of_array (edges data).

(** The nodes [ds] written in place over the objects at [locs]. *)
Definition writeBack (locs : list loc) (ds : list D3Node.t)
    (h : gmap loc object) : gmap loc object :=
  foldr (fun ld h' => <[ld.1 := OD3Node ld.2]> h') h (zip locs ds).

(** A call into d3 on the store: the working nodes are read from the array,
    given to [run], and what it leaves is written back in place. *)
Definition onStore (run : list D3Node.t -> completion (list D3Node.t))
    (na : loc) (h : gmap loc object) : completion (gmap loc object) :=
  let locs := filter (fun l => is_Some (d3NodeAt h l)) (items h na) in
  let ds := omap (d3NodeAt h) locs in
  match run ds with
  | Normal ds' => Normal (writeBack locs ds' h)
  | Throws ds' => Throws (writeBack locs ds' h)
  end.

(** A d3 that works on the store as the engine [E] does on values. *)
Definition liftEngine (E : D3Force) : D3ForceS :=
  mkD3ForceS
    (fun na la f h =>
       onStore (fun ds => forceSimulation E ds
                            (omap (d3LinkAt h) (items h la)) f) na h)
    (fun na la f h =>
       onStore (fun ds => tick E (omap (d3LinkAt h) (items h la)) f ds) na h).

End Store.

(** ** Vocabulary of the statements *)

(** The guard [!data || !Array.isArray(data.nodes) || data.nodes.length === 0]. *)
Definition noNodes (data : option ExplainTrace.t) : Prop :=
  data = None
  \/ (data ≫= ExplainTrace.nodes) = None
  \/ (data ≫= ExplainTrace.nodes) = Some [].

(** A value [Math.random] may return: a number of [0, 1). *)
Definition unitInterval (v : num) : Prop :=
  exists q : Qc, v = Fin q /\ (0 <= q)%Qc /\ (q < 1)%Qc.

(** The depth the final loop gives to a node of ordinal [k]. *)
Definition depthOf (k : nat) : num :=
  Num.of_Q ((((Z.of_nat k * 1337) mod 100 # 100) - (1 # 2)) * (3 # 2))%Q.

(** The progress the claim gives for start [s] at time [now]. *)
Definition progressAt (s now : Qc) : num :=
  easeCubicOut (Num.min ((Fin now - Fin s) / 1500%Z)%num 1%Z).

(** Frame timestamps never go back. *)
Fixpoint ascending (prev : Qc) (ts : list Qc) : Prop :=
  match ts with
  | [] => True
  | t :: rest => (prev <= t)%Qc /\ ascending t rest
  end.

(** The ratio of elapsed time to the duration, its cap at 1 and the
    easing curve, on rationals. *)
Definition raw (s now : Qc) : Qc := ((now - s) / Q2Qc (inject_Z 1500))%Qc.
Definition cap (r : Qc) : Qc := if Num.Qc_ltb 1%Qc r then 1%Qc else r.
Definition ease (t : Qc) : Qc := ((t - 1) * (t - 1) * (t - 1) + 1)%Qc.

(** The store holds the objects [os] at the locations [ls]. *)
Definition stored (h : gmap Store.loc Store.object) (ls : list Store.loc)
    (os : list Store.object) : Prop :=
  Forall2 (fun l o => h !! l = Some o) ls os.

(** The field at [a] is an array of the objects [os], or is absent. *)
Definition storedArray (h : gmap Store.loc Store.object)
    (a : option Store.loc) (os : option (list Store.object)) : Prop :=
  match a, os with
  | Some a, Some os =>
      exists ls, h !! a = Some (Store.OArray ls) /\ stored h ls os
  | None, None => True
  | _, _ => False
  end.

(** The store holds the trace [t] at the reference [ref]. *)
Definition represents (h : gmap Store.loc Store.object)
    (ref : Store.TraceRef) (t : ExplainTrace.t) : Prop :=
  storedArray h (Store.stages ref) (map Store.OStage <$> ExplainTrace.stages t)
  /\ storedArray h (Store.nodes ref) (map Store.ONode <$> ExplainTrace.nodes t)
  /\ storedArray h (Store.edges ref) (map Store.OEdge <$> ExplainTrace.edges t).

(** The store [h] is a state of the simulation whose working nodes are
    [ns]: the two arrays given to d3 hold the nodes [ns] at [locs] and the
    links at [llocs]. *)
Definition simulationState (na la : Store.loc) (locs llocs : list Store.loc)
    (links : list D3Link.t) (h : gmap Store.loc Store.object)
    (ns : list D3Node.t) : Prop :=
  h !! na = Some (Store.OArray locs)
  /\ stored h locs (map Store.OD3Node ns)
  /\ h !! la = Some (Store.OArray llocs)
  /\ stored h llocs (map Store.OD3Link links).

(** [h] agrees with [h0] on what [h0] holds outside [W]. *)
Definition stable (h0 h : gmap Store.loc Store.object) (W : gset Store.loc)
  : Prop :=
  forall l, is_Some (h0 !! l) -> l ∉ W -> h !! l = h0 !! l.

(** ** Sample engines and inputs *)

(** [simulation.nodes]: every node receives its position as [index]. *)
Definition assignIndex (ns : list D3Node.t) : list D3Node.t :=
  imap (fun k d =>
          D3Node.mk (D3Node.node d) (D3Node.x d) (D3Node.y d)
                    (Some (Num.of_nat k))) ns.

(** An engine whose forces never move a node. *)
Definition stillEngine : D3Force :=
  mkD3Force (fun ns _ _ => Normal (assignIndex ns)) (fun _ _ ns => Normal ns).

(** An engine whose first tick throws. *)
Definition throwingEngine : D3Force :=
  mkD3Force (fun ns _ _ => Normal (assignIndex ns)) (fun _ _ ns => Throws ns).

(** An engine whose ticks blow every coordinate up. *)
Definition explodingEngine : D3Force :=
  mkD3Force (fun ns _ _ => Normal (assignIndex ns))
    (fun _ _ ns =>
       Normal (map (fun d => D3Node.mk (D3Node.node d) NaN PInf (D3Node.index d)) ns)).

(** An engine pulling every node onto its lane target in one tick. *)
Definition laneEngine : D3Force :=
  mkD3Force (fun ns _ _ => Normal (assignIndex ns))
    (fun _ f ns =>
       Normal (map (fun d => D3Node.mk (D3Node.node d) (toNumber (f d)) 0%Z
                                      (D3Node.index d)) ns)).

Definition halfRandom (k : nat) : num := Num.of_Q (1 # 2).
Definition risingRandom (k : nat) : num :=
  Num.of_Q (Z.of_nat (k mod 16) # 16).

Definition sampleTrace : ExplainTrace.t :=
  ExplainTrace.mk
    (Some [Stage.mk "s1" "Parse" "" 1%Z; Stage.mk "s2" "Answer" "" 1%Z])
    (Some [Node.mk "a" "A" intent 1%Z "s1";
           Node.mk "b" "B" fact 1%Z "s2";
           Node.mk "a" "A2" conclusion 1%Z "s2"])
    (Some [Edge.mk "a" "b" "supports" 1%Z; Edge.mk "a" "ghost" "dangling" 1%Z])
    [] [] high "".

Definition emptyTrace : ExplainTrace.t :=
  ExplainTrace.mk (Some []) (Some []) (Some []) [] [] low "".

Definition threeStages : list Stage.t :=
  [Stage.mk "s1" "Parse" "" 1%Z; Stage.mk "s2" "Recall" "" 1%Z;
   Stage.mk "s3" "Answer" "" 1%Z].

Definition oneNodeTrace : ExplainTrace.t :=
  ExplainTrace.mk (Some []) (Some [Node.mk "a" "A" intent 1%Z "s1"])
    (Some []) [] [] low "".

Definition twoNodes : list Node.t :=
  [Node.mk "a" "A" intent 1%Z "s1"; Node.mk "b" "B" fact 1%Z "s1"].

Definition sampleStart : Qc := Q2Qc (inject_Z 100).
Definition sampleFrames : list Qc :=
  [Q2Qc (233 # 2); Q2Qc (inject_Z 850); Q2Qc (inject_Z 1600);
   Q2Qc (inject_Z 1700)].

(** A store holding the sample trace: stages at 1-2, nodes at 3-5, edges at
    6-7, the three arrays at 8-10. *)
Definition sampleStore : gmap Store.loc Store.object :=
  list_to_map
    [(1%positive, Store.OStage (Stage.mk "s1" "Parse" "" 1%Z));
     (2%positive, Store.OStage (Stage.mk "s2" "Answer" "" 1%Z));
     (3%positive, Store.ONode (Node.mk "a" "A" intent 1%Z "s1"));
     (4%positive, Store.ONode (Node.mk "b" "B" fact 1%Z "s2"));
     (5%positive, Store.ONode (Node.mk "a" "A2" conclusion 1%Z "s2"));
     (6%positive, Store.OEdge (Edge.mk "a" "b" "supports" 1%Z));
     (7%positive, Store.OEdge (Edge.mk "a" "ghost" "dangling" 1%Z));
     (8%positive, Store.OArray [1%positive; 2%positive]);
     (9%positive, Store.OArray [3%positive; 4%positive; 5%positive]);
     (10%positive, Store.OArray [6%positive; 7%positive])].

Definition sampleTraceRef : Store.TraceRef :=
  Store.mkTraceRef (Some 8%positive) (Some 9%positive) (Some 10%positive).

(** ** More of JavaScript numbers and strings *)

(** [Math.floor] *)
Definition Math_floor (v : num) : num :=
  match v with
  | Fin q => Num.of_Z (Qnum q / Z.pos (Qden q))
  | _ => v
  end.

(** [arr[i]] for a number [i]: [undefined] unless [i] is an index of [arr]. *)
Definition at_index {A : Type} (arr : list A) (i : num) : option A :=
  match i with
  | Fin q =>
      if Pos.eqb (Qden q) 1 && (0 <=? Qnum q)%Z
      then arr !! Z.to_nat (Qnum q)
      else None
  | _ => None
  end.

(** [String(s || d)]: the empty string is falsy. *)
Definition or_string (s d : string) : string :=
  if String.eqb s "" then d else s.

(** ** Colours and particles ([getNodeColor], [IdleParticles],
    [ThinkingParticles]) *)

Definition slate : string := "#475569".

Definition getNodeColor (type : string) : string :=
  if String.eqb type "intent" then "#be185d"
  else if String.eqb type "fact" then "#1d4ed8"
  else if String.eqb type "intermediate" then "#a16207"
  else if String.eqb type "conclusion" then "#15803d"
  else if String.eqb type "constraint" then "#b91c1c"
  else if String.eqb type "context" then "#7e22ce"
  else slate.

(** The string a node type is in the trace. *)
Definition typeName (t : NodeType) : string :=
  match t with
  | intent => "intent"
  | fact => "fact"
  | intermediate => "intermediate"
  | conclusion => "conclusion"
  | constraint => "constraint"
  | context => "context"
  end.

Module IdleParticle.
Record t : Type := mk
  { x : num; y : num; z : num; offset : num; scale : num; color : string }.
End IdleParticle.

Module ThinkingParticle.
Record t : Type := mk
  { x : num; y : num; z : num; offset : num; color : string }.
End ThinkingParticle.

(** [new Array(count).fill(0).map(() => ({ x: (Math.random() - 0.5) * 10, ... }))]:
    five calls of [Math.random] for each particle, [c] calls being made
    before. *)
Fixpoint idleParticlesFrom (random : nat -> num) (c count : nat)
  : list IdleParticle.t :=
  match count with
  | O => []
  | S count' =>
      IdleParticle.mk
        ((random c - Num.of_Q (1 # 2)) * 10%Z)%num
        ((random (1 + c)%nat - Num.of_Q (1 # 2)) * 5%Z)%num
        ((random (2 + c)%nat - Num.of_Q (1 # 2)) * 5%Z)%num
        (random (3 + c)%nat * 100%Z)%num
        (Num.of_Q (5 # 100) + random (4 + c)%nat * Num.of_Q (1 # 10))%num
        "#cbd5e1"
      :: idleParticlesFrom random (5 + c) count'
  end.

Definition idleParticles (random : nat -> num) : list IdleParticle.t :=
  idleParticlesFrom random 0 40.

(** [getNodeColor(['intent', 'fact', 'context'][Math.floor(Math.random() * 3)])];
    the [switch] of [getNodeColor] takes its default for [undefined]. *)
Definition thinkingColor (r : num) : string :=
  match at_index ["intent"; "fact"; "context"] (Math_floor (r * 3%Z)%num) with
  | Some type => getNodeColor type
  | None => slate
  end.

Fixpoint thinkingParticlesFrom (random : nat -> num) (c count : nat)
  : list ThinkingParticle.t :=
  match count with
  | O => []
  | S count' =>
      ThinkingParticle.mk
        ((random c - Num.of_Q (1 # 2)) * 15%Z)%num
        ((random (1 + c)%nat - Num.of_Q (1 # 2)) * 6%Z)%num
        ((random (2 + c)%nat - Num.of_Q (1 # 2)) * 6%Z)%num
        (random (3 + c)%nat * 100%Z)%num
        (thinkingColor (random (4 + c)%nat))
      :: thinkingParticlesFrom random (5 + c) count'
  end.

Definition thinkingParticles (random : nat -> num) : list ThinkingParticle.t :=
  thinkingParticlesFrom random 0 50.

(** ** Rendering of the nodes and of the stage labels ([VisualizedGraph]) *)

(** [Math.max(0.1, 0.5 * animationProgress)], the opacity of a line. *)
Definition lineOpacity (animationProgress : num) : num :=
  Num.max (Num.of_Q (1 # 10)) (Num.of_Q (1 # 2) * animationProgress)%num.

(** [Math.max(0.1, 1 * animationProgress)], the width of a line. *)
Definition lineWidth (animationProgress : num) : num :=
  Num.max (Num.of_Q (1 # 10)) (1%Z * animationProgress)%num.

(** [Math.max(0.01, animationProgress)], the scale of a node and the fill
    opacity of a stage label. *)
Definition nodeScale (animationProgress : num) : num :=
  Num.max (Num.of_Q (1 # 100)) animationProgress.

(** [safeImportance] and [safeRadius]. *)
Definition safeRadius (importance : num) : num :=
  let safeImportance :=
    if Num.isFinite importance then importance else Num.of_Q (1 # 2) in
  Num.max (Num.of_Q (1 # 10))
          (Num.of_Q (1 # 4) + safeImportance * Num.of_Q (1 # 10))%num.

Module Sphere.
Record t : Type := mk
  { position : Point3D.t; scale : num; radius : num;
    color : string; label : string }.
End Sphere.

(** The callback of [data.nodes.map]: [None] where it returns [null]. *)
Definition renderNode (layout : LayoutResult.t) (animationProgress : num)
    (node : Node.t) : option Sphere.t :=
  match LayoutResult.nodePositions layout !! Node.id node with
  | None => None
  | Some pos =>
      if negb (finite3 pos) then None
      else Some (Sphere.mk pos (nodeScale animationProgress)
                   (safeRadius (Node.importance node))
                   (getNodeColor (typeName (Node.type node)))
                   (or_string (Node.label node) "Node"))
  end.

(** What [data.nodes.map] yields, one entry for each node. *)
Definition renderedNodes (data : option ExplainTrace.t)
    (layout : LayoutResult.t) (animationProgress : num)
  : list (option Sphere.t) :=
  match data with
  | None => []
  | Some data =>
      if (size (LayoutResult.nodePositions layout) =? 0)%nat then []
      else match ExplainTrace.nodes data with
           | Some nodes => map (renderNode layout animationProgress) nodes
           | None => []
           end
  end.

Module StageLabel.
Record t : Type := mk { x : num; text : string; fillOpacity : num }.
End StageLabel.

(** [nodesInStage.forEach(n => { const p = ...get(n.id); if (p) { sumX += p.x; count++; } })] *)
Definition sumPositions (layout : LayoutResult.t) (nodesInStage : list Node.t)
  : num * nat :=
  foldl (fun (acc : num * nat) n =>
           match LayoutResult.nodePositions layout !! Node.id n with
           | Some p => ((acc.1 + Point3D.x p)%num, S acc.2)
           | None => acc
           end) (Num.of_Z 0, 0%nat) nodesInStage.

(** The callback of [(data.stages || []).map]; the label is placed at
    [[avgX, 2.5, -2]]. *)
Definition renderStageLabel (layout : LayoutResult.t) (animationProgress : num)
    (nodes : list Node.t) (stage : Stage.t) : option StageLabel.t :=
  let nodesInStage :=
    filter (fun n => Node.stage_id n = Stage.id stage) nodes in
  if (length nodesInStage =? 0)%nat then None
  else
    let sc := sumPositions layout nodesInStage in
    let avgX := if (0 <? sc.2)%nat then (sc.1 / Num.of_nat sc.2)%num
                else Num.of_Z 0 in
    if negb (Num.isFinite avgX) then None
    else Some (StageLabel.mk avgX (or_string (Stage.label stage) "Stage")
                 (nodeScale animationProgress)).

(** What [(data.stages || []).map] yields, one entry for each stage; [None]
    when the callback throws, which [data.nodes.filter] does for a trace
    without a [nodes] array. *)
Definition renderedLabels (data : option ExplainTrace.t)
    (layout : LayoutResult.t) (animationProgress : num)
  : option (list (option StageLabel.t)) :=
  match data with
  | None => Some []
  | Some data =>
      if (size (LayoutResult.nodePositions layout) =? 0)%nat then Some []
      else match default [] (ExplainTrace.stages data),
                 ExplainTrace.nodes data with
           | [], _ => Some []
           | stages, Some nodes =>
               Some (map (renderStageLabel layout animationProgress nodes)
                       stages)
           | _ :: _, None => None
           end
  end.

(** ** The name of a downloaded image ([handleDownload]) *)

(** [s.replace(/[:.]/g, '-')] *)
Fixpoint dashed (s : string) : string :=
  match s with
  | EmptyString => EmptyString
  | String c rest =>
      String (if Ascii.eqb c ":" || Ascii.eqb c "." then "-"%char else c)
             (dashed rest)
  end.

(** [`neuroviz-reasoning-${timestamp}.png`] for the ISO string [iso] of the
    date. *)
Definition downloadName (iso : string) : string :=
  ("neuroviz-reasoning-" ++ dashed iso ++ ".png")%string.

(** The number of occurrences of a character. *)
Fixpoint occurrences (c : ascii) (s : string) : nat :=
  match s with
  | EmptyString => 0
  | String d rest => (if Ascii.eqb c d then 1 else 0) + occurrences c rest
  end.

(** ** The text of a model response ([fetchGeminiResponse]) *)

(** [s.startsWith(p)] *)
Fixpoint startsWith (s p : string) {struct p} : bool :=
  match p, s with
  | EmptyString, _ => true
  | String a p', String b s' => Ascii.eqb a b && startsWith s' p'
  | String _ _, EmptyString => false
  end.

Fixpoint dropChars (n : nat) (s : string) : string :=
  match n, s with
  | S n', String _ rest => dropChars n' rest
  | _, _ => s
  end.

(** [s.replace(/^p/, "")] for a literal [p]. *)
Definition replaceStart (p s : string) : string :=
  if startsWith s p then dropChars (String.length p) s else s.

(** [s.replace(/q$/, "")] for a literal [q] that is not empty: the match
    is the occurrence of [q] that ends the string. *)
Fixpoint replaceEnd (q s : string) : string :=
  match s with
  | EmptyString => EmptyString
  | String c rest => if String.eqb s q then EmptyString
                     else String c (replaceEnd q rest)
  end.

(** The removal of a markdown fence around the (trimmed) text. *)
Definition stripFence (cleanText : string) : string :=
  if startsWith cleanText "```json"
  then replaceEnd "```" (replaceStart "```json" cleanText)
  else if startsWith cleanText "```"
       then replaceEnd "```" (replaceStart "```" cleanText)
       else cleanText.

(** ** The application state and its handlers ([App])

    [uuidv4()] and [new Date().toISOString()] are arguments of the
    handlers, and so is [String.prototype.trim]. *)

Inductive Role : Type := user | ai.

Module Message.
Record t : Type := mk
  { id : string; role : Role; text : string; timestamp : string;
    traceId : option string; isThinking : option bool }.
End Message.

Module HistoryItem.
Record t : Type := mk
  { id : string; question : string; answer : string;
    explain_trace : ExplainTrace.t; timestamp : string;
    thumbnail : option string }.
End HistoryItem.

Module GeminiResponse.
Record t : Type := mk { answer : string; explain_trace : ExplainTrace.t }.
End GeminiResponse.

Inductive AppMode : Type := IDLE | THINKING | VISUALIZING.

Inductive Tab : Type := traceTab | historyTab.

Module App.
Record t : Type := mk
  { messages : list Message.t;
    input : string;
    isSending : bool;
    history : list HistoryItem.t;
    activeHistoryItem : option HistoryItem.t;
    vizMode : AppMode;
    vizData : option ExplainTrace.t;
    activeTab : Tab;
    currentVizId : option string }.
End App.

(** What the continuation of [handleSendMessage] keeps of the call while
    the request is awaited. *)
Module Request.
Record t : Type := mk { question : string; aiMsgId : string }.
End Request.

(** The state at the first render. *)
Definition initialApp : App.t :=
  App.mk [] "" false [] None IDLE None traceTab None.

(** [setHistory(JSON.parse(stored))] of the mount effect. *)
Definition loadHistory (st : App.t) (stored : list HistoryItem.t) : App.t :=
  App.mk (App.messages st) (App.input st) (App.isSending st) stored
    (App.activeHistoryItem st) (App.vizMode st) (App.vizData st)
    (App.activeTab st) (App.currentVizId st).

Definition setInput (st : App.t) (value : string) : App.t :=
  App.mk (App.messages st) value (App.isSending st) (App.history st)
    (App.activeHistoryItem st) (App.vizMode st) (App.vizData st)
    (App.activeTab st) (App.currentVizId st).

Definition setActiveTab (st : App.t) (tab : Tab) : App.t :=
  App.mk (App.messages st) (App.input st) (App.isSending st) (App.history st)
    (App.activeHistoryItem st) (App.vizMode st) (App.vizData st)
    tab (App.currentVizId st).

(** [handleSendMessage] up to the [await]: [None] where it returns at the
    guard. *)
Definition handleSendMessage (trim : string -> string) (st : App.t)
    (userMsgId aiMsgId now1 now2 : string) : App.t * option Request.t :=
  if String.eqb (trim (App.input st)) "" || App.isSending st then (st, None)
  else
    let question := trim (App.input st) in
    let userMsg := Message.mk userMsgId user question now1 None None in
    let thinkingMsg :=
      Message.mk aiMsgId ai "Thinking..." now2 None (Some true) in
    (App.mk (App.messages st ++ [userMsg; thinkingMsg]) "" true
       (App.history st) None THINKING None traceTab None,
     Some (Request.mk question aiMsgId)).

(** The rest of the [try] block and the [finally] clause, once the
    response has arrived. *)
Definition handleSendMessage_resolved (st : App.t) (rq : Request.t)
    (response : GeminiResponse.t) (newHistoryId now : string) : App.t :=
  let newItem :=
    HistoryItem.mk newHistoryId (Request.question rq)
      (GeminiResponse.answer response) (GeminiResponse.explain_trace response)
      now None in
  App.mk
    (map (fun m =>
            if String.eqb (Message.id m) (Request.aiMsgId rq)
            then Message.mk (Message.id m) (Message.role m)
                   (GeminiResponse.answer response) (Message.timestamp m)
                   (Some (HistoryItem.id newItem)) (Some false)
            else m) (App.messages st))
    (App.input st) false (App.history st ++ [newItem])
    (App.activeHistoryItem st) VISUALIZING
    (Some (GeminiResponse.explain_trace response))
    (App.activeTab st) (Some newHistoryId).

(** The [catch] and [finally] clauses, when the request fails. *)
Definition handleSendMessage_rejected (st : App.t) (rq : Request.t) : App.t :=
  App.mk
    (map (fun m =>
            if String.eqb (Message.id m) (Request.aiMsgId rq)
            then Message.mk (Message.id m) (Message.role m)
                   "Sorry, I encountered an error while analyzing that."
                   (Message.timestamp m) (Message.traceId m) (Some false)
            else m) (App.messages st))
    (App.input st) false (App.history st)
    (App.activeHistoryItem st) IDLE (App.vizData st)
    (App.activeTab st) (App.currentVizId st).

Definition handleSelectHistoryItem (st : App.t) (item : HistoryItem.t)
  : App.t :=
  App.mk (App.messages st) (App.input st) (App.isSending st) (App.history st)
    (Some item) VISUALIZING (Some (HistoryItem.explain_trace item))
    traceTab None.

Definition handleViewReasoning (st : App.t) (traceId : string) : App.t :=
  match List.find (fun h => String.eqb (HistoryItem.id h) traceId)
          (App.history st) with
  | Some item => handleSelectHistoryItem st item
  | None => st
  end.

(** [if (prevId)]: [null] and the empty string are falsy. *)
Definition handleThumbnailCapture (st : App.t) (dataUrl : string) : App.t :=
  match App.currentVizId st with
  | Some prevId =>
      if String.eqb prevId "" then st
      else
        App.mk (App.messages st) (App.input st) (App.isSending st)
          (map (fun item =>
                  if String.eqb (HistoryItem.id item) prevId
                  then HistoryItem.mk (HistoryItem.id item)
                         (HistoryItem.question item) (HistoryItem.answer item)
                         (HistoryItem.explain_trace item)
                         (HistoryItem.timestamp item) (Some dataUrl)
                  else item) (App.history st))
          (App.activeHistoryItem st) (App.vizMode st) (App.vizData st)
          (App.activeTab st) None
  | None => st
  end.

(** A session: the state together with the request that is awaited, if
    any; the events are what the user, the network and the canvas do. *)
Module Session.
Record t : Type := mk { app : App.t; inFlight : option Request.t }.
End Session.

Inductive Event : Type :=
  | Typed (value : string)
  | Send (userMsgId aiMsgId now1 now2 : string)
  | Resolved (response : GeminiResponse.t) (newHistoryId now : string)
  | Rejected
  | ViewReasoning (traceId : string)
  | SelectHistoryItem (item : HistoryItem.t)
  | Captured (dataUrl : string)
  | TabClicked (tab : Tab).

Definition step (trim : string -> string) (s : Session.t) (e : Event)
  : Session.t :=
  match e with
  | Typed value => Session.mk (setInput (Session.app s) value) (Session.inFlight s)
  | Send userMsgId aiMsgId now1 now2 =>
      match handleSendMessage trim (Session.app s) userMsgId aiMsgId now1 now2
      with
      | (st, Some rq) => Session.mk st (Some rq)
      | (_, None) => s
      end
  | Resolved response newHistoryId now =>
      match Session.inFlight s with
      | Some rq =>
          Session.mk (handleSendMessage_resolved (Session.app s) rq response
                        newHistoryId now) None
      | None => s
      end
  | Rejected =>
      match Session.inFlight s with
      | Some rq => Session.mk (handleSendMessage_rejected (Session.app s) rq) None
      | None => s
      end
  | ViewReasoning traceId =>
      Session.mk (handleViewReasoning (Session.app s) traceId)
        (Session.inFlight s)
  | SelectHistoryItem item =>
      Session.mk (handleSelectHistoryItem (Session.app s) item)
        (Session.inFlight s)
  | Captured dataUrl =>
      Session.mk (handleThumbnailCapture (Session.app s) dataUrl)
        (Session.inFlight s)
  | TabClicked tab =>
      Session.mk (setActiveTab (Session.app s) tab) (Session.inFlight s)
  end.

(** The session after the history was loaded and the events took place. *)
Definition run (trim : string -> string) (stored : list HistoryItem.t)
    (events : list Event) : Session.t :=
  foldl (step trim) (Session.mk (loadHistory initialApp stored) None) events.

(** ** What the canvas shows ([ReasoningGraph]) *)

Inductive Content : Type :=
  | IdleParticlesShown
  | ThinkingParticlesShown
  | VisualizedGraphShown (data : ExplainTrace.t).

(** The three conditional children of the scene, in their order. *)
Definition sceneContent (mode : AppMode) (data : option ExplainTrace.t)
  : list Content :=
  (match mode with IDLE => [IdleParticlesShown] | _ => [] end)
  ++ (match mode with THINKING => [ThinkingParticlesShown] | _ => [] end)
  ++ (match mode, data with
      | VISUALIZING, Some data => [VisualizedGraphShown data]
      | _, _ => []
      end).

(** ** Vocabulary of the further statements *)

(** The rational of an integer. *)
Definition QcZ (z : Z) : Qc := Q2Qc (inject_Z z).

(** Two history items that differ at most in their thumbnail. *)
Definition sameRecord (a b : HistoryItem.t) : Prop :=
  HistoryItem.id a = HistoryItem.id b
  /\ HistoryItem.question a = HistoryItem.question b
  /\ HistoryItem.answer a = HistoryItem.answer b
  /\ HistoryItem.explain_trace a = HistoryItem.explain_trace b
  /\ HistoryItem.timestamp a = HistoryItem.timestamp b.

(** What holds of every session state. *)
Record consistent (s : Session.t) : Prop := mk_consistent
  { sending_in_flight :
      App.isSending (Session.app s) = bool_decide (is_Some (Session.inFlight s));
    thinking_in_flight :
      forall m, m ∈ App.messages (Session.app s) ->
        Message.isThinking m = Some true ->
        exists rq, Session.inFlight s = Some rq
                   /\ Message.id m = Request.aiMsgId rq;
    capture_off_in_flight :
      is_Some (Session.inFlight s) -> App.currentVizId (Session.app s) = None;
    mode_thinking :
      App.vizMode (Session.app s) = THINKING -> is_Some (Session.inFlight s);
    mode_visualizing :
      App.vizMode (Session.app s) = VISUALIZING ->
      is_Some (App.vizData (Session.app s));
    trace_known :
      forall m t, m ∈ App.messages (Session.app s) ->
        Message.traceId m = Some t ->
        exists h, h ∈ App.history (Session.app s) /\ HistoryItem.id h = t;
    capture_target :
      forall id, App.currentVizId (Session.app s) = Some id ->
        exists item,
          last (App.history (Session.app s)) = Some item
          /\ HistoryItem.id item = id
          /\ App.vizData (Session.app s) = Some (HistoryItem.explain_trace item)
          /\ App.vizMode (Session.app s) = VISUALIZING }.

(** ** A sample session *)

Definition isSpace (c : ascii) : bool :=
  Ascii.eqb c " " || Ascii.eqb c "009" || Ascii.eqb c "010" || Ascii.eqb c "013".

Fixpoint trimStart (s : string) : string :=
  match s with
  | String c rest => if isSpace c then trimStart rest else s
  | EmptyString => EmptyString
  end.

Definition sampleTrim (s : string) : string :=
  String.rev (trimStart (String.rev (trimStart s))).

Definition sampleResponse : GeminiResponse.t :=
  GeminiResponse.mk "Because." sampleTrace.

Definition sampleEvents : list Event :=
  [Typed " why? "; Send "u1" "a1" "t1" "t2"; ViewReasoning "old";
   Resolved sampleResponse "h1" "t3"; Captured "data:image/png;base64,AAAA"].

Definition sampleStored : list HistoryItem.t :=
  [HistoryItem.mk "old" "what?" "That." oneNodeTrace "t0" None].

(** * Properties *)

(** Closed decidable facts are settled by evaluation. *)
Ltac by_evaluation :=
  match goal with
  | |- ?P => apply (bool_decide_unpack P); vm_compute; exact I
  end.

(** ** Facts on numbers *)

Section NumFacts.
Local Open Scope Qc_scope.

Lemma Qc_ltb_lt (a b : Qc) : Num.Qc_ltb a b = true <-> a < b.
Proof.
  unfold Num.Qc_ltb. rewrite Qclt_alt.
  destruct (a ?= b); split; congruence.
Qed.

Lemma Qc_ltb_ge (a b : Qc) : Num.Qc_ltb a b = false <-> b <= a.
Proof.
  rewrite <- not_true_iff_false, Qc_ltb_lt. split.
  - apply Qcnot_lt_le.
  - apply Qcle_not_lt.
Qed.

Lemma Qc_eqb_eq (a b : Qc) : Num.Qc_eqb a b = true <-> a = b.
Proof.
  unfold Num.Qc_eqb. rewrite Qceq_alt.
  destruct (a ?= b); split; congruence.
Qed.

Lemma Qc_eqb_neq (a b : Qc) : Num.Qc_eqb a b = false <-> a <> b.
Proof. rewrite <- not_true_iff_false, Qc_eqb_eq. reflexivity. Qed.

Lemma isFinite_Fin (v : num) : Num.isFinite v = true <-> exists q, v = Fin q.
Proof.
  destruct v; simpl; split; try discriminate; eauto; intros [q Hq];
    discriminate.
Qed.

End NumFacts.

(** ** The emitted position of one node *)

Lemma clamp_range (v : num) :
  Num.isFinite v = true ->
  Num.isFinite (clamp v) = true
  /\ ((-50)%Z <=? clamp v)%num = true /\ (clamp v <=? 50%Z)%num = true.
Proof.
  intros [q ->]%isFinite_Fin. unfold clamp. simpl.
  destruct (Num.Qc_ltb q (Q2Qc (inject_Z 50))) eqn:Hhi; simpl.
  - destruct (Num.Qc_ltb (Q2Qc (inject_Z (-50))) q) eqn:Hlo; simpl.
    + repeat split.
      * apply negb_true_iff, Qc_ltb_ge, Qclt_le_weak, Qc_ltb_lt, Hlo.
      * apply negb_true_iff, Qc_ltb_ge, Qclt_le_weak, Qc_ltb_lt, Hhi.
    + repeat split; reflexivity.
  - repeat split; reflexivity.
Qed.

Lemma position_z_finite (node : D3Node.t) :
  Num.isFinite (Point3D.z (position node)) = true.
Proof.
  unfold position; simpl.
  destruct (pseudoRandomZ _) eqn:E; simpl; reflexivity.
Qed.

Lemma position_sound (node : D3Node.t) :
  finite3 (position node) = true
  /\ ((-50)%Z <=? Point3D.x (position node))%num = true
  /\ (Point3D.x (position node) <=? 50%Z)%num = true
  /\ ((-50)%Z <=? Point3D.y (position node))%num = true
  /\ (Point3D.y (position node) <=? 50%Z)%num = true.
Proof.
  assert (Hx : Num.isFinite
                 (if Num.isFinite (D3Node.x node) then D3Node.x node
                  else Num.of_Z 0) = true)
    by (destruct (Num.isFinite (D3Node.x node)) eqn:E; [exact E | reflexivity]).
  assert (Hy : Num.isFinite
                 (if Num.isFinite (D3Node.y node) then D3Node.y node
                  else Num.of_Z 0) = true)
    by (destruct (Num.isFinite (D3Node.y node)) eqn:E; [exact E | reflexivity]).
  destruct (clamp_range _ Hx) as (Fx & Lx & Ux).
  destruct (clamp_range _ Hy) as (Fy & Ly & Uy).
  pose proof (position_z_finite node) as Fz.
  unfold finite3. unfold position in *. simpl in *.
  rewrite Fx, Fy, Fz. auto.
Qed.

Lemma position_fallback (node : D3Node.t) :
  (Num.isFinite (D3Node.x node) = false ->
   Point3D.x (position node) = Num.of_Z 0)
  /\ (Num.isFinite (D3Node.y node) = false ->
      Point3D.y (position node) = Num.of_Z 0).
Proof.
  unfold position; simpl. split; intros ->; reflexivity.
Qed.

(** ** The id-keyed map built by the final loop *)

Lemma collect_snoc (ns : list D3Node.t) (d : D3Node.t) :
  collect (ns ++ [d]) = <[D3Node.id d := position d]> (collect ns).
Proof. unfold collect. rewrite foldl_snoc. reflexivity. Qed.

Lemma collect_lookup_elem (ns : list D3Node.t) (id : string) (p : Point3D.t) :
  collect ns !! id = Some p ->
  exists d, d ∈ ns /\ D3Node.id d = id /\ p = position d.
Proof.
  induction ns as [|d ns IH] using rev_ind; intros H.
  - unfold collect in H. simpl in H. rewrite lookup_empty in H. discriminate.
  - rewrite collect_snoc in H.
    destruct (decide (D3Node.id d = id)) as [Heq|Hne].
    + rewrite Heq, lookup_insert_eq in H. injection H as <-.
      exists d. split; [apply elem_of_app; right; constructor | auto].
    + rewrite lookup_insert_ne in H by exact Hne.
      destruct (IH H) as (d' & Hin & Hid & Hp).
      exists d'. split; [apply elem_of_app; left; exact Hin | auto].
Qed.

(** ** Emitted coordinates *)

(** C1. Every position of the layout result has finite [x], [y] and [z],
    with [x] and [y] inside [-50, 50]; it is the position emitted for a
    working node of that id, and a coordinate the simulation left
    non-finite was replaced by 0 before the clamp. *)
Theorem layout_positions_finite_and_clamped
    (E : D3Force) (random : nat -> num) (data : option ExplainTrace.t)
    (id : string) (p : Point3D.t) :
  LayoutResult.nodePositions (layout E random data) !! id = Some p ->
  (Num.isFinite (Point3D.x p) = true
   /\ Num.isFinite (Point3D.y p) = true
   /\ Num.isFinite (Point3D.z p) = true)
  /\ (((-50)%Z <=? Point3D.x p)%num = true /\ (Point3D.x p <=? 50%Z)%num = true)
  /\ (((-50)%Z <=? Point3D.y p)%num = true /\ (Point3D.y p <=? 50%Z)%num = true)
  /\ exists nodes node,
       (data ≫= ExplainTrace.nodes) = Some nodes
       /\ node ∈ settled E random nodes
                   (default [] (data ≫= ExplainTrace.edges))
                   (default [] (data ≫= ExplainTrace.stages))
       /\ D3Node.id node = id
       /\ p = position node
       /\ (Num.isFinite (D3Node.x node) = false -> Point3D.x p = Num.of_Z 0)
       /\ (Num.isFinite (D3Node.y node) = false -> Point3D.y p = Num.of_Z 0).
Proof.
  intros H.
  assert (Hsrc : exists nodes node,
             (data ≫= ExplainTrace.nodes) = Some nodes
             /\ node ∈ settled E random nodes
                         (default [] (data ≫= ExplainTrace.edges))
                         (default [] (data ≫= ExplainTrace.stages))
             /\ D3Node.id node = id /\ p = position node).
  { unfold layout in H. destruct data as [data|]; simpl in *.
    - destruct (ExplainTrace.nodes data) as [[|n nodes]|] eqn:Hn; simpl in H;
        try (rewrite lookup_empty in H; discriminate).
      destruct (collect_lookup_elem _ _ _ H) as (d & Hin & Hid & Hp).
      exists (n :: nodes), d. auto.
    - rewrite lookup_empty in H. discriminate. }
  destruct Hsrc as (nodes & node & Hnodes & Hin & Hid & ->).
  destruct (position_sound node) as (F & Lx & Ux & Ly & Uy).
  unfold finite3 in F. apply andb_true_iff in F as [F Fz].
  apply andb_true_iff in F as [Fx Fy].
  destruct (position_fallback node) as [Bx By].
  repeat split; auto.
  exists nodes, node. repeat split; auto.
Qed.

Lemma layout_positions_finite_and_clamped_witness :
  LayoutResult.nodePositions
    (layout explodingEngine risingRandom (Some sampleTrace)) !! "b"
  = Some (Point3D.mk 0%Z 0%Z (Num.of_Q (-39 # 200)))
  /\ Num.isFinite (Num.of_Q (-39 # 200)) = true.
Proof.
  assert (H : LayoutResult.nodePositions
                (layout explodingEngine risingRandom (Some sampleTrace)) !! "b"
              = Some (Point3D.mk 0%Z 0%Z (Num.of_Q (-39 # 200)))).
  { by_evaluation. }
  split; [exact H|].
  apply (layout_positions_finite_and_clamped _ _ _ _ _ H).
Defined.

(** ** Empty input *)

(** C4. A graph whose node list is absent or empty is laid out as the
    empty mapping, whatever the engine and the random source are: the
    function returns before either is used. *)
Theorem layout_without_nodes_is_empty
    (E : D3Force) (random : nat -> num) (data : option ExplainTrace.t) :
  noNodes data ->
  layout E random data = LayoutResult.mk ∅.
Proof.
  intros [-> | [H | H]]; [reflexivity | |];
    destruct data as [data|]; simpl in H; try reflexivity;
    unfold layout; rewrite H; reflexivity.
Qed.

Lemma layout_without_nodes_is_empty_witness :
  noNodes (Some emptyTrace)
  /\ layout throwingEngine halfRandom (Some emptyTrace) = LayoutResult.mk ∅.
Proof.
  assert (H : noNodes (Some emptyTrace)) by (right; right; reflexivity).
  split; [exact H|].
  apply (layout_without_nodes_is_empty throwingEngine halfRandom _ H).
Defined.

(** ** Lane targets *)

Section Lanes.
Local Open Scope Qc_scope.

Lemma of_nat_pred (n : nat) :
  (1 <= n)%nat -> (Num.of_nat n - 1%Z)%num = Num.of_nat (n - 1).
Proof.
  intros Hn. unfold Num.of_nat, Num.of_Z, Num.of_Q. simpl. f_equal.
  apply Qc_is_canon. simpl.
  rewrite !Qred_correct. unfold Qeq; simpl. lia.
Qed.

Lemma of_nat_truthy (n : nat) :
  (1 <= n)%nat -> Num.truthy (Num.of_nat n) = true.
Proof.
  intros Hn. unfold Num.of_nat, Num.of_Z, Num.of_Q. simpl.
  apply negb_true_iff, Qc_eqb_neq. intros H.
  apply (f_equal this) in H. simpl in H.
  assert (Hq : (inject_Z (Z.of_nat n) == 0)%Q).
  { rewrite <- (Qred_correct (inject_Z (Z.of_nat n))), H. reflexivity. }
  unfold Qeq in Hq; simpl in Hq. lia.
Qed.

(** For two stages or more the divisor [stageCount - 1 || 1] is
    [stageCount - 1]. *)
Lemma lane_several (stageCount index : nat) :
  (1 < stageCount)%nat ->
  lane stageCount index
  = ((- stageWidth) / 2%Z
     + Num.of_nat index / Num.of_nat (stageCount - 1) * stageWidth)%num.
Proof.
  intros Hn. unfold lane.
  rewrite of_nat_pred by lia. unfold Num.or.
  rewrite of_nat_truthy by lia. reflexivity.
Qed.

(** For a single stage the divisor is 1 and the target is [-stageWidth/2]. *)
Lemma lane_single : lane 1 0 = ((- stageWidth) / 2%Z)%num.
Proof. by_evaluation. Qed.

End Lanes.

Lemma forEach_from_lanes_miss (n k : nat) (ids : list string)
    (m : gmap string num) (id : string) :
  id ∉ ids ->
  forEach_from (fun (stageX : gmap string num) id index =>
                  setProperty stageX id (lane n index)) k ids m !! id
  = m !! id.
Proof.
  revert k m. induction ids as [|a ids IH]; intros k m Hid; simpl.
  - reflexivity.
  - rewrite IH by (intros ?; apply Hid; now right).
    unfold setProperty. destruct (String.eqb a "__proto__"); [reflexivity|].
    apply lookup_insert_ne. intros ->. apply Hid. now left.
Qed.

(** The loop never stores anything under [__proto__]. *)
Lemma forEach_from_lanes_proto (n k : nat) (ids : list string)
    (m : gmap string num) :
  forEach_from (fun (stageX : gmap string num) id index =>
                  setProperty stageX id (lane n index)) k ids m !! "__proto__"
  = m !! "__proto__".
Proof.
  revert k m. induction ids as [|a ids IH]; intros k m; simpl.
  - reflexivity.
  - rewrite IH. unfold setProperty.
    destruct (String.eqb a "__proto__") eqn:Ha; [reflexivity|].
    apply lookup_insert_ne. intros ->. discriminate Ha.
Qed.

Lemma forEach_from_lanes_hit (n k i : nat) (ids : list string)
    (m : gmap string num) (id : string) :
  NoDup ids -> ids !! i = Some id -> id <> "__proto__" ->
  forEach_from (fun (stageX : gmap string num) id index =>
                  setProperty stageX id (lane n index)) k ids m !! id
  = Some (lane n (k + i)).
Proof.
  revert k i m. induction ids as [|a ids IH]; intros k i m Hnd Hi Hp.
  - discriminate.
  - apply NoDup_cons in Hnd as [Ha Hnd]. destruct i as [|i]; simpl in *.
    + injection Hi as ->.
      rewrite forEach_from_lanes_miss by exact Ha.
      unfold setProperty. rewrite (proj2 (String.eqb_neq _ _) Hp).
      rewrite lookup_insert_eq, Nat.add_0_r. reflexivity.
    + rewrite (IH (S k) i) by assumption. f_equal. f_equal. lia.
Qed.

Lemma stageX_of_lookup (ids : list string) (i : nat) (id : string) :
  NoDup ids -> ids !! i = Some id -> id <> "__proto__" ->
  stageX_of ids !! id = Some (lane (length ids) i).
Proof.
  intros Hnd Hi Hp. unfold stageX_of.
  destruct ids as [|a ids]; [discriminate|].
  change (0 <? length (a :: ids))%nat with true; cbv iota.
  unfold forEach. now rewrite (forEach_from_lanes_hit _ 0 i).
Qed.

Lemma stageX_of_proto (ids : list string) : stageX_of ids !! "__proto__" = None.
Proof.
  unfold stageX_of. destruct (0 <? length ids)%nat; [|apply lookup_empty].
  unfold forEach. rewrite forEach_from_lanes_proto. apply lookup_empty.
Qed.

Lemma stageX_of_miss (ids : list string) (id : string) :
  id ∉ ids -> stageX_of ids !! id = None.
Proof.
  intros Hid. unfold stageX_of.
  destruct (0 <? length ids)%nat; [|apply lookup_empty].
  unfold forEach. rewrite forEach_from_lanes_miss by exact Hid.
  apply lookup_empty.
Qed.

(** C2, as the code has it. With unique stage ids, reading the record
    [stageX] at the id of the stage at index [i] of [n] stages gives the
    lane target [-W/2 + (i/(n-1)) * W] when [n > 1], and [-W/2] (that is
    -3, not 0) when [n = 1]; [W] is 6.  The one id for which no number is
    recorded is [__proto__]: the assignment is ignored and the read gives
    the prototype object. *)
Theorem stage_lane_targets (stages : list Stage.t) (i : nat) (s : Stage.t) :
  NoDup (map Stage.id stages) ->
  stages !! i = Some s ->
  stageWidth = Num.of_Z 6
  /\ (Stage.id s <> "__proto__" ->
      ((1 < length stages)%nat ->
       getProperty (stageX_of (map Stage.id stages)) (Stage.id s)
       = VNumber ((- stageWidth) / 2%Z
                  + Num.of_nat i / Num.of_nat (length stages - 1)
                    * stageWidth)%num)
      /\ (length stages = 1%nat ->
          getProperty (stageX_of (map Stage.id stages)) (Stage.id s)
          = VNumber ((- stageWidth) / 2%Z)%num
          /\ ((- stageWidth) / 2%Z)%num = Num.of_Z (-3)))
  /\ (Stage.id s = "__proto__" ->
      getProperty (stageX_of (map Stage.id stages)) (Stage.id s) = VObject).
Proof.
  intros Hnd Hi.
  assert (Hid : map Stage.id stages !! i = Some (Stage.id s))
    by (rewrite list_lookup_fmap, Hi; reflexivity).
  split; [reflexivity|]. split.
  - intros Hp.
    pose proof (stageX_of_lookup _ _ _ Hnd Hid Hp) as H.
    rewrite length_map in H. unfold getProperty. rewrite H. split.
    + intros Hn. rewrite lane_several by exact Hn. reflexivity.
    + intros Hn. rewrite Hn.
      assert (i = 0)%nat as ->.
      { apply lookup_lt_Some in Hi. lia. }
      rewrite lane_single. split; [reflexivity | by_evaluation].
  - intros ->. unfold getProperty. rewrite stageX_of_proto. reflexivity.
Qed.

Lemma stage_lane_targets_witness :
  NoDup (map Stage.id threeStages)
  /\ getProperty (stageX_of (map Stage.id threeStages)) "s3"
     = VNumber ((- stageWidth) / 2%Z
                + Num.of_nat 2 / Num.of_nat 2 * stageWidth)%num.
Proof.
  assert (Hnd : NoDup (map Stage.id threeStages)) by by_evaluation.
  split; [exact Hnd|].
  destruct (stage_lane_targets threeStages 2 (Stage.mk "s3" "Answer" "" 1%Z)
              Hnd eq_refl) as (_ & H & _).
  destruct (H ltac:(discriminate)) as [Hseveral _].
  exact (Hseveral ltac:(simpl; lia)).
Defined.

(** C2 as stated fails for a single stage: its lane target is not 0. *)
Lemma single_stage_lane_is_not_zero :
  getProperty (stageX_of (map Stage.id [Stage.mk "s1" "Only" "" 1%Z])) "s1"
  = VNumber (Num.of_Z (-3))
  /\ getProperty (stageX_of (map Stage.id [Stage.mk "s1" "Only" "" 1%Z])) "s1"
     <> VNumber (Num.of_Z 0).
Proof.
  assert (H : getProperty
                (stageX_of (map Stage.id [Stage.mk "s1" "Only" "" 1%Z])) "s1"
              = VNumber (Num.of_Z (-3))) by (vm_compute; reflexivity).
  split; [exact H|]. rewrite H. intros E.
  assert (E' : Num.of_Z (-3) = Num.of_Z 0)
    by exact (f_equal (fun v => match v with VNumber n => n | _ => NaN end) E).
  revert E'. by_evaluation.
Qed.

(** ** What the simulation leaves of the working nodes *)

Lemma seedNodes_nodes (random : nat -> num) (c : nat) (nodes : list Node.t) :
  map D3Node.node (seedNodes random c nodes) = nodes.
Proof.
  revert c. induction nodes as [|n nodes IH]; intros c; simpl;
    [reflexivity | now rewrite IH].
Qed.

Lemma indexed_keeps (ns ns' : list D3Node.t) :
  indexed ns -> map D3Node.index ns' = map D3Node.index ns -> indexed ns'.
Proof.
  intros Hix Hmap k d Hk.
  assert (H : map D3Node.index ns' !! k = Some (D3Node.index d))
    by (rewrite list_lookup_fmap, Hk; reflexivity).
  rewrite Hmap, list_lookup_fmap in H.
  destruct (ns !! k) as [d0|] eqn:Hd0; simpl in H; [|discriminate].
  injection H as <-. exact (Hix k d0 Hd0).
Qed.

Section Contract.
Context (E : D3Force) (HE : d3_contract E).

Lemma runTicks_keeps_nodes ls f fuel ns :
  map D3Node.node (state_of (runTicks E ls f fuel ns)) = map D3Node.node ns.
Proof.
  revert ns. induction fuel as [|fuel IH]; intros ns; simpl; [reflexivity|].
  pose proof (tick_keeps_nodes E HE ls f ns) as Ht.
  destruct (tick E ls f ns) as [ns'|ns']; simpl in *; [|exact Ht].
  destruct ns' as [|first rest]; [rewrite IH; exact Ht|].
  destruct (negb _); simpl; [exact Ht | rewrite IH; exact Ht].
Qed.

Lemma runTicks_keeps_index ls f fuel ns :
  map D3Node.index (state_of (runTicks E ls f fuel ns)) = map D3Node.index ns.
Proof.
  revert ns. induction fuel as [|fuel IH]; intros ns; simpl; [reflexivity|].
  pose proof (tick_keeps_index E HE ls f ns) as Ht.
  destruct (tick E ls f ns) as [ns'|ns']; simpl in *; [|exact Ht].
  destruct ns' as [|first rest]; [rewrite IH; exact Ht|].
  destruct (negb _); simpl; [exact Ht | rewrite IH; exact Ht].
Qed.

Lemma simulate_keeps_nodes ns ls f :
  map D3Node.node (state_of (simulate E ns ls f)) = map D3Node.node ns.
Proof.
  unfold simulate.
  pose proof (setup_keeps_nodes E HE ns ls f) as Hs.
  destruct (forceSimulation E ns ls f) as [ns'|ns']; cbn [state_of] in *;
    [|exact Hs].
  rewrite runTicks_keeps_nodes. exact Hs.
Qed.

Lemma simulate_indexed ns ls f : indexed (state_of (simulate E ns ls f)).
Proof.
  unfold simulate.
  pose proof (setup_indexes E HE ns ls f) as Hs.
  destruct (forceSimulation E ns ls f) as [ns'|ns']; cbn [state_of] in *;
    [|exact Hs].
  eapply indexed_keeps; [exact Hs | apply runTicks_keeps_index].
Qed.

Lemma settled_nodes random nodes edges stages :
  map D3Node.node (settled E random nodes edges stages) = nodes.
Proof.
  unfold settled, attempt. rewrite simulate_keeps_nodes.
  apply seedNodes_nodes.
Qed.

Lemma settled_indexed random nodes edges stages :
  indexed (settled E random nodes edges stages).
Proof. unfold settled, attempt. apply simulate_indexed. Qed.

Lemma settled_ids random nodes edges stages :
  map D3Node.id (settled E random nodes edges stages) = map Node.id nodes.
Proof.
  rewrite <- (settled_nodes random nodes edges stages) at 2.
  rewrite <- list_fmap_compose. reflexivity.
Qed.

(** The working node at the place of an input node is a copy of it. *)
Lemma settled_lookup random nodes edges stages k n :
  nodes !! k = Some n ->
  exists d, settled E random nodes edges stages !! k = Some d
            /\ D3Node.node d = n
            /\ D3Node.index d = Some (Num.of_nat k).
Proof.
  intros Hk.
  pose proof (settled_nodes random nodes edges stages) as Hn.
  assert (H : map D3Node.node (settled E random nodes edges stages) !! k
              = Some n) by (rewrite Hn; exact Hk).
  rewrite list_lookup_fmap in H.
  destruct (settled E random nodes edges stages !! k) as [d|] eqn:Hd;
    simpl in H; [|discriminate].
  injection H as H. exists d. repeat split; [exact H|].
  exact (settled_indexed random nodes edges stages k d Hd).
Qed.

End Contract.

(** ** Lookups in the id-keyed map *)

Lemma collect_dom (ns : list D3Node.t) :
  dom (collect ns) = list_to_set (map D3Node.id ns).
Proof.
  induction ns as [|d ns IH] using rev_ind.
  - unfold collect; simpl. apply dom_empty_L.
  - rewrite collect_snoc, dom_insert_L, IH, map_app, list_to_set_app_L.
    simpl. rewrite union_empty_r_L. apply (comm_L (∪)).
Qed.

(** The entry of an id is the position of the last working node carrying
    that id. *)
Lemma collect_lookup_last (ns : list D3Node.t) (k : nat) (d : D3Node.t) :
  ns !! k = Some d ->
  (forall j d', (k < j)%nat -> ns !! j = Some d' ->
                D3Node.id d' <> D3Node.id d) ->
  collect ns !! D3Node.id d = Some (position d).
Proof.
  revert k d. induction ns as [|e ns IH] using rev_ind; intros k d Hk Hlast.
  - discriminate.
  - rewrite collect_snoc.
    destruct (decide (k = length ns)) as [->|Hne].
    + rewrite list_lookup_middle in Hk by reflexivity.
      injection Hk as ->. apply lookup_insert_eq.
    + assert (Hlt : (k < length ns)%nat).
      { apply lookup_lt_Some in Hk. rewrite length_app in Hk. simpl in Hk. lia. }
      rewrite lookup_app_l in Hk by exact Hlt.
      rewrite lookup_insert_ne.
      * apply (IH k d Hk). intros j d' Hj Hd'.
        apply (Hlast j d' Hj).
        rewrite lookup_app_l by (apply lookup_lt_Some in Hd'; exact Hd').
        exact Hd'.
      * apply (Hlast (length ns) e Hlt).
        apply list_lookup_middle. reflexivity.
Qed.

Lemma filter_none {A : Type} (P : A -> Prop) `{forall x, Decision (P x)}
    (l : list A) :
  (forall x, x ∈ l -> ~ P x) -> filter P l = [].
Proof.
  induction l as [|a l IH]; intros Hl; [reflexivity|].
  rewrite filter_cons_False by (apply Hl; left).
  apply IH. intros x Hx. apply Hl. right. exact Hx.
Qed.

(** A key has exactly one entry in a map. *)
Lemma one_entry_of_NoDup (l : list (string * Point3D.t)) (id : string)
    (p : Point3D.t) :
  NoDup (l.*1) -> (id, p) ∈ l ->
  filter (fun kv => kv.1 = id) l = [(id, p)].
Proof.
  induction l as [|[k v] l IH]; intros Hnd Hin.
  - inversion Hin.
  - simpl in Hnd. apply NoDup_cons in Hnd as [Hk Hnd].
    apply elem_of_cons in Hin as [Heq|Hin].
    + injection Heq as <- <-.
      rewrite filter_cons_True by reflexivity. f_equal.
      apply filter_none.
      intros [k' v'] Hin' Heq'; simpl in Heq'; subst k'.
      apply Hk, list_elem_of_fmap. exists (id, v'). split; [reflexivity|exact Hin'].
    + rewrite filter_cons_False.
      * apply IH; assumption.
      * simpl. intros ->. apply Hk, list_elem_of_fmap.
        exists (id, p). split; [reflexivity|exact Hin].
Qed.

Lemma map_one_entry (m : gmap string Point3D.t) (id : string) (p : Point3D.t) :
  m !! id = Some p ->
  filter (fun kv => kv.1 = id) (map_to_list m) = [(id, p)].
Proof.
  intros H. apply one_entry_of_NoDup.
  - apply NoDup_fst_map_to_list.
  - apply elem_of_map_to_list, H.
Qed.

(** ** The sample engines meet the contract *)

Lemma assignIndex_nodes (ns : list D3Node.t) :
  map D3Node.node (assignIndex ns) = map D3Node.node ns.
Proof.
  apply list_eq. intros k. unfold assignIndex.
  rewrite !list_lookup_fmap, list_lookup_imap.
  destruct (ns !! k); reflexivity.
Qed.

Lemma assignIndex_indexed (ns : list D3Node.t) : indexed (assignIndex ns).
Proof.
  intros k d. unfold assignIndex. rewrite list_lookup_imap.
  destruct (ns !! k); simpl; [|discriminate].
  intros [= <-]. reflexivity.
Qed.

Lemma stillEngine_contract : d3_contract stillEngine.
Proof.
  constructor; simpl; intros; auto using assignIndex_nodes, assignIndex_indexed.
Qed.

Lemma throwingEngine_contract : d3_contract throwingEngine.
Proof.
  constructor; simpl; intros; auto using assignIndex_nodes, assignIndex_indexed.
Qed.

Lemma explodingEngine_contract : d3_contract explodingEngine.
Proof.
  constructor; simpl; intros;
    auto using assignIndex_nodes, assignIndex_indexed;
    rewrite <- list_fmap_compose; reflexivity.
Qed.

Lemma laneEngine_contract : d3_contract laneEngine.
Proof.
  constructor; simpl; intros;
    auto using assignIndex_nodes, assignIndex_indexed;
    rewrite <- list_fmap_compose; reflexivity.
Qed.

(** ** A simulation that throws *)

Lemma layout_some_nodes (E : D3Force) (random : nat -> num)
    (data : ExplainTrace.t) (nodes : list Node.t) :
  ExplainTrace.nodes data = Some nodes -> nodes <> [] ->
  LayoutResult.nodePositions (layout E random (Some data))
  = collect (settled E random nodes
               (default [] (ExplainTrace.edges data))
               (default [] (ExplainTrace.stages data))).
Proof.
  intros Hn Hne. unfold layout. rewrite Hn.
  destruct nodes; [contradiction | reflexivity].
Qed.

Lemma layout_dom (E : D3Force) (HE : d3_contract E) (random : nat -> num)
    (data : ExplainTrace.t) :
  dom (LayoutResult.nodePositions (layout E random (Some data)))
  = list_to_set (map Node.id (default [] (ExplainTrace.nodes data))).
Proof.
  destruct (ExplainTrace.nodes data) as [[|n nodes]|] eqn:Hn.
  - unfold layout. rewrite Hn. apply dom_empty_L.
  - rewrite (layout_some_nodes E random data (n :: nodes) Hn) by discriminate.
    rewrite collect_dom, (settled_ids E HE). reflexivity.
  - unfold layout. rewrite Hn. apply dom_empty_L.
Qed.

(** C3, as the code has it. When the simulation throws on a non-empty
    graph, the exception is caught and the layout is still built from the
    state the working nodes were left in: it holds a position for every
    node id of the input, so it is not empty, and every position in it is
    finite and clamped. *)
Theorem layout_after_throw
    (E : D3Force) (random : nat -> num) (data : ExplainTrace.t)
    (nodes : list Node.t) :
  d3_contract E ->
  ExplainTrace.nodes data = Some nodes -> nodes <> [] ->
  threw (attempt E random nodes
           (default [] (ExplainTrace.edges data))
           (default [] (ExplainTrace.stages data))) = true ->
  LayoutResult.nodePositions (layout E random (Some data))
  = collect (state_of (attempt E random nodes
                         (default [] (ExplainTrace.edges data))
                         (default [] (ExplainTrace.stages data))))
  /\ dom (LayoutResult.nodePositions (layout E random (Some data)))
     = list_to_set (map Node.id nodes)
  /\ LayoutResult.nodePositions (layout E random (Some data)) <> ∅
  /\ (forall id p,
        LayoutResult.nodePositions (layout E random (Some data)) !! id = Some p ->
        finite3 p = true
        /\ ((-50)%Z <=? Point3D.x p)%num = true
        /\ (Point3D.x p <=? 50%Z)%num = true
        /\ ((-50)%Z <=? Point3D.y p)%num = true
        /\ (Point3D.y p <=? 50%Z)%num = true).
Proof.
  intros HE Hn Hne _.
  pose proof (layout_dom E HE random data) as Hdom. rewrite Hn in Hdom.
  pose proof (layout_some_nodes E random data nodes Hn Hne) as Hmap.
  split; [exact Hmap|].
  split; [exact Hdom|]. split.
  - intros Hempty. rewrite Hempty, dom_empty_L in Hdom.
    destruct nodes as [|n nodes]; [contradiction|].
    simpl in Hdom. set_solver.
  - intros id p Hp. rewrite Hmap in Hp.
    destruct (collect_lookup_elem _ _ _ Hp) as (d & _ & _ & ->).
    apply position_sound.
Qed.

Lemma layout_after_throw_witness :
  threw (attempt throwingEngine halfRandom
           [Node.mk "a" "A" intent 1%Z "s1"] [] []) = true
  /\ dom (LayoutResult.nodePositions
            (layout throwingEngine halfRandom (Some oneNodeTrace)))
     = list_to_set ["a"].
Proof.
  assert (H : threw (attempt throwingEngine halfRandom
                       [Node.mk "a" "A" intent 1%Z "s1"] [] []) = true)
    by reflexivity.
  split; [exact H|].
  destruct (layout_after_throw throwingEngine halfRandom oneNodeTrace
              [Node.mk "a" "A" intent 1%Z "s1"] throwingEngine_contract
              eq_refl ltac:(discriminate) H) as (_ & Hdom & _).
  exact Hdom.
Defined.

(** C3 as stated fails: the first tick throws on a graph of one node, and
    the layout result holds that node. *)
Lemma throwing_simulation_layout_not_empty :
  threw (attempt throwingEngine halfRandom
           [Node.mk "a" "A" intent 1%Z "s1"] [] []) = true
  /\ LayoutResult.nodePositions
       (layout throwingEngine halfRandom (Some oneNodeTrace)) !! "a"
     = Some (Point3D.mk 0%Z 0%Z (Num.of_Q (-3 # 4)))
  /\ LayoutResult.nodePositions
       (layout throwingEngine halfRandom (Some oneNodeTrace)) <> ∅.
Proof.
  split; [reflexivity|]. split; [by_evaluation|].
  intros H. apply (f_equal (fun m => m !! "a")) in H.
  rewrite lookup_empty in H. revert H. by_evaluation.
Qed.

(** ** Edges with a missing endpoint *)




(** ** Nodes sharing an id *)

(** C10. When several nodes carry the same id, the layout result has exactly
    one entry for that id, and it is the position computed for the last
    node of the input list with that id. *)
Theorem duplicate_id_last_wins
    (E : D3Force) (random : nat -> num) (data : ExplainTrace.t)
    (nodes : list Node.t) (k : nat) (n : Node.t) :
  d3_contract E ->
  ExplainTrace.nodes data = Some nodes ->
  nodes !! k = Some n ->
  (forall j n', (k < j)%nat -> nodes !! j = Some n' -> Node.id n' <> Node.id n) ->
  exists d,
    settled E random nodes (default [] (ExplainTrace.edges data))
            (default [] (ExplainTrace.stages data)) !! k = Some d
    /\ D3Node.node d = n
    /\ LayoutResult.nodePositions (layout E random (Some data)) !! Node.id n
       = Some (position d)
    /\ filter (fun kv => kv.1 = Node.id n)
         (map_to_list (LayoutResult.nodePositions (layout E random (Some data))))
       = [(Node.id n, position d)].
Proof.
  intros HE Hn Hk Hlast.
  destruct (settled_lookup E HE random nodes
              (default [] (ExplainTrace.edges data))
              (default [] (ExplainTrace.stages data)) k n Hk)
    as (d & Hd & Hnode & _).
  assert (Hlook : LayoutResult.nodePositions (layout E random (Some data))
                    !! Node.id n = Some (position d)).
  { rewrite (layout_some_nodes E random data nodes Hn)
      by (intros ->; discriminate).
    rewrite <- Hnode. apply (collect_lookup_last _ k d Hd).
    intros j d' Hj Hd'. unfold D3Node.id. rewrite Hnode.
    apply (Hlast j (D3Node.node d') Hj).
    rewrite <- (settled_nodes E HE random nodes
                  (default [] (ExplainTrace.edges data))
                  (default [] (ExplainTrace.stages data))).
    rewrite list_lookup_fmap, Hd'. reflexivity. }
  exists d. repeat split; auto using map_one_entry.
Qed.

Lemma duplicate_id_last_wins_witness :
  exists d,
    settled stillEngine risingRandom
      (default [] (ExplainTrace.nodes sampleTrace))
      (default [] (ExplainTrace.edges sampleTrace))
      (default [] (ExplainTrace.stages sampleTrace)) !! 2%nat = Some d
    /\ D3Node.node d = Node.mk "a" "A2" conclusion 1%Z "s2"
    /\ LayoutResult.nodePositions
         (layout stillEngine risingRandom (Some sampleTrace)) !! "a"
       = Some (position d).
Proof.
  destruct (duplicate_id_last_wins stillEngine risingRandom sampleTrace
              _ 2 (Node.mk "a" "A2" conclusion 1%Z "s2")
              stillEngine_contract eq_refl eq_refl)
    as (d & Hd & Hnode & Hlook & _).
  - intros j n' Hj Hn'. apply lookup_lt_Some in Hn'. simpl in Hn'. lia.
  - exists d. split; [exact Hd|]. split; [exact Hnode | exact Hlook].
Defined.

(** ** The depth coordinate *)

Section Depth.
Local Open Scope Qc_scope.

Lemma Q2Qc_eq (p q : Q) : (p == q)%Q -> Q2Qc p = Q2Qc q.
Proof. intros H. apply Qc_is_canon. simpl. now rewrite H. Qed.

Lemma this_Q2Qc (q : Q) : (this (Q2Qc q) == q)%Q.
Proof. apply Qred_correct. Qed.

Lemma this_div_Z (a : Z) (d : positive) :
  (this (Q2Qc (inject_Z a) / Q2Qc (inject_Z (Zpos d))) == a # d)%Q.
Proof.
  unfold Qcdiv, Qcmult, Qcinv.
  rewrite !this_Q2Qc. unfold Qeq, Qmult, Qinv, inject_Z; simpl. lia.
Qed.

Lemma trunc_div_Z (a : Z) (d : positive) :
  Num.trunc (Q2Qc (inject_Z a) / Q2Qc (inject_Z (Zpos d)))
  = Z.quot a (Zpos d).
Proof.
  pose proof (this_div_Z a d) as H. unfold Num.trunc.
  destruct (this _) as [n m]. unfold Qeq in H; simpl in *.
  rewrite <- (Z.quot_mul_cancel_r n (Zpos m) (Zpos d)) by lia.
  rewrite H, (Z.mul_comm (Zpos m)).
  apply Z.quot_mul_cancel_r; lia.
Qed.

Lemma Qc_of_Z_nonzero (d : positive) :
  Num.Qc_eqb (Q2Qc (inject_Z (Zpos d))) 0 = false.
Proof.
  apply Qc_eqb_neq. intros H. apply (f_equal this) in H.
  pose proof (this_Q2Qc (inject_Z (Zpos d))) as Hq.
  rewrite H in Hq. unfold Qeq in Hq; simpl in Hq. lia.
Qed.

(** On integers [%] is the truncated remainder. *)
Lemma rem_of_Z (a : Z) (d : positive) :
  Num.rem (Num.of_Z a) (Num.of_Z (Zpos d)) = Num.of_Z (Z.rem a (Zpos d)).
Proof.
  unfold Num.of_Z, Num.of_Q. cbn [Num.rem].
  rewrite Qc_of_Z_nonzero, trunc_div_Z. f_equal.
  apply Qc_is_canon. unfold Qcminus, Qcplus, Qcopp, Qcmult.
  rewrite !this_Q2Qc.
  pose proof (Z.quot_rem' a (Zpos d)) as Hqr.
  unfold Qeq, Qplus, Qopp, Qmult, inject_Z; simpl. lia.
Qed.

Lemma mul_of_Z (a b : Z) : (Num.of_Z a * Num.of_Z b)%num = Num.of_Z (a * b).
Proof.
  unfold Num.of_Z, Num.of_Q. cbn [Num.mul]. f_equal.
  apply Qc_is_canon. unfold Qcmult. rewrite !this_Q2Qc.
  unfold Qeq, Qmult, inject_Z; simpl. lia.
Qed.

Lemma or_of_nat (k : nat) :
  Num.or (Some (Num.of_nat k)) (Num.of_Z 0) = Num.of_nat k.
Proof.
  destruct k as [|k]; [reflexivity|].
  unfold Num.or. now rewrite of_nat_truthy by lia.
Qed.

Lemma pseudoRandomZ_of_nat (k : nat) :
  pseudoRandomZ (Num.of_nat k)
  = Num.of_Q (((Z.of_nat k * 1337) mod 100 # 100) - (1 # 2))%Q.
Proof.
  unfold pseudoRandomZ, Num.of_nat.
  rewrite mul_of_Z, rem_of_Z, Z.rem_mod_nonneg by lia.
  unfold Num.of_Z, Num.of_Q. cbn [Num.div Num.sub Num.add Num.neg].
  rewrite Qc_of_Z_nonzero. cbn [Num.sub Num.add Num.neg]. f_equal.
  apply Qc_is_canon. unfold Qcdiv, Qcplus, Qcopp, Qcmult, Qcinv.
  rewrite !this_Q2Qc.
  unfold Qeq, Qminus, Qplus, Qopp, Qmult, Qinv, inject_Z; simpl. lia.
Qed.

Lemma position_depth (d : D3Node.t) (k : nat) :
  D3Node.index d = Some (Num.of_nat k) ->
  Point3D.z (position d) = depthOf k.
Proof.
  intros Hix. unfold position; cbn [Point3D.z].
  rewrite Hix, or_of_nat, pseudoRandomZ_of_nat.
  unfold depthOf, zSpread, Num.of_Q. cbn [Num.isFinite Num.mul]. f_equal.
  apply Qc_is_canon. unfold Qcmult. rewrite !this_Q2Qc. reflexivity.
Qed.

End Depth.

Lemma layout_depth (E : D3Force) (HE : d3_contract E) (random : nat -> num)
    (data : ExplainTrace.t) (nodes : list Node.t) (k : nat) (n : Node.t) :
  ExplainTrace.nodes data = Some nodes ->
  nodes !! k = Some n ->
  (forall j n', (k < j)%nat -> nodes !! j = Some n' -> Node.id n' <> Node.id n) ->
  exists p,
    LayoutResult.nodePositions (layout E random (Some data)) !! Node.id n
    = Some p
    /\ Point3D.z p = depthOf k.
Proof.
  intros Hn Hk Hlast.
  destruct (settled_lookup E HE random nodes
              (default [] (ExplainTrace.edges data))
              (default [] (ExplainTrace.stages data)) k n Hk)
    as (d & Hd & Hnode & Hix).
  exists (position d). split; [|exact (position_depth d k Hix)].
  rewrite (layout_some_nodes E random data nodes Hn) by (intros ->; discriminate).
  rewrite <- Hnode. apply (collect_lookup_last _ k d Hd).
  intros j d' Hj Hd'. unfold D3Node.id. rewrite Hnode.
  apply (Hlast j (D3Node.node d') Hj).
  rewrite <- (settled_nodes E HE random nodes
                (default [] (ExplainTrace.edges data))
                (default [] (ExplainTrace.stages data))).
  rewrite list_lookup_fmap, Hd'. reflexivity.
Qed.

(** C7. The depth of a node in the layout result is
    [(((k * 1337) mod 100) / 100 - 0.5) * 1.5], where [k] is the position
    of the node in the node list (the last one, for a repeated id).  It
    depends on nothing else: any other run on the same node list, with
    another engine, random source, edges or stages, gives the node the same
    depth. *)
Theorem depth_from_ordinal
    (E : D3Force) (random : nat -> num) (data : ExplainTrace.t)
    (nodes : list Node.t) (k : nat) (n : Node.t) :
  d3_contract E ->
  ExplainTrace.nodes data = Some nodes ->
  nodes !! k = Some n ->
  (forall j n', (k < j)%nat -> nodes !! j = Some n' -> Node.id n' <> Node.id n) ->
  exists p,
    LayoutResult.nodePositions (layout E random (Some data)) !! Node.id n
    = Some p
    /\ Point3D.z p
       = Num.of_Q ((((Z.of_nat k * 1337) mod 100 # 100) - (1 # 2)) * (3 # 2))%Q
    /\ forall (E' : D3Force) (random' : nat -> num) (data' : ExplainTrace.t),
         d3_contract E' ->
         ExplainTrace.nodes data' = Some nodes ->
         exists p',
           LayoutResult.nodePositions (layout E' random' (Some data'))
             !! Node.id n = Some p'
           /\ Point3D.z p' = Point3D.z p.
Proof.
  intros HE Hn Hk Hlast.
  destruct (layout_depth E HE random data nodes k n Hn Hk Hlast)
    as (p & Hp & Hz).
  exists p. split; [exact Hp|]. split; [exact Hz|].
  intros E' random' data' HE' Hn'.
  destruct (layout_depth E' HE' random' data' nodes k n Hn' Hk Hlast)
    as (p' & Hp' & Hz').
  exists p'. split; [exact Hp' | congruence].
Qed.

Lemma depth_from_ordinal_witness :
  exists p,
    LayoutResult.nodePositions
      (layout laneEngine risingRandom (Some sampleTrace)) !! "b" = Some p
    /\ Point3D.z p = Num.of_Q (-39 # 200).
Proof.
  destruct (depth_from_ordinal laneEngine risingRandom sampleTrace _ 1
              (Node.mk "b" "B" fact 1%Z "s2")
              laneEngine_contract eq_refl eq_refl)
    as (p & Hp & Hz & _).
  - intros j n' Hj Hn'. destruct j as [|[|[|j]]]; [lia | lia | | discriminate].
    injection Hn' as <-. discriminate.
  - exists p. split; [exact Hp|]. rewrite Hz. by_evaluation.
Defined.

(** ** Seeding *)

Lemma seedNodes_lookup (random : nat -> num) (c : nat) (nodes : list Node.t)
    (k : nat) (n : Node.t) :
  nodes !! k = Some n ->
  seedNodes random c nodes !! k
  = Some (D3Node.mk n (random (c + 2 * k)%nat * 10%Z - 5%Z)%num
                      (random (S (c + 2 * k)) * 10%Z - 5%Z)%num None).
Proof.
  revert c k. induction nodes as [|a nodes IH]; intros c k Hk; [discriminate|].
  destruct k as [|k].
  - injection Hk as ->. simpl. now rewrite Nat.add_0_r.
  - change (seedNodes random (S (S c)) nodes !! k
            = Some (D3Node.mk n (random (c + 2 * S k)%nat * 10%Z - 5%Z)%num
                      (random (S (c + 2 * S k)) * 10%Z - 5%Z)%num None)).
    rewrite (IH (S (S c)) k Hk).
    replace (S (S c) + 2 * k)%nat with (c + 2 * S k)%nat by lia. reflexivity.
Qed.

Section Seeds.
Local Open Scope Qc_scope.

Lemma Fin_inj (p q : Qc) : Fin p = Fin q -> p = q.
Proof.
  intros H.
  exact (f_equal (fun v => match v with Fin r => r | _ => p end) H).
Qed.

Lemma seed_coordinate_range (a : num) :
  unitInterval a ->
  ((-5)%Z <=? a * 10%Z - 5%Z)%num = true
  /\ (a * 10%Z - 5%Z <? 5%Z)%num = true.
Proof.
  intros (p & -> & H0 & H1).
  unfold Num.of_Z, Num.of_Q.
  cbn [Num.mul Num.sub Num.add Num.neg Num.leb Num.ltb]. split.
  - apply negb_true_iff, Qc_ltb_ge.
    unfold Qcle, Qclt, Qcplus, Qcmult, Qcopp in *.
    rewrite !this_Q2Qc in *. unfold inject_Z.
    revert H0 H1. generalize (this p). intros [a b].
    unfold Qle, Qlt, Qplus, Qmult, Qopp. simpl. lia.
  - apply Qc_ltb_lt.
    unfold Qcle, Qclt, Qcplus, Qcmult, Qcopp in *.
    rewrite !this_Q2Qc in *. unfold inject_Z.
    revert H0 H1. generalize (this p). intros [a b].
    unfold Qle, Qlt, Qplus, Qmult, Qopp. simpl. lia.
Qed.

End Seeds.

(** C8, as the code has it. The seed of the node at position [k] is made
    of the draws [2k] and [2k+1] of the random source, each coordinate in
    [-5, 5); nothing compares the seeds or draws again, so two nodes for
    which the source returns the same two values have the same seed. *)
Theorem seeds_follow_draws
    (random : nat -> num) (nodes : list Node.t) (j k : nat) (nj nk : Node.t) :
  (forall i, unitInterval (random i)) ->
  nodes !! j = Some nj -> nodes !! k = Some nk ->
  exists dj dk,
    seedNodes random 0 nodes !! j = Some dj
    /\ seedNodes random 0 nodes !! k = Some dk
    /\ D3Node.x dj = (random (2 * j)%nat * 10%Z - 5%Z)%num
    /\ D3Node.y dj = (random (S (2 * j)) * 10%Z - 5%Z)%num
    /\ ((-5)%Z <=? D3Node.x dj)%num = true /\ (D3Node.x dj <? 5%Z)%num = true
    /\ ((-5)%Z <=? D3Node.y dj)%num = true /\ (D3Node.y dj <? 5%Z)%num = true
    /\ D3Node.x dk = (random (2 * k)%nat * 10%Z - 5%Z)%num
    /\ D3Node.y dk = (random (S (2 * k)) * 10%Z - 5%Z)%num
    /\ (random (2 * j)%nat = random (2 * k)%nat ->
        random (S (2 * j)) = random (S (2 * k)) ->
        (D3Node.x dj, D3Node.y dj) = (D3Node.x dk, D3Node.y dk)).
Proof.
  intros Hr Hj Hk.
  eexists _, _.
  split; [exact (seedNodes_lookup random 0 nodes j nj Hj)|].
  split; [exact (seedNodes_lookup random 0 nodes k nk Hk)|].
  cbn [D3Node.x D3Node.y Nat.add].
  destruct (seed_coordinate_range _ (Hr (2 * j)%nat)) as [Lx Ux].
  destruct (seed_coordinate_range _ (Hr (S (2 * j)))) as [Ly Uy].
  do 8 (split; [auto|]).
  intros -> ->. reflexivity.
Qed.

Lemma risingRandom_unitInterval (i : nat) : unitInterval (risingRandom i).
Proof.
  unfold unitInterval, risingRandom, Num.of_Q. eexists. split; [reflexivity|].
  pose proof (Nat.mod_upper_bound i 16 ltac:(lia)) as Hlt.
  unfold Qcle, Qclt. rewrite !this_Q2Qc.
  unfold Qle, Qlt; simpl. lia.
Qed.

Lemma seeds_follow_draws_witness :
  (forall i, unitInterval (risingRandom i))
  /\ exists dj dk,
       seedNodes risingRandom 0 twoNodes !! 0%nat = Some dj
       /\ seedNodes risingRandom 0 twoNodes !! 1%nat = Some dk
       /\ D3Node.x dj = Num.of_Z (-5)
       /\ D3Node.x dk = Num.of_Q (-15 # 4).
Proof.
  split; [exact risingRandom_unitInterval|].
  destruct (seeds_follow_draws risingRandom twoNodes 0 1 _ _
              risingRandom_unitInterval eq_refl eq_refl)
    as (dj & dk & Hj & Hk & Hxj & _ & _ & _ & _ & _ & Hxk & _).
  exists dj, dk. split; [exact Hj|]. split; [exact Hk|].
  split; [rewrite Hxj | rewrite Hxk]; by_evaluation.
Defined.

(** C8 as stated fails: a random source that returns 0.5 at every call
    seeds two distinct nodes at the same point. *)
Lemma constant_source_identical_seeds :
  (forall i, unitInterval (halfRandom i))
  /\ map Node.id twoNodes = ["a"; "b"]
  /\ map (fun d => (D3Node.x d, D3Node.y d)) (seedNodes halfRandom 0 twoNodes)
     = [(Num.of_Z 0, Num.of_Z 0); (Num.of_Z 0, Num.of_Z 0)].
Proof.
  split; [|split; [reflexivity | by_evaluation]].
  intros i. exists (Q2Qc (1 # 2)). split; [reflexivity|].
  unfold Qcle, Qclt. rewrite !this_Q2Qc. unfold Qle, Qlt; simpl. lia.
Qed.

(** ** The entrance animation *)

Section AnimationFacts.
Local Open Scope Qc_scope.

Ltac to_Q :=
  unfold Qcle, Qclt, Qcdiv, Qcminus, Qcplus, Qcmult, Qcopp, Qcinv in *;
  unfold Q2Qc in *; cbn [this] in *;
  repeat rewrite Qred_correct;
  repeat match goal with H : _ |- _ => rewrite Qred_correct in H end;
  cbn [Qopp Qinv Qnum Qden Z.opp inject_Z] in *.

Lemma ratio_Fin (s now : Qc) :
  ((Fin now - Fin s) / 1500%Z)%num = Fin (raw s now).
Proof.
  unfold Num.of_Z, Num.of_Q. cbn [Num.sub Num.add Num.neg Num.div].
  now rewrite Qc_of_Z_nonzero.
Qed.

Lemma min_one_Fin (r : Qc) : Num.min (Fin r) 1%Z = Fin (cap r).
Proof. unfold cap. cbn. destruct (Num.Qc_ltb _ r); reflexivity. Qed.

Lemma easeCubicOut_Fin (t : Qc) : easeCubicOut (Fin t) = Fin (ease t).
Proof. reflexivity. Qed.

Lemma progressAt_Fin (s now : Qc) :
  progressAt s now = Fin (ease (cap (raw s now))).
Proof.
  unfold progressAt. now rewrite ratio_Fin, min_one_Fin, easeCubicOut_Fin.
Qed.

Lemma cap_lt_one (r : Qc) : Num.Qc_ltb (cap r) 1 = Num.Qc_ltb r 1.
Proof.
  unfold cap. destruct (Num.Qc_ltb 1 r) eqn:H; [|reflexivity].
  apply Qc_ltb_lt in H. symmetry.
  transitivity false; [|symmetry]; apply Qc_ltb_ge;
    [apply Qclt_le_weak, H | apply Qcle_refl].
Qed.

Lemma cap_of_ge_one (r : Qc) : 1 <= r -> cap r = 1.
Proof.
  intros H. unfold cap. destruct (Num.Qc_ltb 1 r) eqn:Hlt; [reflexivity|].
  apply Qc_ltb_ge in Hlt. apply Qcle_antisym; assumption.
Qed.

Lemma cap_mono (a b : Qc) : a <= b -> cap a <= cap b.
Proof.
  intros H. unfold cap.
  destruct (Num.Qc_ltb 1 a) eqn:Ha, (Num.Qc_ltb 1 b) eqn:Hb;
    rewrite ?Qc_ltb_lt, ?Qc_ltb_ge in *.
  - apply Qcle_refl.
  - exfalso. apply (Qclt_not_le _ _ Ha). now apply Qcle_trans with b.
  - exact Ha.
  - exact H.
Qed.

Lemma raw_mono (s a b : Qc) : a <= b -> raw s a <= raw s b.
Proof.
  intros H. unfold raw. to_Q.
  revert H. generalize (this a), (this b), (this s). intros x y z H. lra.
Qed.

Lemma raw_start (s : Qc) : raw s s = 0.
Proof. unfold raw. field. intros H. apply (f_equal this) in H. discriminate. Qed.

Lemma raw_end (s : Qc) : raw s (s + Q2Qc (inject_Z 1500)) = 1.
Proof. unfold raw. field. intros H. apply (f_equal this) in H. discriminate. Qed.

Lemma Q_square_nonneg (a : Q) : (0 <= a * a)%Q.
Proof.
  destruct (Qlt_le_dec a 0).
  - assert (E : (a * a == (- a) * (- a))%Q) by ring.
    rewrite E. apply Qmult_le_0_compat; lra.
  - apply Qmult_le_0_compat; lra.
Qed.

Lemma Q_cube_mono (u v : Q) : (u <= v -> u * u * u <= v * v * v)%Q.
Proof.
  intros H.
  pose proof (Q_square_nonneg (u + (1 # 2) * v)) as H1.
  pose proof (Q_square_nonneg v) as H2.
  assert (E : (v * v * v - u * u * u
               == (v - u) * ((u + (1 # 2) * v) * (u + (1 # 2) * v)
                             + (3 # 4) * (v * v)))%Q) by ring.
  assert (0 <= (v - u) * ((u + (1 # 2) * v) * (u + (1 # 2) * v)
                          + (3 # 4) * (v * v)))%Q
    by (apply Qmult_le_0_compat; lra).
  lra.
Qed.

Lemma ease_mono (a b : Qc) : a <= b -> ease a <= ease b.
Proof.
  intros H. unfold ease. to_Q.
  revert H. generalize (this a), (this b). intros x y H.
  pose proof (Q_cube_mono (x + (-1 # 1)) (y + (-1 # 1)) ltac:(lra)). lra.
Qed.

Lemma ease_zero : ease 0 = 0.
Proof. unfold ease. ring. Qed.

Lemma ease_one : ease 1 = 1.
Proof. unfold ease. ring. Qed.

Lemma cap_zero : cap 0 = 0.
Proof. reflexivity. Qed.

Lemma cap_one : cap 1 = 1.
Proof. reflexivity. Qed.

End AnimationFacts.

Section Playback.
Local Open Scope Qc_scope.

Lemma animate_first (s : Qc) :
  animate startAnimation (Fin s)
  = Animation.mk (Some (Fin s)) (progressAt s s)
      ((Fin s - Fin s) / 1500%Z <? 1%Z)%num.
Proof.
  unfold animate, startAnimation, progressAt. cbn [Animation.start].
  rewrite ratio_Fin, min_one_Fin. f_equal.
  cbn [Num.ltb Num.of_Z Num.of_Q]. apply cap_lt_one.
Qed.

Lemma animate_running (st : Animation.t) (s now : Qc) :
  Animation.start st = Some (Fin s) -> s <> 0 ->
  animate st (Fin now)
  = Animation.mk (Some (Fin s)) (progressAt s now)
      ((Fin now - Fin s) / 1500%Z <? 1%Z)%num.
Proof.
  intros Hstart Hs. unfold animate, progressAt. rewrite Hstart.
  assert (Ht : Num.truthy (Fin s) = true)
    by (apply negb_true_iff, Qc_eqb_neq, Hs).
  rewrite Ht, ratio_Fin, min_one_Fin. f_equal.
  cbn [Num.ltb Num.of_Z Num.of_Q]. apply cap_lt_one.
Qed.

Lemma ascending_snoc (prev : Qc) (ts : list Qc) (t : Qc) :
  ascending prev (ts ++ [t]) <-> ascending prev ts /\ List.last ts prev <= t.
Proof.
  revert prev. induction ts as [|a ts IH]; intros prev.
  - simpl. tauto.
  - change (ascending prev ((a :: ts) ++ [t]))
      with (prev <= a /\ ascending a (ts ++ [t])).
    rewrite IH.
    replace (List.last (a :: ts) prev) with (List.last ts a)
      by (clear; revert a; induction ts as [|b ts IH]; intros a;
          [reflexivity | simpl in *; destruct ts; [reflexivity | apply IH]]).
    simpl. tauto.
Qed.

Lemma last_snoc_default (ts : list Qc) (t d : Qc) : List.last (ts ++ [t]) d = t.
Proof. apply last_last. Qed.

(** The state of a run started at [s <> 0], after frames that never go back
    in time. *)
Lemma playback_state (s : Qc) (ts : list Qc) :
  s <> 0 -> ascending s ts ->
  playback (map Fin (s :: ts))
  = Animation.mk (Some (Fin s)) (progressAt s (List.last ts s))
      ((Fin (List.last ts s) - Fin s) / 1500%Z <? 1%Z)%num.
Proof.
  intros Hs. induction ts as [|now ts IH] using rev_ind; intros Hasc.
  - unfold playback. cbn [map foldl]. unfold frame.
    cbn [Animation.pending startAnimation]. apply animate_first.
  - apply ascending_snoc in Hasc as [Hasc Hle].
    specialize (IH Hasc).
    unfold playback in *. rewrite app_comm_cons, map_app, foldl_app.
    rewrite IH. rewrite last_snoc_default. cbn [map foldl].
    unfold frame. cbn [Animation.pending].
    destruct ((Fin (List.last ts s) - Fin s) / 1500%Z <? 1%Z)%num eqn:Hp.
    + apply animate_running; [reflexivity | exact Hs].
    + rewrite ratio_Fin in Hp. cbn [Num.ltb Num.of_Z Num.of_Q] in Hp.
      apply Qc_ltb_ge in Hp.
      assert (Hnow : 1 <= raw s now).
      { apply Qcle_trans with (raw s (List.last ts s)); [exact Hp|].
        apply raw_mono, Hle. }
      rewrite !progressAt_Fin, !ratio_Fin.
      rewrite (cap_of_ge_one _ Hp), (cap_of_ge_one _ Hnow). f_equal.
      cbn [Num.ltb Num.of_Z Num.of_Q]. symmetry. apply Qc_ltb_ge, Hnow.
Qed.

(** The start of a run is its first timestamp, whatever frames follow. *)
Lemma playback_start (s : Qc) (ts : list Qc) :
  s <> 0 -> Animation.start (playback (map Fin (s :: ts))) = Some (Fin s).
Proof.
  intros Hs. induction ts as [|now ts IH] using rev_ind.
  - unfold playback. cbn [map foldl]. unfold frame.
    cbn [Animation.pending startAnimation]. now rewrite animate_first.
  - rewrite app_comm_cons, map_app. change (map Fin [now]) with [Fin now].
    assert (Hsnoc : playback (map Fin (s :: ts) ++ [Fin now])
                    = frame (playback (map Fin (s :: ts))) (Fin now))
      by (unfold playback; apply foldl_snoc).
    rewrite Hsnoc. unfold frame.
    destruct (Animation.pending _); [|exact IH].
    now rewrite (animate_running _ s now IH Hs).
Qed.

End Playback.

(** C6. In a run whose first frame has the timestamp [s], a frame at
    [now] emits the progress [easeCubicOut(min((now - s) / 1500, 1))]
    whatever frames came before, and requests a next frame exactly while
    the ratio is below 1: the progress is 0 at [now = s], 1 at
    [now = s + 1500], non-decreasing in [now]; once no frame is requested
    the state no longer changes, and with frames that never go back in
    time the state after the run is that of its last timestamp.  The
    timestamp of a frame is not 0: it counts from the time origin of the
    page. *)
Theorem playback_progress (s : Qc) (ts : list Qc) :
  s <> 0%Qc ->
  Animation.start (playback (map Fin (s :: ts))) = Some (Fin s)
  /\ (forall now : Qc,
        Animation.animationProgress
          (animate (playback (map Fin (s :: ts))) (Fin now))
        = easeCubicOut (Num.min ((Fin now - Fin s) / 1500%Z)%num 1%Z)
        /\ Animation.pending
             (animate (playback (map Fin (s :: ts))) (Fin now))
           = ((Fin now - Fin s) / 1500%Z <? 1%Z)%num)
  /\ Animation.animationProgress (playback [Fin s]) = Num.of_Z 0
  /\ Animation.animationProgress
       (playback [Fin s; Fin (s + Q2Qc (inject_Z 1500))%Qc]) = Num.of_Z 1
  /\ Animation.pending
       (playback [Fin s; Fin (s + Q2Qc (inject_Z 1500))%Qc]) = false
  /\ (forall now1 now2 : Qc,
        (now1 <= now2)%Qc ->
        (easeCubicOut (Num.min ((Fin now1 - Fin s) / 1500%Z)%num 1%Z)
         <=? easeCubicOut (Num.min ((Fin now2 - Fin s) / 1500%Z)%num 1%Z))%num
        = true)
  /\ (Animation.pending (playback (map Fin (s :: ts))) = false ->
      forall t : num,
        frame (playback (map Fin (s :: ts))) t = playback (map Fin (s :: ts)))
  /\ (ascending s ts ->
      Animation.animationProgress (playback (map Fin (s :: ts)))
      = easeCubicOut
          (Num.min ((Fin (List.last ts s) - Fin s) / 1500%Z)%num 1%Z)
      /\ Animation.pending (playback (map Fin (s :: ts)))
         = ((Fin (List.last ts s) - Fin s) / 1500%Z <? 1%Z)%num).
Proof.
  intros Hs.
  pose proof (playback_start s ts Hs) as Hstart.
  split; [exact Hstart|].
  split.
  { intros now. rewrite (animate_running _ s now Hstart Hs).
    split; reflexivity. }
  split.
  { pose proof (playback_state s [] Hs I) as H0.
    change (playback [Fin s]) with (playback (map Fin [s])).
    rewrite H0. cbn [Animation.animationProgress List.last].
    rewrite progressAt_Fin, raw_start, cap_zero, ease_zero. reflexivity. }
  assert (Hend : playback [Fin s; Fin (s + Q2Qc (inject_Z 1500))%Qc]
                 = Animation.mk (Some (Fin s)) (Num.of_Z 1) false).
  { assert (Hup : ascending s [(s + Q2Qc (inject_Z 1500))%Qc]).
    { split; [|exact I]. unfold Qcle, Qcplus. rewrite this_Q2Qc, this_Q2Qc.
      unfold inject_Z. generalize (this s). intros x. lra. }
    pose proof (playback_state s _ Hs Hup) as H1.
    cbn [List.last] in H1.
    etransitivity; [exact H1|].
    rewrite progressAt_Fin, ratio_Fin, raw_end, cap_one, ease_one.
    reflexivity. }
  split; [rewrite Hend; reflexivity|].
  split; [rewrite Hend; reflexivity|].
  split.
  { intros now1 now2 Hle.
    fold (progressAt s now1). fold (progressAt s now2).
    rewrite !progressAt_Fin. cbn [Num.leb].
    apply negb_true_iff, Qc_ltb_ge, ease_mono, cap_mono, raw_mono, Hle. }
  split.
  { intros Hp t. unfold frame. rewrite Hp. reflexivity. }
  intros Hasc. rewrite (playback_state s ts Hs Hasc). split; reflexivity.
Qed.

Lemma playback_progress_witness :
  sampleStart <> 0%Qc
  /\ Animation.animationProgress
       (playback (map Fin (sampleStart :: sampleFrames))) = Num.of_Z 1
  /\ Animation.pending
       (playback (map Fin (sampleStart :: sampleFrames))) = false.
Proof.
  assert (Hs : sampleStart <> 0%Qc).
  { intros H. apply (f_equal this) in H. discriminate. }
  assert (Hasc : ascending sampleStart sampleFrames).
  { repeat split; unfold Qcle, Qle; simpl; lia. }
  split; [exact Hs|].
  destruct (playback_progress sampleStart sampleFrames Hs)
    as (_ & _ & _ & _ & _ & _ & _ & Hlast).
  destruct (Hlast Hasc) as [Hprogress Hpending].
  split.
  - rewrite Hprogress. by_evaluation.
  - rewrite Hpending. by_evaluation.
Defined.

(** The test [!start] also holds of a start that is 0.  Were a first frame
    to carry the timestamp 0, which the host does not deliver, the next
    frame would take its own timestamp as the start. *)
Lemma zero_start_timestamp_restarts :
  Animation.animationProgress (playback [Fin 0%Qc; Fin (Q2Qc (inject_Z 1500))])
  = Num.of_Z 0
  /\ Animation.pending (playback [Fin 0%Qc; Fin (Q2Qc (inject_Z 1500))]) = true.
Proof. repeat split; by_evaluation. Qed.

(** ** The layout writes to new objects only *)

Section StoreFacts.
Import Store.

Lemma alloc_spec (o : object) (h h' : gmap loc object) (l : loc) :
  alloc o h = (l, h') ->
  h !! l = None /\ h' = <[l := o]> h.
Proof.
  unfold alloc. intros [= <- <-]. split; [|reflexivity].
  apply not_elem_of_dom, is_fresh.
Qed.

Lemma alloc_extends (o : object) (h h' : gmap loc object) (l : loc) :
  alloc o h = (l, h') -> h ⊆ h'.
Proof.
  intros [Hnew ->]%alloc_spec. apply insert_subseteq, Hnew.
Qed.

Lemma allocList_spec (os : list object) (h h' : gmap loc object)
    (ls : list loc) :
  allocList os h = (ls, h') ->
  h ⊆ h'
  /\ (forall l, l ∈ ls -> h !! l = None)
  /\ (forall l, l ∈ ls -> is_Some (h' !! l)).
Proof.
  revert h h' ls. induction os as [|o os IH]; intros h h' ls.
  - intros [= <- <-]. split; [reflexivity|].
    split; intros l Hl; inversion Hl.
  - cbn [allocList].
    destruct (alloc o h) as [l h1] eqn:Ha.
    destruct (allocList os h1) as [ls' h2] eqn:Hl.
    intros Heq. injection Heq as <- <-.
    pose proof (alloc_extends _ _ _ _ Ha) as Hext1.
    apply alloc_spec in Ha as [Hnew ->].
    destruct (IH _ _ _ Hl) as (Hext2 & Hfresh & Hused).
    split; [etransitivity; eassumption|]. split.
    + intros l' [->|Hin]%elem_of_cons; [exact Hnew|].
      specialize (Hfresh l' Hin).
      destruct (h !! l') eqn:Hh; [|reflexivity].
      pose proof (lookup_weaken _ _ _ _ Hh Hext1) as Hw. congruence.
    + intros l' [->|Hin]%elem_of_cons; [|auto].
      exists o. apply (lookup_weaken (<[l := o]> h) h2); [|exact Hext2].
      apply lookup_insert_eq.
Qed.

Section Frame.
Context (E : D3ForceS) (HE : d3_frame E).
Context (na la : loc) (f : D3Node.t -> value).
Context (h0 : gmap loc object) (W : gset loc).
Context (Hna : forall l, l ∈ items h0 na -> l ∈ W).
Context (Hla : forall l, l ∈ items h0 la -> l ∈ W).
Context (HnaW : na ∉ W) (HlaW : la ∉ W).
Context (Hna0 : is_Some (h0 !! na)) (Hla0 : is_Some (h0 !! la)).

Lemma stable_step (h h' : gmap loc object) :
  stable h0 h W -> framed h h' na la -> stable h0 h' W.
Proof.
  intros Hst Hfr l Hl HlW.
  rewrite <- (Hst l Hl HlW). apply Hfr.
  - rewrite (Hst l Hl HlW). exact Hl.
  - unfold items. rewrite (Hst na Hna0 HnaW). intros Hin. apply HlW, Hna, Hin.
  - unfold items. rewrite (Hst la Hla0 HlaW). intros Hin. apply HlW, Hla, Hin.
Qed.

Lemma runTicksS_stable (fuel : nat) (h : gmap loc object) :
  stable h0 h W -> stable h0 (state_of (runTicksS E na la f fuel h)) W.
Proof.
  revert h. induction fuel as [|fuel IH]; intros h Hst; simpl; [exact Hst|].
  pose proof (stable_step h _ Hst (tick_framed E HE na la f h)) as Ht.
  destruct (tickS E na la f h) as [h'|h']; simpl in *; [|exact Ht].
  destruct (items h' na) as [|first rest]; [apply IH, Ht|].
  destruct (negb _); [exact Ht | apply IH, Ht].
Qed.

Lemma simulateS_stable :
  stable h0 (state_of (simulateS E na la f h0)) W.
Proof.
  unfold simulateS.
  assert (H0 : stable h0 h0 W) by (intros l _ _; reflexivity).
  pose proof (stable_step h0 _ H0 (setup_framed E HE na la f h0)) as Hs.
  destruct (forceSimulationS E na la f h0) as [h'|h']; cbn [state_of] in *;
    [|exact Hs].
  apply runTicksS_stable, Hs.
Qed.

End Frame.

Lemma collectS_img (final : list D3Node.t) (points : list loc) (l : loc) :
  l ∈ (map_img (collectS final points) : gset loc) -> l ∈ points.
Proof.
  unfold collectS.
  assert (Hgen : forall (zs : list (D3Node.t * loc)) (acc : gmap string loc)
                        (k : string),
             foldl (fun (entries : gmap string loc) dl =>
                      <[D3Node.id dl.1 := dl.2]> entries) acc zs !! k = Some l ->
             acc !! k = Some l \/ l ∈ zs.*2).
  { induction zs as [|[d p] zs IH]; intros acc k Hk; cbn [foldl] in Hk;
      [now left|].
    rewrite fmap_cons. cbn [fst snd] in *.
    destruct (IH _ _ Hk) as [Hacc|Hin]; [|right; now right].
    destruct (decide (D3Node.id d = k)) as [Heq|Hne].
    - rewrite Heq, lookup_insert_eq in Hacc. injection Hacc as ->.
      right. now left.
    - rewrite lookup_insert_ne in Hacc by exact Hne. now left. }
  intros (k & Hk)%elem_of_map_img.
  destruct (Hgen _ _ _ Hk) as [Hempty|Hin].
  - rewrite lookup_empty in Hempty. discriminate.
  - apply list_elem_of_fmap in Hin as ([d p] & -> & Hin).
    eapply elem_of_zip_r, Hin.
Qed.

Lemma emptyLayoutS_spec (h h' : gmap loc object) (r : loc) :
  emptyLayoutS h = (r, h') ->
  h ⊆ h' /\ forall l, l ∈ resultLocs h' r -> h !! l = None.
Proof.
  unfold emptyLayoutS.
  destruct (alloc (OMap ∅) h) as [m h1] eqn:Hm.
  intros Hr.
  pose proof (alloc_extends _ _ _ _ Hm) as Hext1.
  pose proof (alloc_extends _ _ _ _ Hr) as Hext2.
  apply alloc_spec in Hm as [Hm ->]. apply alloc_spec in Hr as [Hr ->].
  split; [etransitivity; eassumption|].
  assert (Hrm : r <> m) by (intros ->; rewrite lookup_insert_eq in Hr; discriminate).
  intros l. unfold resultLocs.
  rewrite lookup_insert_eq, lookup_insert_ne, lookup_insert_eq by exact Hrm.
  rewrite map_img_empty_L.
  intros [->%elem_of_singleton | [->%elem_of_singleton | []%elem_of_empty]%elem_of_union]%elem_of_union.
  - rewrite lookup_insert_ne in Hr by (intros Heq; apply Hrm; now symmetry).
    exact Hr.
  - exact Hm.
Qed.

End StoreFacts.

Section LayoutOnStore.
Import Store.

Lemma unused_below (h h' : gmap loc object) (l : loc) :
  h ⊆ h' -> h' !! l = None -> h !! l = None.
Proof.
  intros Hext Hl. destruct (h !! l) eqn:Hh; [|reflexivity].
  pose proof (lookup_weaken _ _ _ _ Hh Hext). congruence.
Qed.

Lemma layoutS_spec (E : D3ForceS) (HE : d3_frame E) (random : nat -> num)
    (data : option TraceRef) (h h' : gmap loc object) (r : loc) :
  layoutS E random data h = (r, h') ->
  h ⊆ h' /\ forall l, l ∈ resultLocs h' r -> h !! l = None.
Proof.
  unfold layoutS.
  destruct (data ≫= nodes) as [nodesArr|]; [|apply emptyLayoutS_spec].
  destruct (negb (isArray h nodesArr) || _); [apply emptyLayoutS_spec|].
  set (ns := omap (nodeAt h) (items h nodesArr)).
  set (edgeLocs := match data ≫= edges with
                   | Some edgesArr => items h edgesArr
                   | None => []
                   end).
  set (sts := match data ≫= stages with
              | Some stagesArr => omap (stageAt h) (items h stagesArr)
              | None => []
              end).
  set (keptLocs := filter _ edgeLocs).
  destruct (allocList (map OD3Node (seedNodes random 0 ns)) h)
    as [d3NodeLocs h1] eqn:E1.
  destruct (alloc (OArray d3NodeLocs) h1) as [d3Nodes h2] eqn:E2.
  destruct (alloc (OArray keptLocs) h2) as [kept h3] eqn:E3.
  destruct (allocList _ h3) as [linkLocs h4] eqn:E4.
  destruct (alloc (OArray linkLocs) h4) as [d3Links h5] eqn:E5.
  set (f := laneTarget (stageX_of (map Stage.id sts))).
  set (h6 := state_of (simulateS E d3Nodes d3Links f h5)).
  set (final := omap (d3NodeAt h6) (items h6 d3Nodes)).
  destruct (allocList _ h6) as [pointLocs h7] eqn:E7.
  destruct (alloc (OMap (collectS final pointLocs)) h7) as [m h8] eqn:E8.
  intros E9.
  destruct (allocList_spec _ _ _ _ E1) as (X1 & F1 & U1).
  pose proof (alloc_extends _ _ _ _ E2) as X2.
  pose proof (alloc_extends _ _ _ _ E3) as X3.
  destruct (allocList_spec _ _ _ _ E4) as (X4 & F4 & U4).
  pose proof (alloc_extends _ _ _ _ E5) as X5.
  destruct (allocList_spec _ _ _ _ E7) as (X7 & F7 & _).
  pose proof (alloc_extends _ _ _ _ E8) as X8.
  pose proof (alloc_extends _ _ _ _ E9) as X9.
  apply alloc_spec in E2 as [N2 ->]. apply alloc_spec in E3 as [N3 ->].
  apply alloc_spec in E5 as [N5 ->].
  apply alloc_spec in E8 as [N8 ->]. apply alloc_spec in E9 as [N9 ->].
  set (h2 := <[d3Nodes := OArray d3NodeLocs]> h1) in *.
  set (h3 := <[kept := OArray keptLocs]> h2) in *.
  set (h5 := <[d3Links := OArray linkLocs]> h4) in *.
  assert (X03 : h ⊆ h3) by (do 2 (etransitivity; [eassumption|]); exact X3).
  assert (X35 : h3 ⊆ h5) by (etransitivity; eassumption).
  (* the two arrays given to d3 and their items *)
  assert (A5n : h5 !! d3Nodes = Some (OArray d3NodeLocs)).
  { apply (lookup_weaken h2 h5); [apply lookup_insert_eq|].
    etransitivity; eassumption. }
  assert (A5l : h5 !! d3Links = Some (OArray linkLocs))
    by apply lookup_insert_eq.
  set (W := (list_to_set d3NodeLocs ∪ list_to_set linkLocs : gset loc)).
  assert (Hst : stable h5 h6 W).
  { apply (simulateS_stable E HE).
    - unfold items. rewrite A5n. intros l Hl.
      apply elem_of_union_l, elem_of_list_to_set, Hl.
    - unfold items. rewrite A5l. intros l Hl.
      apply elem_of_union_r, elem_of_list_to_set, Hl.
    - intros [Hin|Hin]%elem_of_union; apply elem_of_list_to_set in Hin.
      + destruct (U1 _ Hin) as [o Ho]. congruence.
      + specialize (F4 _ Hin).
        assert (h3 !! d3Nodes = Some (OArray d3NodeLocs))
          by (apply (lookup_weaken h2 h3); [apply lookup_insert_eq | exact X3]).
        congruence.
    - intros [Hin|Hin]%elem_of_union; apply elem_of_list_to_set in Hin.
      + destruct (U1 _ Hin) as [o Ho].
        assert (h4 !! d3Links = Some o).
        { apply (lookup_weaken h1 h4); [exact Ho|].
          do 2 (etransitivity; [eassumption|]). exact X4. }
        congruence.
      + destruct (U4 _ Hin) as [o Ho]. congruence.
    - rewrite A5n. eauto.
    - rewrite A5l. eauto. }
  assert (X06 : h ⊆ h6).
  { apply map_subseteq_spec. intros l o Hl.
    assert (H5 : h5 !! l = Some o).
    { apply (lookup_weaken h h5); [exact Hl|]. etransitivity; eassumption. }
    rewrite (Hst l); [exact H5 | rewrite H5; eauto |].
    intros [Hin|Hin]%elem_of_union; apply elem_of_list_to_set in Hin.
    - specialize (F1 _ Hin). congruence.
    - specialize (F4 _ Hin). pose proof (unused_below _ _ _ X03 F4). congruence. }
  assert (X07 : h ⊆ h7) by (etransitivity; eassumption).
  assert (X08 : h ⊆ <[m := OMap (collectS final pointLocs)]> h7)
    by (etransitivity; eassumption).
  split; [etransitivity; eassumption|].
  assert (Hrm : r <> m) by (intros ->; rewrite lookup_insert_eq in N9; discriminate).
  intros l. unfold resultLocs.
  rewrite lookup_insert_eq, lookup_insert_ne, lookup_insert_eq by exact Hrm.
  intros [->%elem_of_singleton | [->%elem_of_singleton | Himg]%elem_of_union]%elem_of_union.
  - exact (unused_below _ _ _ X08 N9).
  - exact (unused_below _ _ _ X07 N8).
  - apply collectS_img in Himg. exact (unused_below _ _ _ X06 (F7 _ Himg)).
Qed.

End LayoutOnStore.

Section LiftedEngine.
Import Store.

Lemma writeBack_other (locs : list loc) (ds : list D3Node.t)
    (h : gmap loc object) (l : loc) :
  l ∉ locs -> writeBack locs ds h !! l = h !! l.
Proof.
  unfold writeBack. revert ds.
  induction locs as [|a locs IH]; intros ds Hl; [reflexivity|].
  destruct ds as [|d ds]; [reflexivity|]. cbn [zip zip_with foldr fst snd].
  rewrite lookup_insert_ne by (intros ->; apply Hl; left).
  apply IH. intros Hin. apply Hl. right. exact Hin.
Qed.

Lemma onStore_framed (run : list D3Node.t -> completion (list D3Node.t))
    (na la : loc) (h : gmap loc object) :
  framed h (state_of (onStore run na h)) na la.
Proof.
  intros l _ Hna _. unfold onStore.
  destruct (run _) as [ds'|ds']; cbn [state_of]; apply writeBack_other;
    intros [_ Hin]%list_elem_of_filter; exact (Hna Hin).
Qed.

Lemma liftEngine_frame (E : D3Force) : d3_frame (liftEngine E).
Proof. constructor; intros; apply onStore_framed. Qed.

End LiftedEngine.

(** C9. The layout leaves every object of the store as it was, whatever it
    is given: the stage, node and edge objects and the arrays holding them
    keep their values.  The layout result, its map and the points in it
    are objects that did not exist before the call; none of them is an
    object of the input. *)
Theorem layout_leaves_input_unchanged
    (E : Store.D3ForceS) (random : nat -> num)
    (data : option Store.TraceRef) (h : gmap Store.loc Store.object) :
  Store.d3_frame E ->
  (forall l o,
      h !! l = Some o -> (Store.layoutS E random data h).2 !! l = Some o)
  /\ (forall l,
        l ∈ Store.resultLocs (Store.layoutS E random data h).2
              (Store.layoutS E random data h).1 ->
        h !! l = None)
  /\ (forall d l,
        data = Some d -> l ∈ Store.traceLocs h d -> is_Some (h !! l) ->
        l ∉ Store.resultLocs (Store.layoutS E random data h).2
              (Store.layoutS E random data h).1).
Proof.
  intros HE.
  destruct (Store.layoutS E random data h) as [r h'] eqn:Hrun.
  destruct (layoutS_spec E HE random data h h' r Hrun) as [Hext Hnew].
  cbn [fst snd]. split; [|split].
  - intros l o Hl. exact (lookup_weaken _ _ _ _ Hl Hext).
  - exact Hnew.
  - intros d l _ _ [o Ho] Hin. rewrite (Hnew l Hin) in Ho. discriminate.
Qed.

Lemma layout_leaves_input_unchanged_witness :
  Store.d3_frame (Store.liftEngine laneEngine)
  /\ (forall l o,
        sampleStore !! l = Some o ->
        (Store.layoutS (Store.liftEngine laneEngine) risingRandom
           (Some sampleTraceRef) sampleStore).2 !! l = Some o)
  /\ Store.resultLocs
       (Store.layoutS (Store.liftEngine laneEngine) risingRandom
          (Some sampleTraceRef) sampleStore).2
       (Store.layoutS (Store.liftEngine laneEngine) risingRandom
          (Some sampleTraceRef) sampleStore).1
     = list_to_set [19; 20; 21; 22]%positive.
Proof.
  split; [exact (liftEngine_frame laneEngine)|].
  split; [|by_evaluation].
  apply (layout_leaves_input_unchanged (Store.liftEngine laneEngine)
           risingRandom (Some sampleTraceRef) sampleStore
           (liftEngine_frame laneEngine)).
Defined.

(** ** The store-level layout computes the positions of the value-level one *)

Section Reading.
Import Store.

Lemma stored_weaken (h h' : gmap loc object) (ls : list loc)
    (os : list object) :
  h ⊆ h' -> stored h ls os -> stored h' ls os.
Proof.
  intros Hext Hst. unfold stored in *.
  eapply Forall2_impl; [exact Hst|].
  intros l o Hl. exact (lookup_weaken _ _ _ _ Hl Hext).
Qed.

Lemma stored_length (h : gmap loc object) (ls : list loc) (os : list object) :
  stored h ls os -> length ls = length os.
Proof. apply Forall2_length. Qed.

Lemma omap_stored {A : Type} (C : A -> object)
    (at_ : gmap loc object -> loc -> option A)
    (Hat : forall h l v, h !! l = Some (C v) -> at_ h l = Some v)
    (h : gmap loc object) (ls : list loc) (vs : list A) :
  stored h ls (map C vs) -> omap (at_ h) ls = vs.
Proof.
  revert ls. induction vs as [|v vs IH]; intros ls Hst.
  - apply Forall2_nil_inv_r in Hst as ->. reflexivity.
  - apply Forall2_cons_inv_r in Hst as (l & ls' & Hl & Hst & ->).
    cbn [omap list_omap]. rewrite (Hat _ _ _ Hl), (IH _ Hst). reflexivity.
Qed.

Lemma nodeAt_stored h l n : h !! l = Some (ONode n) -> nodeAt h l = Some n.
Proof. unfold nodeAt. now intros ->. Qed.

Lemma edgeAt_stored h l e : h !! l = Some (OEdge e) -> edgeAt h l = Some e.
Proof. unfold edgeAt. now intros ->. Qed.

Lemma stageAt_stored h l s : h !! l = Some (OStage s) -> stageAt h l = Some s.
Proof. unfold stageAt. now intros ->. Qed.

Lemma d3NodeAt_stored h l d : h !! l = Some (OD3Node d) -> d3NodeAt h l = Some d.
Proof. unfold d3NodeAt. now intros ->. Qed.

Lemma d3LinkAt_stored h l k : h !! l = Some (OD3Link k) -> d3LinkAt h l = Some k.
Proof. unfold d3LinkAt. now intros ->. Qed.

Lemma pointAt_stored h l p : h !! l = Some (OPoint p) -> pointAt h l = Some p.
Proof. unfold pointAt. now intros ->. Qed.

Lemma allocList_stored (os : list object) (h h' : gmap loc object)
    (ls : list loc) :
  allocList os h = (ls, h') -> stored h' ls os /\ NoDup ls.
Proof.
  revert h h' ls. induction os as [|o os IH]; intros h h' ls.
  - intros [= <- <-]. split; constructor.
  - cbn [allocList].
    destruct (alloc o h) as [l h1] eqn:Ha.
    destruct (allocList os h1) as [ls' h2] eqn:Hl.
    intros Heq. injection Heq as <- <-.
    apply alloc_spec in Ha as [Hnew ->].
    destruct (IH _ _ _ Hl) as [Hst Hnd].
    destruct (allocList_spec _ _ _ _ Hl) as (Hext & Hfresh & _).
    split.
    + constructor; [|exact Hst].
      apply (lookup_weaken (<[l := o]> h) h2); [apply lookup_insert_eq | exact Hext].
    + constructor; [|exact Hnd].
      intros Hin. specialize (Hfresh _ Hin).
      rewrite lookup_insert_eq in Hfresh. discriminate.
Qed.

Lemma kept_edges (nodeIds : gset string) (h : gmap loc object)
    (ls : list loc) (es : list Edge.t) :
  stored h ls (map OEdge es) ->
  omap (edgeAt h)
    (filter (fun l => from_option (endpoints_known nodeIds) false (edgeAt h l)
                      = true) ls)
  = filter (fun e => endpoints_known nodeIds e = true) es.
Proof.
  revert ls. induction es as [|e es IH]; intros ls Hst.
  - apply Forall2_nil_inv_r in Hst as ->. reflexivity.
  - apply Forall2_cons_inv_r in Hst as (l & ls' & Hl & Hst & ->).
    apply edgeAt_stored in Hl.
    rewrite !filter_cons, Hl. cbn [from_option].
    destruct (decide (endpoints_known nodeIds e = true)) as [Hk|Hk].
    + cbn [omap list_omap]. rewrite Hl, (IH _ Hst). reflexivity.
    + apply IH, Hst.
Qed.

End Reading.

Section Lifted.
Import Store.
Context (E : D3Force) (HE : d3_contract E).
Context (na la : loc) (f : D3Node.t -> value).
Context (llocs : list loc) (links : list D3Link.t).

Lemma stored_insert_other (h : gmap loc object) (l : loc) (o : object)
    (ls : list loc) (os : list object) :
  l ∉ ls -> stored h ls os -> stored (<[l := o]> h) ls os.
Proof.
  intros Hl Hst. unfold stored in *. induction Hst as [|l' o' ls' os' H1 H2 IH].
  - constructor.
  - constructor.
    + rewrite lookup_insert_ne; [exact H1|]. intros ->. apply Hl. left.
    + apply IH. intros Hin. apply Hl. right. exact Hin.
Qed.

Lemma writeBack_stored (ls : list loc) (ds : list D3Node.t)
    (h : gmap loc object) :
  NoDup ls -> length ds = length ls ->
  stored (writeBack ls ds h) ls (map OD3Node ds).
Proof.
  unfold writeBack. revert ds.
  induction ls as [|l ls IH]; intros ds Hn Hlen.
  - destruct ds; [constructor | discriminate].
  - destruct ds as [|d ds]; [discriminate|].
    apply NoDup_cons in Hn as [Hl Hn]. injection Hlen as Hlen.
    cbn [zip zip_with foldr fst snd map]. constructor.
    + apply lookup_insert_eq.
    + apply stored_insert_other; [exact Hl|]. apply IH; assumption.
Qed.

Lemma filter_all {A : Type} (P : A -> Prop) `{forall x, Decision (P x)}
    (l : list A) :
  (forall x, x ∈ l -> P x) -> filter P l = l.
Proof.
  induction l as [|a l IH]; intros Hl; [reflexivity|].
  rewrite filter_cons_True by (apply Hl; left). f_equal.
  apply IH. intros x Hx. apply Hl. right. exact Hx.
Qed.

Lemma stored_elem (h : gmap loc object) (ls : list loc) (os : list object)
    (l : loc) :
  stored h ls os -> l ∈ ls -> exists o, o ∈ os /\ h !! l = Some o.
Proof.
  intros Hst Hl. unfold stored in Hst.
  induction Hst as [|l' o' ls' os' H1 H2 IH]; [inversion Hl|].
  apply elem_of_cons in Hl as [->|Hl].
  - exists o'. split; [left | exact H1].
  - destruct (IH Hl) as (o & Ho & Hlo). exists o. split; [right; exact Ho | exact Hlo].
Qed.

Lemma onStore_state (run : list D3Node.t -> completion (list D3Node.t))
    (locs : list loc) (h : gmap loc object) (ns : list D3Node.t) :
  NoDup locs -> na ∉ locs -> la ∉ locs ->
  (forall l, l ∈ llocs -> l ∉ locs) ->
  simulationState na la locs llocs links h ns ->
  length (state_of (run ns)) = length ns ->
  threw (onStore run na h) = threw (run ns)
  /\ simulationState na la locs llocs links
       (state_of (onStore run na h)) (state_of (run ns)).
Proof.
  intros Hnd Hna Hla Hll (Hh & Hns & Hl & Hls) Hlen.
  unfold onStore, items. rewrite Hh.
  assert (Hall : filter (fun l => is_Some (d3NodeAt h l)) locs = locs).
  { apply filter_all. intros l Hin.
    destruct (stored_elem _ _ _ _ Hns Hin) as (o & Ho & Hlo).
    apply list_elem_of_fmap in Ho as (d & -> & _).
    rewrite (d3NodeAt_stored _ _ _ Hlo). eauto. }
  rewrite Hall, (omap_stored OD3Node d3NodeAt d3NodeAt_stored h locs ns Hns).
  assert (Hlocs : length (state_of (run ns)) = length locs).
  { rewrite Hlen. apply stored_length in Hns.
    rewrite length_map in Hns. now symmetry. }
  assert (Hinv : simulationState na la locs llocs links
                   (writeBack locs (state_of (run ns)) h) (state_of (run ns))).
  { split; [rewrite writeBack_other by exact Hna; exact Hh|].
    split; [apply writeBack_stored; assumption|].
    split; [rewrite writeBack_other by exact Hla; exact Hl|].
    unfold stored in *. eapply Forall2_impl; [|intros ? ? Hx; exact Hx].
    clear -Hls Hll. induction Hls as [|l o ls os H1 H2 IH]; constructor.
    - rewrite writeBack_other; [exact H1 | apply Hll; left].
    - apply IH. intros l' Hl'. apply Hll. right. exact Hl'. }
  destruct (run ns) as [ns'|ns']; cbn [state_of threw] in *; auto.
Qed.

Lemma links_read (locs : list loc) (h : gmap loc object)
    (ns : list D3Node.t) :
  simulationState na la locs llocs links h ns ->
  omap (d3LinkAt h) (items h la) = links.
Proof.
  intros (_ & _ & Hl & Hls). unfold items. rewrite Hl.
  exact (omap_stored OD3Link d3LinkAt d3LinkAt_stored h llocs links Hls).
Qed.

Lemma tick_length (ns : list D3Node.t) :
  length (state_of (tick E links f ns)) = length ns.
Proof.
  pose proof (f_equal length (tick_keeps_nodes E HE links f ns)) as H.
  now rewrite !length_map in H.
Qed.

Lemma setup_length (ns : list D3Node.t) :
  length (state_of (forceSimulation E ns links f)) = length ns.
Proof.
  pose proof (f_equal length (setup_keeps_nodes E HE ns links f)) as H.
  now rewrite !length_map in H.
Qed.

Lemma runTicksS_state (fuel : nat) (locs : list loc) (h : gmap loc object)
    (ns : list D3Node.t) :
  NoDup locs -> na ∉ locs -> la ∉ locs ->
  (forall l, l ∈ llocs -> l ∉ locs) ->
  simulationState na la locs llocs links h ns ->
  simulationState na la locs llocs links
    (state_of (runTicksS (liftEngine E) na la f fuel h))
    (state_of (runTicks E links f fuel ns)).
Proof.
  intros Hnd Hna Hla Hll. revert h ns.
  induction fuel as [|fuel IH]; intros h ns Hst; [exact Hst|].
  cbn [runTicksS runTicks liftEngine tickS].
  rewrite (links_read locs h ns Hst).
  destruct (onStore_state (fun ds => tick E links f ds) locs h ns
              Hnd Hna Hla Hll Hst (tick_length ns)) as [Hthrew Hnext].
  destruct (tick E links f ns) as [ns'|ns'],
           (onStore (fun ds => tick E links f ds) na h) as [h'|h'];
    cbn [state_of threw] in *; try discriminate; [|exact Hnext].
  destruct Hnext as (Hh & Hns & Hrest). unfold items. rewrite Hh.
  assert (Hnext : simulationState na la locs llocs links h' ns')
    by (split; [exact Hh|]; split; [exact Hns | exact Hrest]).
  clear Hthrew Hst. destruct ns' as [|d ns'].
  - apply Forall2_nil_inv_r in Hns. subst locs. apply IH, Hnext.
  - apply Forall2_cons_inv_r in Hns as (l & ls' & Hl & _ & Heq). subst locs.
    rewrite (d3NodeAt_stored _ _ _ Hl). cbn [from_option].
    destruct (negb (Num.isFinite (D3Node.x d)));
      [exact Hnext | apply IH, Hnext].
Qed.

Lemma simulateS_state (locs : list loc) (h : gmap loc object)
    (ns : list D3Node.t) :
  NoDup locs -> na ∉ locs -> la ∉ locs ->
  (forall l, l ∈ llocs -> l ∉ locs) ->
  simulationState na la locs llocs links h ns ->
  simulationState na la locs llocs links
    (state_of (simulateS (liftEngine E) na la f h))
    (state_of (simulate E ns links f)).
Proof.
  intros Hnd Hna Hla Hll Hst. unfold simulateS, simulate.
  cbn [liftEngine forceSimulationS].
  rewrite (links_read locs h ns Hst).
  destruct (onStore_state (fun ds => forceSimulation E ds links f) locs h ns
              Hnd Hna Hla Hll Hst (setup_length ns)) as [Hthrew Hnext].
  destruct (forceSimulation E ns links f) as [ns'|ns'],
           (onStore (fun ds => forceSimulation E ds links f) na h) as [h'|h'];
    cbn [state_of threw] in *; try discriminate; [|exact Hnext].
  apply runTicksS_state; assumption.
Qed.

End Lifted.

Section Agreement.
Import Store.

Lemma collectS_collect (h : gmap loc object) (ds : list D3Node.t)
    (ps : list loc) (id : string) :
  Forall2 (fun d p => pointAt h p = Some (position d)) ds ps ->
  collectS ds ps !! id ≫= pointAt h = collect ds !! id.
Proof.
  revert ps. induction ds as [|d ds IH] using rev_ind; intros ps Hps.
  - apply Forall2_nil_inv_l in Hps as ->.
    unfold collectS, collect. cbn [zip zip_with foldl].
    rewrite !lookup_empty. reflexivity.
  - apply Forall2_app_inv_l in Hps as (ps1 & ps2 & Hps1 & Hps2 & ->).
    apply Forall2_cons_inv_l in Hps2 as (p & ps3 & Hp & Hnil & ->).
    apply Forall2_nil_inv_l in Hnil as ->.
    rewrite collect_snoc. unfold collectS.
    rewrite zip_with_app by (eapply Forall2_length, Hps1).
    change (zip_with pair [d] [p]) with [(d, p)].
    rewrite foldl_snoc. cbn [fst snd].
    destruct (decide (D3Node.id d = id)) as [Heq|Hne].
    + rewrite Heq, !lookup_insert_eq. exact Hp.
    + rewrite !lookup_insert_ne by exact Hne. apply (IH _ Hps1).
Qed.

Lemma emptyLayoutS_result (h : gmap loc object) :
  exists m,
    (emptyLayoutS h).2 !! (emptyLayoutS h).1 = Some (OLayout m)
    /\ (emptyLayoutS h).2 !! m = Some (OMap ∅).
Proof.
  unfold emptyLayoutS.
  destruct (alloc (OMap ∅) h) as [m h1] eqn:Hm.
  destruct (alloc (OLayout m) h1) as [r h2] eqn:Hr.
  apply alloc_spec in Hm as [Hm ->]. apply alloc_spec in Hr as [Hr ->].
  exists m. cbn [fst snd]. split; [apply lookup_insert_eq|].
  rewrite lookup_insert_ne; [apply lookup_insert_eq|].
  intros ->. rewrite lookup_insert_eq in Hr. discriminate.
Qed.

Lemma storedArray_some (h : gmap loc object) (a : option loc)
    (os : list object) :
  storedArray h a (Some os) ->
  exists l ls, a = Some l /\ h !! l = Some (OArray ls) /\ stored h ls os.
Proof.
  destruct a as [l|]; [|contradiction].
  intros (ls & Hl & Hst). eauto.
Qed.

Lemma storedArray_none (h : gmap loc object) (a : option loc) :
  storedArray h a None -> a = None.
Proof. destruct a; [contradiction | reflexivity]. Qed.

End Agreement.

Section AgreementTheorem.
Import Store.

(** On a store that holds the trace [t], the store-level layout run with
    the engine [E] lifted to the store builds a map whose entries are the
    positions of [layout E random (Some t)]. *)
Theorem layoutS_computes_layout
    (E : D3Force) (random : nat -> num) (h : gmap loc object)
    (ref : TraceRef) (t : ExplainTrace.t) :
  d3_contract E ->
  represents h ref t ->
  exists m entries,
    (layoutS (liftEngine E) random (Some ref) h).2
      !! (layoutS (liftEngine E) random (Some ref) h).1 = Some (OLayout m)
    /\ (layoutS (liftEngine E) random (Some ref) h).2 !! m = Some (OMap entries)
    /\ forall id,
         entries !! id ≫= pointAt (layoutS (liftEngine E) random (Some ref) h).2
         = LayoutResult.nodePositions (layout E random (Some t)) !! id.
Proof.
  intros HE (Hstages & Hnodes & Hedges).
  unfold layoutS, layout. cbn [mbind option_bind].
  (* no node *)
  assert (Hempty : exists m entries,
             (emptyLayoutS h).2 !! (emptyLayoutS h).1 = Some (OLayout m)
             /\ (emptyLayoutS h).2 !! m = Some (OMap entries)
             /\ forall id,
                  entries !! id ≫= pointAt (emptyLayoutS h).2
                  = (∅ : gmap string Point3D.t) !! id).
  { destruct (emptyLayoutS_result h) as (m & Hr & Hm).
    exists m, ∅. split; [exact Hr|]. split; [exact Hm|].
    intros id. rewrite !lookup_empty. reflexivity. }
  destruct (ExplainTrace.nodes t) as [ns|]; cbn [fmap option_fmap option_map] in Hnodes;
    [|rewrite (storedArray_none _ _ Hnodes); exact Hempty].
  destruct (storedArray_some _ _ _ Hnodes) as (na & nls & -> & Hna & Hns).
  assert (HisArray : isArray h na = true) by (unfold isArray; now rewrite Hna).
  assert (Hitems : items h na = nls) by (unfold items; now rewrite Hna).
  rewrite HisArray, !Hitems. cbn [negb orb].
  pose proof (stored_length _ _ _ Hns) as Hlen. rewrite length_map in Hlen.
  destruct ns as [|n ns']; [destruct nls; [exact Hempty | discriminate]|].
  destruct nls as [|nl nls']; [discriminate|].
  cbn [length Nat.eqb].
  rewrite (omap_stored ONode nodeAt nodeAt_stored h _ _ Hns).
  set (grNodes := n :: ns') in *.
  (* edges and stages as values *)
  set (grEdges := default [] (ExplainTrace.edges t)).
  set (grStages := default [] (ExplainTrace.stages t)).
  assert (Hel : exists els,
             match Store.edges ref with
             | Some edgesArr => items h edgesArr
             | None => []
             end = els /\ stored h els (map OEdge grEdges)).
  { unfold grEdges. destruct (ExplainTrace.edges t) as [es|];
      cbn [fmap option_fmap option_map] in Hedges.
    - destruct (storedArray_some _ _ _ Hedges) as (ea & els & -> & Hea & Hes).
      exists els. unfold items. rewrite Hea. split; [reflexivity | exact Hes].
    - rewrite (storedArray_none _ _ Hedges). exists []. split; [reflexivity|].
      constructor. }
  destruct Hel as (els & -> & Hes).
  assert (Hsl : match Store.stages ref with
                | Some stagesArr => omap (stageAt h) (items h stagesArr)
                | None => []
                end = grStages).
  { unfold grStages. destruct (ExplainTrace.stages t) as [ss|];
      cbn [fmap option_fmap option_map] in Hstages.
    - destruct (storedArray_some _ _ _ Hstages) as (sa & sls & -> & Hsa & Hss).
      unfold items. rewrite Hsa.
      exact (omap_stored OStage stageAt stageAt_stored h _ _ Hss).
    - rewrite (storedArray_none _ _ Hstages). reflexivity. }
  rewrite Hsl. clear Hsl.
  set (nodeIds := (list_to_set (map Node.id grNodes) : gset string)).
  rewrite (kept_edges nodeIds h els grEdges Hes).
  rewrite <- (map_map mkLink OD3Link).
  fold (d3Links_of nodeIds grEdges).
  set (links := d3Links_of nodeIds grEdges).
  set (seeds := seedNodes random 0 grNodes).
  set (f := laneTarget (stageX_of (map Stage.id grStages))).
  (* the allocations *)
  destruct (allocList (map OD3Node seeds) h) as [locs h1] eqn:E1.
  destruct (alloc (OArray locs) h1) as [d3n h2] eqn:E2.
  destruct (alloc (OArray _) h2) as [kept h3] eqn:E3.
  destruct (allocList (map OD3Link links) h3) as [llocs h4] eqn:E4.
  destruct (alloc (OArray llocs) h4) as [d3l h5] eqn:E5.
  destruct (allocList_spec _ _ _ _ E1) as (X1 & _ & U1).
  destruct (allocList_stored _ _ _ _ E1) as (S1 & Hnd).
  pose proof (alloc_extends _ _ _ _ E2) as X2.
  pose proof (alloc_extends _ _ _ _ E3) as X3.
  destruct (allocList_spec _ _ _ _ E4) as (X4 & F4 & _).
  destruct (allocList_stored _ _ _ _ E4) as (S4 & _).
  pose proof (alloc_extends _ _ _ _ E5) as X5.
  apply alloc_spec in E2 as [N2 E2]. apply alloc_spec in E3 as [N3 E3].
  apply alloc_spec in E5 as [N5 E5].
  assert (X13 : h1 ⊆ h3) by (etransitivity; eassumption).
  assert (X14 : h1 ⊆ h4) by (etransitivity; eassumption).
  assert (X15 : h1 ⊆ h5) by (etransitivity; eassumption).
  assert (Hstate : simulationState d3n d3l locs llocs links h5 seeds).
  { split; [|split; [|split]].
    - apply (lookup_weaken h2 h5);
        [rewrite E2; apply lookup_insert_eq | do 2 (etransitivity; [eassumption|]); exact X5].
    - exact (stored_weaken _ _ _ _ X15 S1).
    - rewrite E5. apply lookup_insert_eq.
    - exact (stored_weaken _ _ _ _ X5 S4). }
  assert (Hd3n : d3n ∉ locs).
  { intros Hin. destruct (U1 _ Hin) as [o Ho]. congruence. }
  assert (Hd3l : d3l ∉ locs).
  { intros Hin. destruct (U1 _ Hin) as [o Ho].
    pose proof (lookup_weaken _ _ _ _ Ho X14). congruence. }
  assert (Hdisj : forall l, l ∈ llocs -> l ∉ locs).
  { intros l Hl Hin. destruct (U1 _ Hin) as [o Ho].
    pose proof (lookup_weaken _ _ _ _ Ho X13). specialize (F4 _ Hl). congruence. }
  pose proof (simulateS_state E HE d3n d3l f llocs links locs h5 seeds
                Hnd Hd3n Hd3l Hdisj Hstate) as (Hn6 & Hs6 & _).
  set (h6 := state_of (simulateS (liftEngine E) d3n d3l f h5)) in *.
  change (state_of (simulate E seeds links f))
    with (settled E random grNodes grEdges grStages) in Hs6.
  unfold items. rewrite Hn6.
  rewrite (omap_stored OD3Node d3NodeAt d3NodeAt_stored h6 _ _ Hs6).
  set (final := settled E random grNodes grEdges grStages) in *.
  (* the points and the map *)
  destruct (allocList (map (fun d => OPoint (position d)) final) h6)
    as [plocs h7] eqn:E7.
  destruct (alloc (OMap (collectS final plocs)) h7) as [m h8] eqn:E8.
  destruct (alloc (OLayout m) h8) as [r h9] eqn:E9.
  destruct (allocList_spec _ _ _ _ E7) as (_ & _ & U7).
  destruct (allocList_stored _ _ _ _ E7) as (S7 & _).
  pose proof (alloc_extends _ _ _ _ E8) as X8.
  apply alloc_spec in E8 as [N8 E8]. apply alloc_spec in E9 as [N9 E9].
  cbn [fst snd]. exists m, (collectS final plocs).
  assert (Hrm : r <> m).
  { intros ->. rewrite E8, lookup_insert_eq in N9. discriminate. }
  split; [rewrite E9; apply lookup_insert_eq|].
  split; [rewrite E9, lookup_insert_ne, E8 by exact Hrm; apply lookup_insert_eq|].
  intros id. apply collectS_collect.
  unfold stored in S7. rewrite Forall2_fmap_r in S7.
  apply Forall2_flip. eapply Forall2_impl; [exact S7|].
  intros p d Hp. cbn beta in Hp. apply pointAt_stored.
  assert (is_Some (h7 !! p)) as Hused by (rewrite Hp; eauto).
  rewrite E9, lookup_insert_ne, E8, lookup_insert_ne; [exact Hp | |].
  - intros ->. rewrite N8 in Hused. destruct Hused; discriminate.
  - intros ->. pose proof (lookup_weaken _ _ _ _ Hp X8). congruence.
Qed.

End AgreementTheorem.

Example sampleStore_represents_sampleTrace :
  represents sampleStore sampleTraceRef sampleTrace.
Proof.
  repeat split; eexists; (split; [reflexivity | repeat constructor]).
Qed.

(** ** Rendering of the nodes *)

Ltac Qc_to_Q :=
  unfold Qcle, Qclt, Qcdiv, Qcminus, Qcplus, Qcmult, Qcopp, Qcinv in *;
  unfold Q2Qc in *; cbn [this] in *;
  repeat rewrite Qred_correct;
  repeat match goal with H : _ |- _ => rewrite Qred_correct in H end;
  cbn [Qopp Qinv Qnum Qden Z.opp inject_Z] in *.

Lemma layout_lookup_sound (E : D3Force) (random : nat -> num)
    (data : option ExplainTrace.t) (id : string) (p : Point3D.t) :
  LayoutResult.nodePositions (layout E random data) !! id = Some p ->
  exists d, p = position d.
Proof.
  intros H. unfold layout in H. destruct data as [data|]; simpl in H.
  - destruct (ExplainTrace.nodes data) as [[|n nodes]|]; simpl in H;
      try (rewrite lookup_empty in H; discriminate).
    destruct (collect_lookup_elem _ _ _ H) as (d & _ & _ & Hp).
    exists d. exact Hp.
  - rewrite lookup_empty in H. discriminate.
Qed.

Lemma layout_size_nonzero (E : D3Force) (HE : d3_contract E)
    (random : nat -> num) (data : ExplainTrace.t) (nodes : list Node.t) :
  ExplainTrace.nodes data = Some nodes -> nodes <> [] ->
  (size (LayoutResult.nodePositions (layout E random (Some data))) =? 0)%nat
  = false.
Proof.
  intros Hn Hne. apply Nat.eqb_neq. intros Hsz.
  apply map_size_empty_iff in Hsz.
  pose proof (layout_dom E HE random data) as Hdom.
  rewrite Hsz, Hn, dom_empty_L in Hdom.
  destruct nodes as [|n nodes]; [contradiction|].
  simpl in Hdom. set_solver.
Qed.

Lemma layout_lookup_node (E : D3Force) (HE : d3_contract E)
    (random : nat -> num) (data : ExplainTrace.t) (nodes : list Node.t)
    (n : Node.t) :
  ExplainTrace.nodes data = Some nodes -> n ∈ nodes ->
  exists d,
    LayoutResult.nodePositions (layout E random (Some data)) !! Node.id n
    = Some (position d).
Proof.
  intros Hn Hin.
  pose proof (layout_dom E HE random data) as Hdom. rewrite Hn in Hdom.
  assert (Hid : Node.id n ∈ dom (LayoutResult.nodePositions
                                   (layout E random (Some data)))).
  { rewrite Hdom. apply elem_of_list_to_set, list_elem_of_fmap.
    exists n. auto. }
  apply elem_of_dom in Hid as [p Hp].
  destruct (layout_lookup_sound _ _ _ _ _ Hp) as [d ->].
  exists d. exact Hp.
Qed.

(** X1. Every node of a non-empty graph is drawn: for the layout computed
    from the same trace, the callback of [data.nodes.map] never returns
    [null]; the sphere is at the node's layout position, which is finite
    with [x] and [y] inside [-50, 50]. *)
Theorem every_node_is_drawn
    (E : D3Force) (random : nat -> num) (data : ExplainTrace.t)
    (nodes : list Node.t) (animationProgress : num) (k : nat) (n : Node.t) :
  d3_contract E ->
  ExplainTrace.nodes data = Some nodes -> nodes !! k = Some n ->
  exists p,
    LayoutResult.nodePositions (layout E random (Some data)) !! Node.id n
    = Some p
    /\ renderedNodes (Some data) (layout E random (Some data))
         animationProgress !! k
       = Some (Some (Sphere.mk p (nodeScale animationProgress)
                       (safeRadius (Node.importance n))
                       (getNodeColor (typeName (Node.type n)))
                       (or_string (Node.label n) "Node")))
    /\ finite3 p = true
    /\ ((-50)%Z <=? Point3D.x p)%num = true
    /\ (Point3D.x p <=? 50%Z)%num = true
    /\ ((-50)%Z <=? Point3D.y p)%num = true
    /\ (Point3D.y p <=? 50%Z)%num = true.
Proof.
  intros HE Hn Hk.
  assert (Hin : n ∈ nodes) by (eapply list_elem_of_lookup_2; exact Hk).
  assert (Hne : nodes <> []) by (intros ->; inversion Hin).
  destruct (layout_lookup_node E HE random data nodes n Hn Hin) as [d Hp].
  destruct (position_sound d) as (F & B).
  exists (position d). split; [exact Hp|]. split; [|split; [exact F | exact B]].
  unfold renderedNodes.
  rewrite (layout_size_nonzero E HE random data nodes Hn Hne), Hn.
  rewrite list_lookup_fmap, Hk. cbn [fmap option_fmap option_map].
  unfold renderNode. rewrite Hp, F. reflexivity.
Qed.

Lemma every_node_is_drawn_witness :
  exists p,
    renderedNodes (Some sampleTrace)
      (layout explodingEngine risingRandom (Some sampleTrace)) (Num.of_Q (1 # 2))
      !! 1%nat
    = Some (Some (Sphere.mk p (nodeScale (Num.of_Q (1 # 2)))
                    (safeRadius 1%Z) (getNodeColor (typeName fact))
                    (or_string "B" "Node")))
    /\ finite3 p = true.
Proof.
  destruct (every_node_is_drawn explodingEngine risingRandom sampleTrace
              (default [] (ExplainTrace.nodes sampleTrace)) (Num.of_Q (1 # 2))
              1 (Node.mk "b" "B" fact 1%Z "s2")
              explodingEngine_contract eq_refl eq_refl)
    as (p & _ & H & F & _).
  exists p. split; [exact H | exact F].
Defined.

Section Radius.
Local Open Scope Qc_scope.

Lemma max_Fin (a b : Qc) :
  Num.max (Fin a) (Fin b) = Fin (if Num.Qc_ltb a b then b else a).
Proof. cbn. destruct (Num.Qc_ltb a b); reflexivity. Qed.

(** X2. The radius of a sphere is finite and at least 0.1 whatever the
    node's [importance] is; it is [0.25 + 0.1 * importance] for an
    importance of [0, 1], and 0.3 when the importance is not finite. *)
Theorem sphere_radius_bounds (importance : num) :
  exists r : Qc,
    safeRadius importance = Fin r
    /\ Q2Qc (1 # 10) <= r
    /\ (forall q, importance = Fin q -> 0 <= q -> q <= 1 ->
        r = Q2Qc (1 # 4) + q * Q2Qc (1 # 10) /\ r <= Q2Qc (35 # 100))
    /\ (Num.isFinite importance = false -> r = Q2Qc (3 # 10)).
Proof.
  destruct importance as [| | |q];
    try (exists (Q2Qc (3 # 10)); split; [by_evaluation|];
         split; [by_evaluation|]; split; [discriminate | reflexivity]).
  unfold safeRadius. cbn [Num.isFinite].
  change (Num.of_Q (1 # 4) + Fin q * Num.of_Q (1 # 10))%num
    with (Fin (Q2Qc (1 # 4) + q * Q2Qc (1 # 10))).
  unfold Num.of_Q. rewrite max_Fin.
  eexists. split; [reflexivity|].
  destruct (Num.Qc_ltb _ _) eqn:Hlt.
  - apply Qc_ltb_lt in Hlt. split; [apply Qclt_le_weak, Hlt|].
    split; [|discriminate].
    intros q' [= <-] H0 H1. split; [reflexivity|].
    clear Hlt. Qc_to_Q. generalize dependent (this q). intros x H0 H1. lra.
  - apply Qc_ltb_ge in Hlt. split; [apply Qcle_refl|].
    split; [|discriminate].
    intros q' Hq H0 H1. apply Fin_inj in Hq. subst q'. exfalso.
    Qc_to_Q. generalize dependent (this q). intros x Hlt H0 H1. lra.
Qed.

Lemma sphere_radius_bounds_witness :
  safeRadius (Num.of_Q (1 # 2)) = Num.of_Q (3 # 10).
Proof.
  destruct (sphere_radius_bounds (Num.of_Q (1 # 2))) as (r & Hr & _ & H & _).
  rewrite Hr. f_equal.
  destruct (H (Q2Qc (1 # 2)) eq_refl) as [-> _]; by_evaluation.
Defined.

End Radius.

(** ** Rendering of the edges *)

Section EdgeFacts.
Local Open Scope Qc_scope.

Lemma distance3D_sq_Fin (a b c a' b' c' : Qc) :
  distance3D_sq (Point3D.mk (Fin a) (Fin b) (Fin c))
                (Point3D.mk (Fin a') (Fin b') (Fin c'))
  = Fin ((a' - a) * (a' - a) + (b' - b) * (b' - b) + (c' - c) * (c' - c)).
Proof. reflexivity. Qed.

Lemma finite3_Fin (p : Point3D.t) :
  finite3 p = true ->
  exists a b c, p = Point3D.mk (Fin a) (Fin b) (Fin c).
Proof.
  destruct p as [x y z]. unfold finite3. cbn [Point3D.x Point3D.y Point3D.z].
  intros H. apply andb_true_iff in H as [H Hz].
  apply andb_true_iff in H as [Hx Hy].
  apply isFinite_Fin in Hx as [a ->]. apply isFinite_Fin in Hy as [b ->].
  apply isFinite_Fin in Hz as [c ->]. eauto.
Qed.

Lemma distance3D_self (p : Point3D.t) :
  finite3 p = true -> distance3D_ltb p p (Num.of_Q (1 # 100)) = true.
Proof.
  intros (a & b & c & ->)%finite3_Fin.
  unfold distance3D_ltb. rewrite distance3D_sq_Fin.
  replace ((a - a) * (a - a) + (b - b) * (b - b) + (c - c) * (c - c)) with 0
    by ring.
  by_evaluation.
Qed.

End EdgeFacts.

(** X3. An edge from a node to itself is never drawn, whatever the layout
    holds: its two ends are the same point, closer than 0.01. *)
Theorem self_loop_never_drawn (layout : LayoutResult.t) (edge : Edge.t) :
  Edge.source edge = Edge.target edge -> drawsEdge layout edge = false.
Proof.
  intros Heq. unfold drawsEdge. rewrite Heq.
  destruct (LayoutResult.nodePositions layout !! Edge.target edge) as [p|];
    [|reflexivity].
  destruct (finite3 p) eqn:F; [|reflexivity].
  rewrite (distance3D_self p F). reflexivity.
Qed.

Lemma self_loop_never_drawn_witness :
  renderedEdges
    (Some (ExplainTrace.mk None (Some twoNodes)
             (Some [Edge.mk "a" "a" "restates" 1%Z]) [] [] low ""))
    (layout stillEngine risingRandom
       (Some (ExplainTrace.mk None (Some twoNodes)
                (Some [Edge.mk "a" "a" "restates" 1%Z]) [] [] low "")))
  = [].
Proof.
  unfold renderedEdges. destruct (_ =? _)%nat; [reflexivity|].
  cbn [ExplainTrace.edges]. rewrite filter_cons, decide_False; [reflexivity|].
  rewrite (self_loop_never_drawn _ (Edge.mk "a" "a" "restates" 1%Z) eq_refl).
  discriminate.
Defined.

(** X4. For the layout computed from the same trace, the finiteness guards
    of the edge callback never fire: an edge is drawn exactly when both
    its ends are ids of nodes and the two positions are not closer than
    0.01. *)
Theorem edge_drawn_iff
    (E : D3Force) (random : nat -> num) (data : ExplainTrace.t)
    (nodes : list Node.t) (edge : Edge.t) :
  d3_contract E ->
  ExplainTrace.nodes data = Some nodes ->
  drawsEdge (layout E random (Some data)) edge = true
  <-> exists start end_,
        Edge.source edge ∈ map Node.id nodes
        /\ Edge.target edge ∈ map Node.id nodes
        /\ LayoutResult.nodePositions (layout E random (Some data))
             !! Edge.source edge = Some start
        /\ LayoutResult.nodePositions (layout E random (Some data))
             !! Edge.target edge = Some end_
        /\ distance3D_ltb start end_ (Num.of_Q (1 # 100)) = false.
Proof.
  intros HE Hn.
  pose proof (layout_dom E HE random data) as Hdom. rewrite Hn in Hdom.
  change (default [] (Some nodes)) with nodes in Hdom.
  assert (Hkey : forall id p,
             LayoutResult.nodePositions (layout E random (Some data)) !! id
             = Some p -> id ∈ map Node.id nodes /\ finite3 p = true).
  { intros id p Hp. split.
    - assert (Hin : id ∈ dom (LayoutResult.nodePositions
                                (layout E random (Some data))))
        by (apply elem_of_dom; eauto).
      rewrite Hdom in Hin. apply elem_of_list_to_set in Hin. exact Hin.
    - destruct (layout_lookup_sound _ _ _ _ _ Hp) as [d ->].
      apply position_sound. }
  unfold drawsEdge. split.
  - destruct (_ !! Edge.source edge) as [start|] eqn:Hs; [|discriminate].
    destruct (_ !! Edge.target edge) as [end_|] eqn:Ht; [|discriminate].
    intros H. apply andb_true_iff in H as [_ H]. apply negb_true_iff in H.
    exists start, end_.
    destruct (Hkey _ _ Hs) as [? _]. destruct (Hkey _ _ Ht) as [? _]. auto.
  - intros (start & end_ & _ & _ & Hs & Ht & Hd). rewrite Hs, Ht, Hd.
    destruct (Hkey _ _ Hs) as [_ ->]. destruct (Hkey _ _ Ht) as [_ ->].
    reflexivity.
Qed.

Lemma edge_drawn_iff_witness :
  drawsEdge (layout stillEngine risingRandom (Some sampleTrace))
    (Edge.mk "a" "b" "supports" 1%Z) = true.
Proof.
  apply (edge_drawn_iff stillEngine risingRandom sampleTrace
           (default [] (ExplainTrace.nodes sampleTrace))
           (Edge.mk "a" "b" "supports" 1%Z) stillEngine_contract eq_refl).
  exists (Point3D.mk (Num.of_Q (-5 # 2)) (Num.of_Q (-15 # 8))
            (Num.of_Q (9 # 25))),
         (Point3D.mk (Num.of_Q (-15 # 4)) (Num.of_Q (-25 # 8))
            (Num.of_Q (-39 # 200))).
  repeat split; by_evaluation.
Defined.

(** ** Stage labels *)

Section StageLabels.
Local Open Scope Qc_scope.

Lemma QcZ_succ (n : nat) : QcZ (Z.of_nat (S n)) = QcZ (Z.of_nat n) + 1.
Proof.
  unfold QcZ. apply Qc_is_canon. Qc_to_Q.
  rewrite Nat2Z.inj_succ. unfold Z.succ. rewrite inject_Z_plus. reflexivity.
Qed.

Lemma leb_Fin (a b : Qc) : (Fin a <=? Fin b)%num = true <-> a <= b.
Proof.
  cbn [Num.leb]. rewrite negb_true_iff. apply Qc_ltb_ge.
Qed.

(** A position of the layout has a rational [x] of [-50, 50]. *)
Lemma position_x_range (d : D3Node.t) :
  exists q, Point3D.x (position d) = Fin q /\ QcZ (-50) <= q /\ q <= QcZ 50.
Proof.
  destruct (position_sound d) as (F & L & U & _).
  apply finite3_Fin in F as (a & b & c & Hp). rewrite Hp in *.
  cbn [Point3D.x] in *. exists a.
  split; [reflexivity|]. split; apply leb_Fin; assumption.
Qed.

Lemma sumPositions_from (L : LayoutResult.t) (l : list Node.t)
    (s0 : Qc) (c0 : nat) :
  (forall n, n ∈ l ->
     exists d, LayoutResult.nodePositions L !! Node.id n = Some (position d)) ->
  exists s,
    foldl (fun (acc : num * nat) n =>
             match LayoutResult.nodePositions L !! Node.id n with
             | Some p => ((acc.1 + Point3D.x p)%num, S acc.2)
             | None => acc
             end) (Fin s0, c0) l
    = (Fin s, (c0 + length l)%nat)
    /\ s0 - QcZ 50 * QcZ (Z.of_nat (length l)) <= s
    /\ s <= s0 + QcZ 50 * QcZ (Z.of_nat (length l)).
Proof.
  revert s0 c0. induction l as [|n l IH]; intros s0 c0 Hl.
  - exists s0. cbn [foldl length]. rewrite Nat.add_0_r.
    split; [reflexivity|].
    change (QcZ (Z.of_nat 0)) with 0.
    replace (s0 - QcZ 50 * 0) with s0 by ring.
    replace (s0 + QcZ 50 * 0) with s0 by ring.
    split; apply Qcle_refl.
  - destruct (Hl n ltac:(left)) as [d Hd].
    destruct (position_x_range d) as (q & Hq & Lq & Uq).
    cbn [foldl]. rewrite Hd, Hq. cbn [fst snd Num.add].
    destruct (IH (s0 + q) (S c0)) as (s & Hs & Ls & Us).
    { intros m Hm. apply Hl. right. exact Hm. }
    exists s. cbn [length]. rewrite Hs, QcZ_succ.
    split; [f_equal; lia|].
    revert Lq Uq Ls Us. unfold QcZ.
    generalize (Q2Qc (inject_Z (Z.of_nat (length l)))). intros c.
    Qc_to_Q.
    generalize (this q) (this s) (this s0) (this c). intros.
    unfold inject_Z in *. split; lra.
Qed.

Lemma mean_range (s : Qc) (c : nat) :
  (0 < c)%nat ->
  - (QcZ 50 * QcZ (Z.of_nat c)) <= s -> s <= QcZ 50 * QcZ (Z.of_nat c) ->
  (Fin s / Num.of_nat c)%num = Fin (s / QcZ (Z.of_nat c))
  /\ QcZ (-50) <= s / QcZ (Z.of_nat c) /\ s / QcZ (Z.of_nat c) <= QcZ 50.
Proof.
  intros Hc Ls Us.
  pose proof (of_nat_truthy c Hc) as Ht.
  unfold Num.of_nat, Num.of_Z, Num.of_Q in *. cbn [Num.truthy] in Ht.
  apply negb_true_iff in Ht. cbn [Num.div]. rewrite Ht.
  split; [reflexivity|].
  assert (Hpos : 0 < QcZ (Z.of_nat c)).
  { unfold QcZ. Qc_to_Q. unfold Qlt; simpl. lia. }
  revert Ls Us Hpos. generalize (QcZ (Z.of_nat c)). intros k Ls Us Hpos.
  assert (Hk : k <> 0) by (intros ->; apply (Qclt_not_eq _ _ Hpos); reflexivity).
  assert (Hs : s = (s / k) * k) by (field; exact Hk).
  revert Hs. generalize (s / k). intros m Hs. rewrite Hs in Ls, Us.
  clear Hs Hk. unfold QcZ in *. Qc_to_Q.
  revert Ls Us Hpos. generalize (this m) (this k). intros x y Ls Us Hpos.
  unfold inject_Z in *. split; nra.
Qed.

End StageLabels.

(** X5. For the layout computed from the same trace of a non-empty graph,
    the stage labels are built without an exception, and a label is drawn
    exactly for the stages that have a node: a stage without nodes gets
    none, and a stage with nodes gets its label at a finite [x] of
    [-50, 50], the mean of the nodes' layout [x]; the finiteness guard on
    the mean never fires. *)
Theorem stage_label_drawn_iff
    (E : D3Force) (random : nat -> num) (data : ExplainTrace.t)
    (nodes : list Node.t) (animationProgress : num) (j : nat)
    (stage : Stage.t) :
  d3_contract E ->
  ExplainTrace.nodes data = Some nodes -> nodes <> [] ->
  default [] (ExplainTrace.stages data) !! j = Some stage ->
  exists labels,
    renderedLabels (Some data) (layout E random (Some data)) animationProgress
    = Some labels
    /\ length labels = length (default [] (ExplainTrace.stages data))
    /\ ((forall n, n ∈ nodes -> Node.stage_id n <> Stage.id stage) ->
        labels !! j = Some None)
    /\ ((exists n, n ∈ nodes /\ Node.stage_id n = Stage.id stage) ->
        exists x : Qc,
          labels !! j
          = Some (Some (StageLabel.mk (Fin x)
                          (or_string (Stage.label stage) "Stage")
                          (nodeScale animationProgress)))
          /\ (QcZ (-50) <= x)%Qc /\ (x <= QcZ 50)%Qc
          /\ (sumPositions (layout E random (Some data))
                (filter (fun n => Node.stage_id n = Stage.id stage) nodes)).2
             = length (filter (fun n => Node.stage_id n = Stage.id stage)
                         nodes)
          /\ Fin x
             = ((sumPositions (layout E random (Some data))
                   (filter (fun n => Node.stage_id n = Stage.id stage)
                      nodes)).1
                / Num.of_nat
                    (length (filter (fun n => Node.stage_id n = Stage.id stage)
                               nodes)))%num).
Proof.
  intros HE Hn Hne Hj.
  exists (map (renderStageLabel (layout E random (Some data))
                 animationProgress nodes)
            (default [] (ExplainTrace.stages data))).
  split.
  { unfold renderedLabels.
    rewrite (layout_size_nonzero E HE random data nodes Hn Hne), Hn.
    destruct (default [] (ExplainTrace.stages data)); reflexivity. }
  split; [apply length_map|].
  rewrite list_lookup_fmap, Hj. cbn [fmap option_fmap option_map].
  unfold renderStageLabel. split.
  - intros Hnone.
    rewrite (filter_none (fun n => Node.stage_id n = Stage.id stage) nodes Hnone).
    reflexivity.
  - intros (n & Hin & Hst).
    set (nodesInStage := filter (fun n => Node.stage_id n = Stage.id stage) nodes).
    assert (Hmem : n ∈ nodesInStage)
      by (apply list_elem_of_filter; split; assumption).
    assert (Hlen : (0 < length nodesInStage)%nat).
    { destruct nodesInStage; [inversion Hmem | simpl; lia]. }
    destruct (sumPositions_from (layout E random (Some data)) nodesInStage
                (Q2Qc 0) 0) as (s & Hs & Ls & Us).
    { intros m [_ Hm]%list_elem_of_filter.
      exact (layout_lookup_node E HE random data nodes m Hn Hm). }
    change (Fin (Q2Qc 0)) with (Num.of_Z 0) in Hs. cbn [Nat.add] in Hs.
    destruct (mean_range s (length nodesInStage) Hlen) as (Hdiv & Lx & Ux).
    { replace (- (QcZ 50 * QcZ (Z.of_nat (length nodesInStage))))%Qc
        with (Q2Qc 0 - QcZ 50 * QcZ (Z.of_nat (length nodesInStage)))%Qc
        by ring.
      exact Ls. }
    { replace (QcZ 50 * QcZ (Z.of_nat (length nodesInStage)))%Qc
        with (Q2Qc 0 + QcZ 50 * QcZ (Z.of_nat (length nodesInStage)))%Qc
        by ring.
      exact Us. }
    exists (s / QcZ (Z.of_nat (length nodesInStage)))%Qc.
    unfold sumPositions. rewrite Hs. cbn [fst snd].
    destruct (length nodesInStage =? 0)%nat eqn:Hz;
      [apply Nat.eqb_eq in Hz; lia|].
    destruct (0 <? length nodesInStage)%nat eqn:Hp;
      [|apply Nat.ltb_ge in Hp; lia].
    rewrite Hdiv. cbn [Num.isFinite negb]. auto.
Qed.

Lemma stage_label_drawn_iff_witness :
  renderedLabels (Some sampleTrace)
    (layout stillEngine risingRandom (Some sampleTrace)) (Num.of_Z 1)
  ≫= (fun labels => labels !! 1%nat)
  = Some (Some (StageLabel.mk (Num.of_Q (-25 # 8)) "Answer" (Num.of_Z 1))).
Proof.
  destruct (stage_label_drawn_iff stillEngine risingRandom sampleTrace
              (default [] (ExplainTrace.nodes sampleTrace)) (Num.of_Z 1) 1
              (Stage.mk "s2" "Answer" "" 1%Z) stillEngine_contract eq_refl
              ltac:(discriminate) eq_refl) as (labels & -> & _ & _ & H).
  destruct H as (x & Hl & _ & _ & _ & Hx).
  - exists (Node.mk "b" "B" fact 1%Z "s2"). split; [|reflexivity].
    right; left.
  - cbn [mbind option_bind]. rewrite Hl, Hx. vm_compute. reflexivity.
Defined.

(** ** The progress of the animation and what is drawn from it *)

Section Progress.
Local Open Scope Qc_scope.

Lemma cap_le_one (r : Qc) : cap r <= 1.
Proof.
  unfold cap. destruct (Num.Qc_ltb 1 r) eqn:H.
  - apply Qcle_refl.
  - apply Qc_ltb_ge, H.
Qed.

Lemma cap_nonneg (r : Qc) : 0 <= r -> 0 <= cap r.
Proof.
  intros H. unfold cap. destruct (Num.Qc_ltb 1 r); [|exact H].
  unfold Qcle, Qle; simpl; lia.
Qed.

Lemma raw_nonneg (s now : Qc) : s <= now -> 0 <= raw s now.
Proof. intros H. rewrite <- (raw_start s). apply raw_mono, H. Qed.

Lemma ease_le_one (t : Qc) : t <= 1 -> ease t <= 1.
Proof. intros H. rewrite <- ease_one. apply ease_mono, H. Qed.

Lemma ease_nonneg (t : Qc) : 0 <= t -> 0 <= ease t.
Proof. intros H. rewrite <- ease_zero. apply ease_mono, H. Qed.

(** One frame callback on a state whose [start] is a finite number or
    unset. *)
Lemma animate_Fin (st : Animation.t) (t : Qc) :
  (Animation.start st = None
   \/ exists s, Animation.start st = Some (Fin s)) ->
  exists s',
    animate st (Fin t)
    = Animation.mk (Some (Fin s')) (Fin (ease (cap (raw s' t))))
        (Num.Qc_ltb (raw s' t) 1)
    /\ (s' = t \/ Animation.start st = Some (Fin s')).
Proof.
  intros Hst. unfold animate.
  assert (Hs : exists s',
             match Animation.start st with
             | Some v => if Num.truthy v then v else Fin t
             | None => Fin t
             end = Fin s'
             /\ (s' = t \/ Animation.start st = Some (Fin s'))).
  { destruct Hst as [-> | [s ->]]; [exists t; auto|].
    destruct (Num.truthy (Fin s)); [exists s | exists t]; auto. }
  destruct Hs as (s' & -> & Hs'). exists s'. split; [|exact Hs'].
  rewrite ratio_Fin, min_one_Fin, easeCubicOut_Fin. f_equal.
  cbn [Num.ltb Num.of_Z Num.of_Q]. apply cap_lt_one.
Qed.

Lemma playback_snoc (ts : list num) (t : num) :
  playback (ts ++ [t]) = frame (playback ts) t.
Proof. unfold playback. apply foldl_snoc. Qed.

(** Whatever the finite timestamps are, the progress is a rational of at
    most 1. *)
Lemma playback_at_most_one (ts : list Qc) :
  (Animation.start (playback (map Fin ts)) = None
   \/ exists s, Animation.start (playback (map Fin ts)) = Some (Fin s))
  /\ exists q, Animation.animationProgress (playback (map Fin ts)) = Fin q
               /\ q <= 1.
Proof.
  induction ts as [|t ts IH] using rev_ind.
  - split; [left; reflexivity|]. exists 0. split; [reflexivity|].
    unfold Qcle, Qle; simpl; lia.
  - rewrite map_app. change (map Fin [t]) with [Fin t].
    rewrite playback_snoc. unfold frame.
    destruct (Animation.pending _); [|exact IH].
    destruct IH as [Hst _].
    destruct (animate_Fin _ t Hst) as (s' & -> & _).
    split; [right; eauto|]. eexists. split; [reflexivity|].
    apply ease_le_one, cap_le_one.
Qed.

End Progress.

(** X6. In a run whose frame timestamps never go back in time, the emitted
    progress is always a number of [0, 1], also when the first frame has
    timestamp 0. *)
Theorem progress_in_unit_interval (t0 : Qc) (ts : list Qc) :
  ascending t0 ts ->
  exists q : Qc,
    Animation.animationProgress (playback (map Fin (t0 :: ts))) = Fin q
    /\ (0 <= q)%Qc /\ (q <= 1)%Qc.
Proof.
  intros Hasc.
  assert (Inv : exists s q,
             Animation.start (playback (map Fin (t0 :: ts))) = Some (Fin s)
             /\ (s <= List.last ts t0)%Qc
             /\ Animation.animationProgress (playback (map Fin (t0 :: ts)))
                = Fin q
             /\ (0 <= q)%Qc /\ (q <= 1)%Qc).
  { induction ts as [|t ts IH] using rev_ind.
    - unfold playback. cbn [map foldl]. unfold frame.
      cbn [startAnimation Animation.pending].
      destruct (animate_Fin startAnimation t0 ltac:(left; reflexivity))
        as (s' & -> & [-> | Hs]); [|discriminate].
      exists t0. eexists. split; [reflexivity|].
      split; [apply Qcle_refl|]. split; [reflexivity|].
      split; [apply ease_nonneg, cap_nonneg, raw_nonneg, Qcle_refl
             | apply ease_le_one, cap_le_one].
    - apply ascending_snoc in Hasc as [Hasc Hle].
      destruct (IH Hasc) as (s & q & Hs & Hsl & Hq & H0 & H1).
      rewrite app_comm_cons, map_app. change (map Fin [t]) with [Fin t].
      rewrite playback_snoc, last_snoc_default. unfold frame.
      assert (Hst : (s <= t)%Qc) by (eapply Qcle_trans; eassumption).
      destruct (Animation.pending _).
      + destruct (animate_Fin (playback (map Fin (t0 :: ts))) t
                    ltac:(right; eauto)) as (s' & -> & Hs').
        assert (Hs't : (s' <= t)%Qc).
        { destruct Hs' as [-> | Hs']; [apply Qcle_refl|].
          rewrite Hs in Hs'. injection Hs' as Hs'. subst s'. exact Hst. }
        exists s'. eexists. split; [reflexivity|].
        split; [exact Hs't|]. split; [reflexivity|].
        split; [apply ease_nonneg, cap_nonneg, raw_nonneg, Hs't
               | apply ease_le_one, cap_le_one].
      + exists s, q. auto. }
  destruct Inv as (s & q & _ & _ & Hq & H0 & H1). exists q. auto.
Qed.

Lemma progress_in_unit_interval_witness :
  exists q : Qc,
    Animation.animationProgress
      (playback [Fin 0%Qc; Fin (Q2Qc (inject_Z 1500));
                 Fin (Q2Qc (inject_Z 2250))]) = Fin q
    /\ (0 <= q)%Qc /\ (q <= 1)%Qc.
Proof.
  apply (progress_in_unit_interval 0%Qc
           [Q2Qc (inject_Z 1500); Q2Qc (inject_Z 2250)]).
  repeat split; unfold Qcle, Qle; simpl; lia.
Defined.

(** X7. Whatever finite timestamps the frames have, in any order, what is
    drawn from the progress stays in range: the scale of a node and the
    fill opacity of a label in [0.01, 1], the opacity of a line in
    [0.1, 0.5] and its width in [0.1, 1]. *)
Theorem drawing_parameters_bounded (ts : list Qc) :
  exists scale opacity width : Qc,
    nodeScale (Animation.animationProgress (playback (map Fin ts)))
    = Fin scale
    /\ lineOpacity (Animation.animationProgress (playback (map Fin ts)))
       = Fin opacity
    /\ lineWidth (Animation.animationProgress (playback (map Fin ts)))
       = Fin width
    /\ (Q2Qc (1 # 100) <= scale)%Qc /\ (scale <= 1)%Qc
    /\ (Q2Qc (1 # 10) <= opacity)%Qc /\ (opacity <= Q2Qc (1 # 2))%Qc
    /\ (Q2Qc (1 # 10) <= width)%Qc /\ (width <= 1)%Qc.
Proof.
  destruct (playback_at_most_one ts) as (_ & q & -> & Hq).
  unfold nodeScale, lineOpacity, lineWidth, Num.of_Z, Num.of_Q.
  cbn [Num.mul]. rewrite !max_Fin.
  do 3 eexists. do 3 (split; [reflexivity|]).
  repeat match goal with
         | |- context [Num.Qc_ltb ?a ?b] =>
             let H := fresh "H" in
             destruct (Num.Qc_ltb a b) eqn:H;
             [apply Qc_ltb_lt in H | apply Qc_ltb_ge in H]
         end;
    repeat split;
    try (apply Qclt_le_weak; assumption); try apply Qcle_refl;
    try (unfold Qcle, Qle; simpl; lia);
    Qc_to_Q; unfold inject_Z in *;
    revert Hq; generalize (this q); intros x Hq; lra.
Qed.

(** ** Colours *)

(** X8. The six node types have six different colours, none of them the
    fallback colour, which every other type string gets. *)
Theorem node_colours_distinct :
  (forall a b : NodeType,
     getNodeColor (typeName a) = getNodeColor (typeName b) -> a = b)
  /\ (forall a : NodeType, getNodeColor (typeName a) <> slate)
  /\ (forall type : string,
        (forall a : NodeType, type <> typeName a) -> getNodeColor type = slate).
Proof.
  split; [|split].
  - intros [] []; cbn; intros H; try reflexivity; discriminate H.
  - intros []; cbn; discriminate.
  - intros type Hother. unfold getNodeColor.
    pose proof (Hother intent) as H1. pose proof (Hother fact) as H2.
    pose proof (Hother intermediate) as H3.
    pose proof (Hother conclusion) as H4.
    pose proof (Hother constraint) as H5. pose proof (Hother context) as H6.
    cbn [typeName] in *.
    apply String.eqb_neq in H1, H2, H3, H4, H5, H6.
    rewrite H1, H2, H3, H4, H5, H6.
    reflexivity.
Qed.

Lemma node_colours_distinct_witness :
  getNodeColor "Fact" = slate /\ getNodeColor "fact" <> slate.
Proof.
  destruct node_colours_distinct as (_ & Hnot & Hother). split.
  - apply Hother. intros []; discriminate.
  - exact (Hnot fact).
Defined.

(** ** Particles *)

Section Particles.
Local Open Scope Qc_scope.

(** [(r - 0.5) * w] for a draw [r] and a width [w > 0]. *)
Lemma centred_range (r : num) (w lo hi : Q) :
  unitInterval r -> (0 < w)%Q -> (lo == - ((1 # 2) * w))%Q -> (hi == (1 # 2) * w)%Q ->
  exists v, ((r - Num.of_Q (1 # 2)) * Num.of_Q w)%num = Fin v
            /\ Q2Qc lo <= v /\ v < Q2Qc hi.
Proof.
  intros (q & -> & H0 & H1) Hw Hlo Hhi.
  eexists. split; [reflexivity|].
  Qc_to_Q. rewrite Hlo, Hhi.
  revert H0 H1. generalize (this q). intros x H0 H1.
  change (this 0) with 0%Q in H0. change (this 1) with 1%Q in H1.
  assert (Ha : (0 <= x * w)%Q) by (apply Qmult_le_0_compat; lra).
  assert (Hb : (x * w < 1 * w)%Q) by (apply Qmult_lt_compat_r; lra).
  split; lra.
Qed.

(** [base + r * w] for a draw [r] and a width [w > 0]. *)
Lemma scaled_range (r : num) (base w hi : Q) :
  unitInterval r -> (0 < w)%Q -> (hi == base + w)%Q ->
  exists v, (Num.of_Q base + r * Num.of_Q w)%num = Fin v
            /\ Q2Qc base <= v /\ v < Q2Qc hi.
Proof.
  intros (q & -> & H0 & H1) Hw Hhi.
  eexists. split; [reflexivity|].
  Qc_to_Q. rewrite Hhi.
  revert H0 H1. generalize (this q). intros x H0 H1.
  change (this 0) with 0%Q in H0. change (this 1) with 1%Q in H1.
  assert (Ha : (0 <= x * w)%Q) by (apply Qmult_le_0_compat; lra).
  assert (Hb : (x * w < 1 * w)%Q) by (apply Qmult_lt_compat_r; lra).
  split; lra.
Qed.

Lemma offset_range (r : num) :
  unitInterval r ->
  exists v, (r * 100%Z)%num = Fin v /\ 0 <= v /\ v < QcZ 100.
Proof.
  intros (q & -> & H0 & H1).
  eexists. split; [reflexivity|].
  unfold QcZ. Qc_to_Q.
  revert H0 H1. generalize (this q). intros x H0 H1.
  change (this 0) with 0%Q in *. change (this 1) with 1%Q in H1.
  unfold inject_Z. split; lra.
Qed.

(** The index [Math.floor(r * 3)] is 0, 1 or 2. *)
Lemma floor_three (r : num) :
  unitInterval r ->
  Math_floor (r * 3%Z)%num = Num.of_Z 0
  \/ Math_floor (r * 3%Z)%num = Num.of_Z 1
  \/ Math_floor (r * 3%Z)%num = Num.of_Z 2.
Proof.
  intros (q & -> & H0 & H1).
  change (Fin q * 3%Z)%num with (Fin (q * Q2Qc (inject_Z 3))).
  cbn [Math_floor].
  assert (Hq : (0 <= this (q * Q2Qc (inject_Z 3)))%Q
               /\ (this (q * Q2Qc (inject_Z 3)) < inject_Z 3)%Q).
  { Qc_to_Q. revert H0 H1. generalize (this q). intros x H0 H1.
    change (this 0) with 0%Q in *. change (this 1) with 1%Q in H1.
    unfold inject_Z. split; lra. }
  destruct Hq as [Hlo Hhi].
  destruct (this (q * Q2Qc (inject_Z 3))) as [n d].
  unfold Qle, Qlt in Hlo, Hhi. cbn [Qnum Qden inject_Z] in *.
  assert (Hf : (0 <= n / Z.pos d < 3)%Z).
  { split; [apply Z.div_pos; lia | apply Z.div_lt_upper_bound; lia]. }
  assert (Hc : (n / Z.pos d = 0 \/ n / Z.pos d = 1 \/ n / Z.pos d = 2)%Z)
    by lia.
  destruct Hc as [-> | [-> | ->]]; [left | right; left | right; right];
    reflexivity.
Qed.

Lemma thinkingColor_palette (r : num) :
  unitInterval r ->
  thinkingColor r ∈ [getNodeColor "intent"; getNodeColor "fact";
                     getNodeColor "context"].
Proof.
  intros Hr. unfold thinkingColor.
  destruct (floor_three r Hr) as [-> | [-> | ->]];
    [left | right; left | right; right; left].
Qed.

Lemma idleParticlesFrom_length (random : nat -> num) (count c : nat) :
  length (idleParticlesFrom random c count) = count.
Proof.
  revert c. induction count as [|count IH]; intros c; [reflexivity|].
  cbn [idleParticlesFrom length]. now rewrite IH.
Qed.

Lemma thinkingParticlesFrom_length (random : nat -> num) (count c : nat) :
  length (thinkingParticlesFrom random c count) = count.
Proof.
  revert c. induction count as [|count IH]; intros c; [reflexivity|].
  cbn [thinkingParticlesFrom length]. now rewrite IH.
Qed.

End Particles.

(** X9. With every draw of [Math.random] in [0, 1), the 40 idle particles
    lie in the box [-5, 5) x [-2.5, 2.5) x [-2.5, 2.5), with a phase
    offset of [0, 100) and a scale of [0.05, 0.15). *)
Theorem idle_particles_in_range (random : nat -> num) :
  (forall k, unitInterval (random k)) ->
  length (idleParticles random) = 40%nat
  /\ forall p, p ∈ idleParticles random ->
       exists x y z offset scale : Qc,
         p = IdleParticle.mk (Fin x) (Fin y) (Fin z) (Fin offset) (Fin scale)
               "#cbd5e1"
         /\ (QcZ (-5) <= x)%Qc /\ (x < QcZ 5)%Qc
         /\ (Q2Qc (-5 # 2) <= y)%Qc /\ (y < Q2Qc (5 # 2))%Qc
         /\ (Q2Qc (-5 # 2) <= z)%Qc /\ (z < Q2Qc (5 # 2))%Qc
         /\ (0 <= offset)%Qc /\ (offset < QcZ 100)%Qc
         /\ (Q2Qc (5 # 100) <= scale)%Qc /\ (scale < Q2Qc (15 # 100))%Qc.
Proof.
  intros Hr. split; [apply idleParticlesFrom_length|].
  unfold idleParticles. generalize 40%nat. intros count.
  generalize 0%nat. intros c. revert c.
  induction count as [|count IH]; intros c p Hp; [inversion Hp|].
  cbn [idleParticlesFrom] in Hp. apply elem_of_cons in Hp as [-> | Hp];
    [|exact (IH _ _ Hp)].
  destruct (centred_range (random c) (inject_Z 10) (inject_Z (-5)) (inject_Z 5)
              (Hr _)) as (x & Hx & Lx & Ux); [reflexivity..|].
  destruct (centred_range (random (1 + c)%nat) (inject_Z 5) (-5 # 2) (5 # 2)
              (Hr _)) as (y & Hy & Ly & Uy); [reflexivity..|].
  destruct (centred_range (random (2 + c)%nat) (inject_Z 5) (-5 # 2) (5 # 2)
              (Hr _)) as (z & Hz & Lz & Uz); [reflexivity..|].
  destruct (offset_range (random (3 + c)%nat) (Hr _)) as (o & Ho & Lo & Uo).
  destruct (scaled_range (random (4 + c)%nat) (5 # 100) (1 # 10) (15 # 100)
              (Hr _)) as (s & Hs & Ls & Us); [reflexivity..|].
  exists x, y, z, o, s.
  change (Num.of_Z 10) with (Num.of_Q (inject_Z 10)).
  change (Num.of_Z 5) with (Num.of_Q (inject_Z 5)).
  rewrite Hx, Hy, Hz, Ho, Hs. unfold QcZ. auto 20.
Qed.

Lemma idle_particles_in_range_witness :
  length (idleParticles risingRandom) = 40%nat.
Proof.
  apply (idle_particles_in_range risingRandom).
  exact risingRandom_unitInterval.
Defined.

(** X10. With every draw of [Math.random] in [0, 1), the 50 thinking
    particles lie in the box [-7.5, 7.5) x [-3, 3) x [-3, 3) with a phase
    offset of [0, 100), and each has the colour of an intent, a fact or a
    context node: the index [Math.floor(Math.random() * 3)] never leaves
    the array of the three types. *)
Theorem thinking_particles_in_range (random : nat -> num) :
  (forall k, unitInterval (random k)) ->
  length (thinkingParticles random) = 50%nat
  /\ forall p, p ∈ thinkingParticles random ->
       (exists x y z offset : Qc,
          ThinkingParticle.x p = Fin x /\ ThinkingParticle.y p = Fin y
          /\ ThinkingParticle.z p = Fin z
          /\ ThinkingParticle.offset p = Fin offset
          /\ (Q2Qc (-15 # 2) <= x)%Qc /\ (x < Q2Qc (15 # 2))%Qc
          /\ (QcZ (-3) <= y)%Qc /\ (y < QcZ 3)%Qc
          /\ (QcZ (-3) <= z)%Qc /\ (z < QcZ 3)%Qc
          /\ (0 <= offset)%Qc /\ (offset < QcZ 100)%Qc)
       /\ ThinkingParticle.color p
          ∈ [getNodeColor (typeName intent); getNodeColor (typeName fact);
             getNodeColor (typeName context)].
Proof.
  intros Hr. split; [apply thinkingParticlesFrom_length|].
  unfold thinkingParticles. generalize 50%nat. intros count.
  generalize 0%nat. intros c. revert c.
  induction count as [|count IH]; intros c p Hp; [inversion Hp|].
  cbn [thinkingParticlesFrom] in Hp. apply elem_of_cons in Hp as [-> | Hp];
    [|exact (IH _ _ Hp)].
  destruct (centred_range (random c) (inject_Z 15) (-15 # 2) (15 # 2)
              (Hr _)) as (x & Hx & Lx & Ux); [reflexivity..|].
  destruct (centred_range (random (1 + c)%nat) (inject_Z 6) (inject_Z (-3))
              (inject_Z 3) (Hr _)) as (y & Hy & Ly & Uy); [reflexivity..|].
  destruct (centred_range (random (2 + c)%nat) (inject_Z 6) (inject_Z (-3))
              (inject_Z 3) (Hr _)) as (z & Hz & Lz & Uz); [reflexivity..|].
  destruct (offset_range (random (3 + c)%nat) (Hr _)) as (o & Ho & Lo & Uo).
  cbn [ThinkingParticle.x ThinkingParticle.y ThinkingParticle.z
       ThinkingParticle.offset ThinkingParticle.color].
  split; [|apply thinkingColor_palette, Hr].
  exists x, y, z, o.
  change (Num.of_Z 15) with (Num.of_Q (inject_Z 15)).
  change (Num.of_Z 6) with (Num.of_Q (inject_Z 6)).
  rewrite Hx, Hy, Hz, Ho. unfold QcZ. auto 20.
Qed.

Lemma thinking_particles_in_range_witness :
  length (thinkingParticles risingRandom) = 50%nat.
Proof.
  apply (thinking_particles_in_range risingRandom).
  exact risingRandom_unitInterval.
Defined.

(** ** The name of a downloaded image *)

Lemma occurrences_app (c : ascii) (s t : string) :
  occurrences c (s ++ t)%string = (occurrences c s + occurrences c t)%nat.
Proof.
  induction s as [|d s IH]; [reflexivity|].
  change (occurrences c (String d (s ++ t)%string)
          = (occurrences c (String d s) + occurrences c t)%nat).
  cbn [occurrences]. rewrite IH. lia.
Qed.

Lemma occurrences_dashed (c : ascii) (s : string) :
  c = ":"%char \/ c = "."%char -> occurrences c (dashed s) = 0%nat.
Proof.
  intros Hc. induction s as [|d s IH]; [reflexivity|].
  cbn [dashed occurrences]. rewrite IH, Nat.add_0_r.
  destruct (Ascii.eqb d ":") eqn:H1; cbn [orb].
  - destruct Hc as [-> | ->]; reflexivity.
  - destruct (Ascii.eqb d ".") eqn:H2.
    + destruct Hc as [-> | ->]; reflexivity.
    + destruct Hc as [-> | ->]; rewrite Ascii.eqb_sym; [now rewrite H1 | now rewrite H2].
Qed.

Lemma length_dashed (s : string) : String.length (dashed s) = String.length s.
Proof.
  induction s as [|d s IH]; [reflexivity|].
  cbn [dashed String.length]. now rewrite IH.
Qed.

Lemma length_append (s t : string) :
  String.length (s ++ t)%string = (String.length s + String.length t)%nat.
Proof.
  induction s as [|d s IH]; [reflexivity|].
  change (String.length (String d (s ++ t)%string)
          = (String.length (String d s) + String.length t)%nat).
  cbn [String.length]. now rewrite IH.
Qed.

(** X11. Whatever the date string is, the name of the downloaded image has
    no colon and exactly one dot, that of the [.png] extension; replacing
    the colons and dots of the date keeps every other character and the
    length. *)
Theorem download_name_safe (iso : string) :
  occurrences ":" (downloadName iso) = 0%nat
  /\ occurrences "." (downloadName iso) = 1%nat
  /\ String.length (downloadName iso) = (23 + String.length iso)%nat
  /\ (forall c : ascii,
        c <> ":"%char -> c <> "."%char -> c <> "-"%char ->
        occurrences c (dashed iso) = occurrences c iso).
Proof.
  unfold downloadName. rewrite !occurrences_app, !length_append, length_dashed.
  rewrite !occurrences_dashed by auto.
  split; [reflexivity|]. split; [reflexivity|]. split; [cbn; lia|].
  intros c H1 H2 H3. induction iso as [|d s IH]; [reflexivity|].
  cbn [dashed occurrences]. rewrite IH. f_equal.
  destruct (Ascii.eqb d ":") eqn:E1; cbn [orb].
  - apply Ascii.eqb_eq in E1. subst d.
    rewrite (proj2 (Ascii.eqb_neq _ _) H1), (proj2 (Ascii.eqb_neq _ _) H3).
    reflexivity.
  - destruct (Ascii.eqb d ".") eqn:E2; [|reflexivity].
    apply Ascii.eqb_eq in E2. subst d.
    rewrite (proj2 (Ascii.eqb_neq _ _) H2), (proj2 (Ascii.eqb_neq _ _) H3).
    reflexivity.
Qed.

Lemma download_name_safe_witness :
  occurrences "T" (dashed "2024-05-01T12:34:56.789Z") = 1%nat.
Proof.
  destruct (download_name_safe "2024-05-01T12:34:56.789Z") as (_ & _ & _ & H).
  rewrite H; [reflexivity | discriminate..].
Defined.

(** ** The application state *)

Section AppFacts.

Lemma find_id_some (history : list HistoryItem.t) (id : string)
    (h : HistoryItem.t) :
  h ∈ history -> HistoryItem.id h = id ->
  exists item,
    List.find (fun h => String.eqb (HistoryItem.id h) id) history = Some item
    /\ item ∈ history /\ HistoryItem.id item = id.
Proof.
  intros Hin Hid.
  destruct (List.find (fun h => String.eqb (HistoryItem.id h) id) history)
    as [item|] eqn:Hfind.
  - apply find_some in Hfind as [Hin' Heq]. apply String.eqb_eq in Heq.
    exists item. split; [reflexivity|]. split; [|exact Heq].
    apply list_elem_of_In, Hin'.
  - exfalso. apply list_elem_of_In in Hin.
    pose proof (find_none _ _ Hfind h Hin) as Hne. cbn in Hne.
    apply String.eqb_neq in Hne. contradiction.
Qed.

Lemma not_sending_not_in_flight (s : Session.t) :
  consistent s -> App.isSending (Session.app s) = false ->
  Session.inFlight s = None.
Proof.
  intros [Hs _ _ _ _ _ _] Hf. rewrite Hf in Hs.
  destruct (Session.inFlight s); [|reflexivity].
  symmetry in Hs. apply bool_decide_eq_false in Hs.
  exfalso. apply Hs. eauto.
Qed.

Lemma consistent_mount (stored : list HistoryItem.t) :
  consistent (Session.mk (loadHistory initialApp stored) None).
Proof.
  constructor; cbn.
  - reflexivity.
  - intros m Hm. inversion Hm.
  - intros [? [=]].
  - discriminate.
  - discriminate.
  - intros m t Hm. inversion Hm.
  - discriminate.
Qed.

Lemma consistent_select (s : Session.t) (item : HistoryItem.t) :
  consistent s ->
  consistent (Session.mk (handleSelectHistoryItem (Session.app s) item)
                (Session.inFlight s)).
Proof.
  intros [H1 H2 H3 H4 H5 H6 H7]. constructor; cbn.
  - exact H1.
  - exact H2.
  - reflexivity.
  - discriminate.
  - eauto.
  - exact H6.
  - discriminate.
Qed.

Lemma consistent_send (trim : string -> string) (s : Session.t)
    (userMsgId aiMsgId now1 now2 : string) :
  consistent s ->
  consistent (step trim s (Send userMsgId aiMsgId now1 now2)).
Proof.
  intros H. cbn [step]. unfold handleSendMessage.
  destruct (String.eqb (trim (App.input (Session.app s))) ""
            || App.isSending (Session.app s)) eqn:Hguard; [exact H|].
  apply orb_false_iff in Hguard as [_ Hns].
  pose proof (not_sending_not_in_flight s H Hns) as Hnone.
  destruct H as [H1 H2 H3 H4 H5 H6 H7]. constructor; cbn.
  - reflexivity.
  - intros m Hm Ht. eexists. split; [reflexivity|]. cbn.
    apply elem_of_app in Hm as [Hm | Hm].
    + destruct (H2 m Hm Ht) as (rq & Hrq & _). rewrite Hnone in Hrq.
      discriminate.
    + apply elem_of_cons in Hm as [-> | Hm]; [discriminate Ht|].
      apply list_elem_of_singleton in Hm. subst m. reflexivity.
  - reflexivity.
  - eauto.
  - discriminate.
  - intros m t Hm Ht. apply elem_of_app in Hm as [Hm | Hm]; [eauto|].
    apply elem_of_cons in Hm as [-> | Hm]; [discriminate Ht|].
    apply list_elem_of_singleton in Hm. subst m. discriminate Ht.
  - discriminate.
Qed.

Lemma consistent_resolved (s : Session.t) (rq : Request.t)
    (response : GeminiResponse.t) (newHistoryId now : string) :
  consistent s -> Session.inFlight s = Some rq ->
  consistent (Session.mk (handleSendMessage_resolved (Session.app s) rq
                            response newHistoryId now) None).
Proof.
  intros [H1 H2 H3 H4 H5 H6 H7] Hrq. constructor; cbn.
  - reflexivity.
  - intros m' (m & -> & Hm)%list_elem_of_fmap.
    destruct (String.eqb (Message.id m) (Request.aiMsgId rq)) eqn:Hid;
      [discriminate|].
    intros Ht. destruct (H2 m Hm Ht) as (rq' & Hrq' & Hid').
    rewrite Hrq in Hrq'. injection Hrq' as <-.
    apply String.eqb_neq in Hid. contradiction.
  - intros [? [=]].
  - discriminate.
  - eauto.
  - intros m' t (m & -> & Hm)%list_elem_of_fmap.
    destruct (String.eqb (Message.id m) (Request.aiMsgId rq)).
    + cbn. intros [= <-]. eexists.
      split; [apply elem_of_app; right; left | reflexivity].
    + intros Ht. destruct (H6 m t Hm Ht) as (h & Hh & Hid).
      exists h. split; [apply elem_of_app; left; exact Hh | exact Hid].
  - intros id [= <-]. eexists. rewrite last_snoc. cbn. auto.
Qed.

Lemma consistent_rejected (s : Session.t) (rq : Request.t) :
  consistent s -> Session.inFlight s = Some rq ->
  consistent (Session.mk (handleSendMessage_rejected (Session.app s) rq) None).
Proof.
  intros [H1 H2 H3 H4 H5 H6 H7] Hrq. constructor; cbn.
  - reflexivity.
  - intros m' (m & -> & Hm)%list_elem_of_fmap.
    destruct (String.eqb (Message.id m) (Request.aiMsgId rq)) eqn:Hid;
      [discriminate|].
    intros Ht. destruct (H2 m Hm Ht) as (rq' & Hrq' & Hid').
    rewrite Hrq in Hrq'. injection Hrq' as <-.
    apply String.eqb_neq in Hid. contradiction.
  - intros [? [=]].
  - discriminate.
  - discriminate.
  - intros m' t (m & -> & Hm)%list_elem_of_fmap.
    destruct (String.eqb (Message.id m) (Request.aiMsgId rq)); cbn; eauto.
  - rewrite H3 by (rewrite Hrq; eauto). discriminate.
Qed.

Lemma consistent_captured (s : Session.t) (dataUrl : string) :
  consistent s ->
  consistent (Session.mk (handleThumbnailCapture (Session.app s) dataUrl)
                (Session.inFlight s)).
Proof.
  intros H. unfold handleThumbnailCapture.
  destruct (App.currentVizId (Session.app s)) as [prevId|] eqn:Hcur;
    [|destruct s; exact H].
  destruct (String.eqb prevId ""); [destruct s; exact H|].
  destruct H as [H1 H2 H3 H4 H5 H6 H7]. constructor; cbn; auto.
  - intros m t Hm Ht. destruct (H6 m t Hm Ht) as (h & Hh & Hid).
    eexists. split; [apply list_elem_of_fmap_2, Hh|]. cbn.
    destruct (String.eqb (HistoryItem.id h) prevId); exact Hid.
  - discriminate.
Qed.

Lemma consistent_step (trim : string -> string) (s : Session.t) (e : Event) :
  consistent s -> consistent (step trim s e).
Proof.
  intros H. destruct e as [value| | | |traceId|item|dataUrl|tab].
  - destruct H. constructor; cbn; auto.
  - apply consistent_send, H.
  - cbn [step]. destruct (Session.inFlight s) as [rq|] eqn:Hrq; [|exact H].
    apply consistent_resolved; assumption.
  - cbn [step]. destruct (Session.inFlight s) as [rq|] eqn:Hrq; [|exact H].
    apply consistent_rejected; assumption.
  - cbn [step]. unfold handleViewReasoning.
    destruct (List.find _ _); [apply consistent_select, H|].
    destruct s; exact H.
  - apply consistent_select, H.
  - apply consistent_captured, H.
  - destruct H. constructor; cbn; auto.
Qed.

Lemma consistent_run (trim : string -> string) (stored : list HistoryItem.t)
    (events : list Event) :
  consistent (run trim stored events).
Proof.
  unfold run. induction events as [|e events IH] using rev_ind.
  - apply consistent_mount.
  - rewrite foldl_snoc. apply consistent_step, IH.
Qed.

End AppFacts.

(** X12. In every state of a session, the trace link of a message names an
    item of the history: "See how I answered" finds the item and shows its
    trace, it is never a silent no-op. *)
Theorem trace_link_resolves (trim : string -> string)
    (stored : list HistoryItem.t) (events : list Event)
    (m : Message.t) (traceId : string) :
  m ∈ App.messages (Session.app (run trim stored events)) ->
  Message.traceId m = Some traceId ->
  exists item,
    item ∈ App.history (Session.app (run trim stored events))
    /\ HistoryItem.id item = traceId
    /\ handleViewReasoning (Session.app (run trim stored events)) traceId
       = handleSelectHistoryItem (Session.app (run trim stored events)) item
    /\ App.vizMode
         (handleViewReasoning (Session.app (run trim stored events)) traceId)
       = VISUALIZING
    /\ App.vizData
         (handleViewReasoning (Session.app (run trim stored events)) traceId)
       = Some (HistoryItem.explain_trace item)
    /\ App.activeHistoryItem
         (handleViewReasoning (Session.app (run trim stored events)) traceId)
       = Some item.
Proof.
  intros Hm Ht.
  destruct (trace_known _ (consistent_run trim stored events) m traceId Hm Ht)
    as (h & Hh & Hid).
  destruct (find_id_some _ _ h Hh Hid) as (item & Hfind & Hin & Hitem).
  exists item. unfold handleViewReasoning. rewrite Hfind. auto 10.
Qed.

Lemma trace_link_resolves_witness :
  exists item,
    HistoryItem.id item = "h1"
    /\ App.vizData
         (handleViewReasoning
            (Session.app (run sampleTrim sampleStored sampleEvents)) "h1")
       = Some (HistoryItem.explain_trace item).
Proof.
  destruct (trace_link_resolves sampleTrim sampleStored sampleEvents
              (Message.mk "a1" ai "Because." "t2" (Some "h1") (Some false))
              "h1") as (item & _ & Hid & _ & _ & Hdata & _).
  - vm_compute. right. left.
  - reflexivity.
  - exists item. auto.
Defined.

(** X13. In every state of a session, while no request is awaited no
    message is shown as thinking and the mode is not THINKING. *)
Theorem no_thinking_left (trim : string -> string)
    (stored : list HistoryItem.t) (events : list Event) :
  App.isSending (Session.app (run trim stored events)) = false ->
  (forall m, m ∈ App.messages (Session.app (run trim stored events)) ->
             Message.isThinking m <> Some true)
  /\ App.vizMode (Session.app (run trim stored events)) <> THINKING.
Proof.
  pose proof (consistent_run trim stored events) as H.
  intros Hns. pose proof (not_sending_not_in_flight _ H Hns) as Hnone.
  split.
  - intros m Hm Ht.
    destruct (thinking_in_flight _ H m Hm Ht) as (rq & Hrq & _).
    rewrite Hnone in Hrq. discriminate.
  - intros Hmode. destruct (mode_thinking _ H Hmode) as [rq Hrq].
    rewrite Hnone in Hrq. discriminate.
Qed.

Lemma no_thinking_left_witness :
  App.vizMode
    (Session.app (run sampleTrim sampleStored
                    [Typed "why?"; Send "u1" "a1" "t1" "t2"; Rejected]))
  <> THINKING.
Proof.
  apply (no_thinking_left sampleTrim sampleStored
           [Typed "why?"; Send "u1" "a1" "t1" "t2"; Rejected]).
  reflexivity.
Defined.

(** X14. In every state of a session, a capture that changes the state
    stores the image in the last item of the history, and that item is the
    one whose trace is on display. *)
Theorem thumbnail_for_displayed_trace (trim : string -> string)
    (stored : list HistoryItem.t) (events : list Event) (dataUrl : string) :
  handleThumbnailCapture (Session.app (run trim stored events)) dataUrl
  <> Session.app (run trim stored events) ->
  exists item,
    last (App.history (Session.app (run trim stored events))) = Some item
    /\ App.currentVizId (Session.app (run trim stored events))
       = Some (HistoryItem.id item)
    /\ App.vizData (Session.app (run trim stored events))
       = Some (HistoryItem.explain_trace item)
    /\ App.vizMode (Session.app (run trim stored events)) = VISUALIZING
    /\ last (App.history
               (handleThumbnailCapture (Session.app (run trim stored events))
                  dataUrl))
       = Some (HistoryItem.mk (HistoryItem.id item) (HistoryItem.question item)
                 (HistoryItem.answer item) (HistoryItem.explain_trace item)
                 (HistoryItem.timestamp item) (Some dataUrl)).
Proof.
  intros Hchange. pose proof (consistent_run trim stored events) as H.
  revert H Hchange. generalize (run trim stored events). intros s H Hchange.
  unfold handleThumbnailCapture in *.
  destruct (App.currentVizId (Session.app s)) as [prevId|] eqn:Hcur;
    [|contradiction].
  destruct (String.eqb prevId "") eqn:Hempty; [contradiction|].
  destruct (capture_target _ H prevId Hcur) as (item & Hlast & Hid & Hdata & Hmode).
  exists item. rewrite Hid. repeat (split; [assumption || reflexivity|]).
  cbn [App.history]. rewrite fmap_last, Hlast. cbn.
  rewrite Hid, String.eqb_refl. reflexivity.
Qed.

Lemma thumbnail_for_displayed_trace_witness :
  exists item,
    last (App.history
            (Session.app (run sampleTrim sampleStored
                            [Typed "why?"; Send "u1" "a1" "t1" "t2";
                             Resolved sampleResponse "h1" "t3"])))
    = Some item
    /\ HistoryItem.id item = "h1".
Proof.
  destruct (thumbnail_for_displayed_trace sampleTrim sampleStored
              [Typed "why?"; Send "u1" "a1" "t1" "t2";
               Resolved sampleResponse "h1" "t3"] "data:image/png;base64,AAAA")
    as (item & Hlast & Hcur & _).
  - vm_compute. discriminate.
  - exists item. split; [exact Hlast|].
    vm_compute in Hcur. injection Hcur as Hcur. symmetry. exact Hcur.
Defined.



(** X16. With a history id that is new, the answer is linked to its own
    trace: viewing the reasoning by that id shows the trace of the response,
    and the capture that follows stores the image in the new item alone. *)
Theorem answer_links_to_its_trace (st : App.t) (rq : Request.t)
    (response : GeminiResponse.t) (newHistoryId now dataUrl : string) :
  (forall h, h ∈ App.history st -> HistoryItem.id h <> newHistoryId) ->
  newHistoryId <> "" ->
  App.vizData
    (handleViewReasoning
       (handleSendMessage_resolved st rq response newHistoryId now)
       newHistoryId)
  = Some (GeminiResponse.explain_trace response)
  /\ App.activeHistoryItem
       (handleViewReasoning
          (handleSendMessage_resolved st rq response newHistoryId now)
          newHistoryId)
     = Some (HistoryItem.mk newHistoryId (Request.question rq)
               (GeminiResponse.answer response)
               (GeminiResponse.explain_trace response) now None)
  /\ App.history
       (handleThumbnailCapture
          (handleSendMessage_resolved st rq response newHistoryId now) dataUrl)
     = App.history st
       ++ [HistoryItem.mk newHistoryId (Request.question rq)
             (GeminiResponse.answer response)
             (GeminiResponse.explain_trace response) now (Some dataUrl)].
Proof.
  intros Hfresh Hne.
  assert (Hfind :
            List.find (fun h => String.eqb (HistoryItem.id h) newHistoryId)
              (App.history st
               ++ [HistoryItem.mk newHistoryId (Request.question rq)
                     (GeminiResponse.answer response)
                     (GeminiResponse.explain_trace response) now None])
            = Some (HistoryItem.mk newHistoryId (Request.question rq)
                      (GeminiResponse.answer response)
                      (GeminiResponse.explain_trace response) now None)).
  { induction (App.history st) as [|h hs IH].
    - cbn. rewrite String.eqb_refl. reflexivity.
    - cbn. rewrite (proj2 (String.eqb_neq _ _) (Hfresh h ltac:(left))).
      apply IH. intros h' Hh'. apply Hfresh. right. exact Hh'. }
  unfold handleViewReasoning, handleThumbnailCapture.
  cbn [handleSendMessage_resolved App.history App.currentVizId].
  rewrite Hfind. rewrite (proj2 (String.eqb_neq _ _) Hne).
  split; [reflexivity|]. split; [reflexivity|].
  cbn [App.history]. rewrite map_app. cbn [map HistoryItem.id].
  rewrite String.eqb_refl. f_equal.
  clear Hfind. induction (App.history st) as [|h hs IH]; [reflexivity|].
  cbn [map]. rewrite (proj2 (String.eqb_neq _ _) (Hfresh h ltac:(left))).
  f_equal. apply IH. intros h' Hh'. apply Hfresh. right. exact Hh'.
Qed.

Lemma answer_links_to_its_trace_witness :
  App.vizData
    (handleViewReasoning
       (handleSendMessage_resolved (loadHistory initialApp sampleStored)
          (Request.mk "why?" "a1") sampleResponse "h1" "t3") "h1")
  = Some sampleTrace.
Proof.
  apply (answer_links_to_its_trace (loadHistory initialApp sampleStored)
           (Request.mk "why?" "a1") sampleResponse "h1" "t3" "").
  - intros h Hh. apply list_elem_of_singleton in Hh. subst h. discriminate.
  - discriminate.
Defined.

(** ** Markdown fences around a response *)

Lemma eqb_longer (c : ascii) (s q : string) :
  String.eqb (String c (s ++ q)) q = false.
Proof.
  apply String.eqb_neq. intros H. apply (f_equal String.length) in H.
  cbn [String.length] in H. rewrite length_append in H. lia.
Qed.

Lemma replaceEnd_app (q body : string) :
  q <> EmptyString -> replaceEnd q (body ++ q) = body.
Proof.
  intros Hq. induction body as [|c body IH].
  - destruct q as [|c q]; [contradiction|].
    change (EmptyString ++ String c q)%string with (String c q).
    cbn [replaceEnd]. now rewrite String.eqb_refl.
  - change (String c body ++ q)%string with (String c (body ++ q)).
    cbn [replaceEnd]. now rewrite eqb_longer, IH.
Qed.

Lemma startsWith_fence (s : string) :
  startsWith s "```json" = true -> startsWith s "```" = true.
Proof.
  destruct s as [|a [|b [|c s]]]; cbn [startsWith]; try discriminate.
  - rewrite andb_false_r. discriminate.
  - rewrite !andb_false_r. discriminate.
  - intros H. apply andb_true_iff in H as [-> H].
    apply andb_true_iff in H as [-> H]. apply andb_true_iff in H as [-> _].
    reflexivity.
Qed.

(** X17. A response wrapped in a markdown fence is unwrapped exactly:
    whatever the body is, [```json body ```] gives the body, and so does
    [``` body ```] when the body does not start with [json]; a text that
    does not start with a fence is left as it is. *)
Theorem fence_unwrapped (body : string) :
  stripFence ("```json" ++ body ++ "```") = body
  /\ (startsWith body "json" = false ->
      stripFence ("```" ++ body ++ "```") = body)
  /\ (startsWith body "```" = false -> stripFence body = body).
Proof.
  split; [|split].
  - unfold stripFence.
    change (startsWith ("```json" ++ body ++ "```") "```json") with true.
    cbv iota. unfold replaceStart.
    change (startsWith ("```json" ++ body ++ "```") "```json") with true.
    cbv iota.
    change (dropChars (String.length "```json") ("```json" ++ body ++ "```"))
      with (body ++ "```")%string.
    apply replaceEnd_app. discriminate.
  - intros Hjson. unfold stripFence.
    change (startsWith ("```" ++ body ++ "```") "```json")
      with (startsWith (body ++ "```") "json").
    assert (Hj : startsWith (body ++ "```") "json" = false).
    { revert Hjson. clear.
      destruct body as [|a [|b [|c [|d s]]]]; cbn; auto; intros H;
        repeat (destruct (Ascii.eqb _ _); cbn in *; try reflexivity;
                try discriminate). }
    rewrite Hj.
    change (startsWith ("```" ++ body ++ "```") "```") with true.
    cbv iota. unfold replaceStart.
    change (startsWith ("```" ++ body ++ "```") "```") with true.
    cbv iota.
    change (dropChars (String.length "```") ("```" ++ body ++ "```"))
      with (body ++ "```")%string.
    apply replaceEnd_app. discriminate.
  - intros Hno. unfold stripFence. rewrite Hno.
    destruct (startsWith body "```json") eqn:Hj; [|reflexivity].
    apply startsWith_fence in Hj. congruence.
Qed.

Lemma fence_unwrapped_witness :
  stripFence "```{}```" = "{}"%string /\ stripFence "{}" = "{}"%string.
Proof.
  destruct (fence_unwrapped "{}") as (_ & Hplain & Hnone).
  split; [apply Hplain | apply Hnone]; reflexivity.
Defined.

(** ** The lane a node is pulled to *)

Section NodeLanes.
Local Open Scope Qc_scope.

Lemma QcZ_le (a b : Z) : (a <= b)%Z -> QcZ a <= QcZ b.
Proof. intros H. unfold QcZ. Qc_to_Q. unfold Qle; simpl. lia. Qed.

Lemma QcZ_lt (a b : Z) : (a < b)%Z -> QcZ a < QcZ b.
Proof. intros H. unfold QcZ. Qc_to_Q. unfold Qlt; simpl. lia. Qed.

Lemma lane_rational (n i : nat) :
  (1 < n)%nat ->
  lane n i
  = Fin (QcZ (-3) + QcZ (Z.of_nat i) / QcZ (Z.of_nat (n - 1)) * QcZ 6).
Proof.
  intros Hn. rewrite lane_several by exact Hn.
  pose proof (of_nat_truthy (n - 1) ltac:(lia)) as Ht.
  unfold stageWidth, Num.of_nat, Num.of_Z, Num.of_Q in *.
  cbn [Num.truthy] in Ht. apply negb_true_iff in Ht.
  cbn [Num.neg Num.div]. rewrite Ht, (Qc_of_Z_nonzero 2).
  cbn [Num.mul Num.add]. f_equal.
Qed.

Lemma ratio_bounds (a k : Qc) :
  0 < k -> 0 <= a -> a <= k ->
  QcZ (-3) <= QcZ (-3) + a / k * QcZ 6
  /\ QcZ (-3) + a / k * QcZ 6 <= QcZ 3.
Proof.
  intros Hk H0 H1.
  assert (Hne : k <> 0) by (intros ->; apply (Qclt_not_eq _ _ Hk); reflexivity).
  assert (Ha : a = a / k * k) by (field; exact Hne).
  revert Ha. generalize (a / k). intros m Ha. rewrite Ha in H0, H1. clear Ha.
  unfold QcZ. Qc_to_Q. revert Hk H0 H1.
  generalize (this m) (this k). intros x y Hk H0 H1.
  change (this 0) with 0%Q in *. unfold inject_Z. split; nra.
Qed.

Lemma ratio_increasing (a b k : Qc) :
  0 < k -> a < b ->
  QcZ (-3) + a / k * QcZ 6 < QcZ (-3) + b / k * QcZ 6.
Proof.
  intros Hk Hab.
  assert (Hne : k <> 0) by (intros ->; apply (Qclt_not_eq _ _ Hk); reflexivity).
  assert (Ha : a = a / k * k) by (field; exact Hne).
  assert (Hb : b = b / k * k) by (field; exact Hne).
  revert Ha Hb. generalize (a / k) (b / k). intros m m' Ha Hb.
  rewrite Ha, Hb in Hab. clear Ha Hb.
  unfold QcZ. Qc_to_Q. revert Hk Hab.
  generalize (this m) (this m') (this k). intros x x' y Hk Hab.
  change (this 0) with 0%Q in *. unfold inject_Z. nra.
Qed.

Lemma lane_bounds (n i : nat) :
  (i < n)%nat ->
  exists x, lane n i = Fin x /\ QcZ (-3) <= x /\ x <= QcZ 3.
Proof.
  intros Hi. destruct (decide (n = 1%nat)) as [-> | Hn].
  - assert (i = 0%nat) as -> by lia. exists (QcZ (-3)).
    split; [by_evaluation|]. split; [apply Qcle_refl | by_evaluation].
  - rewrite lane_rational by lia. eexists. split; [reflexivity|].
    apply ratio_bounds.
    + apply (QcZ_lt 0). lia.
    + apply (QcZ_le 0). lia.
    + apply QcZ_le. lia.
Qed.

Lemma lane_increasing (n i j : nat) :
  (i < j)%nat -> (j < n)%nat -> (lane n i <? lane n j)%num = true.
Proof.
  intros Hij Hj. rewrite !lane_rational by lia. cbn [Num.ltb].
  apply Qc_ltb_lt, ratio_increasing.
  - apply (QcZ_lt 0). lia.
  - apply QcZ_lt. lia.
Qed.

Lemma truthy_or_zero (x : Qc) :
  (if Num.truthy (Fin x) then Fin x else Num.of_Z 0) = Fin x.
Proof.
  cbn [Num.truthy]. destruct (Num.Qc_eqb x 0) eqn:H; [|reflexivity].
  apply Qc_eqb_eq in H. subst x. reflexivity.
Qed.

End NodeLanes.

(** X18. With unique stage ids, the accessor given to [d3.forceX] returns
    for a node the lane of its stage, a rational of [-3, 3], and the lanes
    follow the order of the stages from left to right.  For a node whose
    [stage_id] names no stage it returns 0, unless the [stage_id] is the
    name of a property of [Object.prototype]: then, and for the id
    [__proto__] even when a stage has it, it returns the inherited function
    or object, of which d3 makes NaN. *)
Theorem node_lane_target (stages : list Stage.t) (d : D3Node.t) :
  NoDup (map Stage.id stages) ->
  (forall i s,
     stages !! i = Some s -> Stage.id s = D3Node.stage_id d ->
     D3Node.stage_id d <> "__proto__" ->
     laneTarget (stageX_of (map Stage.id stages)) d
     = VNumber (lane (length stages) i)
     /\ (exists x : Qc,
           lane (length stages) i = Fin x
           /\ (QcZ (-3) <= x)%Qc /\ (x <= QcZ 3)%Qc)
     /\ (forall j s',
           stages !! j = Some s' -> (i < j)%nat ->
           (lane (length stages) i <? lane (length stages) j)%num = true))
  /\ (D3Node.stage_id d ∉ map Stage.id stages ->
      D3Node.stage_id d ∉ objectPrototype ->
      laneTarget (stageX_of (map Stage.id stages)) d = VNumber (Num.of_Z 0))
  /\ (D3Node.stage_id d ∈ objectPrototype ->
      D3Node.stage_id d ∉ map Stage.id stages
      \/ D3Node.stage_id d = "__proto__" ->
      laneTarget (stageX_of (map Stage.id stages)) d = VObject
      /\ toNumber (laneTarget (stageX_of (map Stage.id stages)) d) = NaN).
Proof.
  intros Hnd. split; [|split].
  - intros i s Hi Hid Hp.
    assert (Hlt : (i < length stages)%nat) by (eapply lookup_lt_Some; eauto).
    assert (Hlook : map Stage.id stages !! i = Some (D3Node.stage_id d))
      by (rewrite list_lookup_fmap, Hi, <- Hid; reflexivity).
    pose proof (stageX_of_lookup _ _ _ Hnd Hlook Hp) as H.
    rewrite length_map in H.
    destruct (lane_bounds (length stages) i Hlt) as (x & Hx & Lx & Ux).
    split; [|split].
    + unfold laneTarget, getProperty. rewrite H, Hx. f_equal.
      apply truthy_or_zero.
    + exists x. auto.
    + intros j s' Hj Hij. apply lane_increasing; [exact Hij|].
      eapply lookup_lt_Some; eauto.
  - intros Hnot Hown. unfold laneTarget, getProperty.
    rewrite (stageX_of_miss _ _ Hnot).
    rewrite bool_decide_eq_false_2 by exact Hown. reflexivity.
  - intros Hin Hwhy.
    assert (Hnone : stageX_of (map Stage.id stages) !! D3Node.stage_id d = None).
    { destruct Hwhy as [Hnot | ->];
        [apply stageX_of_miss, Hnot | apply stageX_of_proto]. }
    unfold laneTarget, getProperty. rewrite Hnone.
    rewrite bool_decide_eq_true_2 by exact Hin. split; reflexivity.
Qed.

Lemma node_lane_target_witness :
  laneTarget (stageX_of (map Stage.id threeStages))
    (D3Node.mk (Node.mk "n" "N" fact 1%Z "s2") 0%Z 0%Z None)
  = VNumber (lane 3 1)
  /\ laneTarget (stageX_of (map Stage.id threeStages))
       (D3Node.mk (Node.mk "n" "N" fact 1%Z "nowhere") 0%Z 0%Z None)
     = VNumber (Num.of_Z 0)
  /\ laneTarget (stageX_of (map Stage.id threeStages))
       (D3Node.mk (Node.mk "n" "N" fact 1%Z "constructor") 0%Z 0%Z None)
     = VObject.
Proof.
  assert (Hnd : NoDup (map Stage.id threeStages)) by by_evaluation.
  split; [|split].
  - destruct (node_lane_target threeStages
                (D3Node.mk (Node.mk "n" "N" fact 1%Z "s2") 0%Z 0%Z None) Hnd)
      as [H _].
    destruct (H 1%nat (Stage.mk "s2" "Recall" "" 1%Z) eq_refl eq_refl
                ltac:(discriminate)) as [Ht _].
    exact Ht.
  - destruct (node_lane_target threeStages
                (D3Node.mk (Node.mk "n" "N" fact 1%Z "nowhere") 0%Z 0%Z None)
                Hnd) as (_ & H & _).
    apply H; by_evaluation.
  - destruct (node_lane_target threeStages
                (D3Node.mk (Node.mk "n" "N" fact 1%Z "constructor") 0%Z 0%Z
                   None) Hnd) as (_ & _ & H).
    apply H; [by_evaluation | left; by_evaluation].
Defined.

(** ** Edges that reach no node *)

(** X19. An edge with an end that is no node id has no influence on the
    layout: the positions are those computed without it, whatever the
    simulation does. *)
Theorem dangling_edge_moves_nothing
    (E : D3Force) (random : nat -> num) (data : ExplainTrace.t)
    (nodes : list Node.t) (before after : list Edge.t) (edge : Edge.t) :
  ExplainTrace.nodes data = Some nodes ->
  ExplainTrace.edges data = Some (before ++ edge :: after) ->
  Edge.source edge ∉ map Node.id nodes
  \/ Edge.target edge ∉ map Node.id nodes ->
  layout E random (Some data)
  = layout E random
      (Some (ExplainTrace.mk (ExplainTrace.stages data) (Some nodes)
               (Some (before ++ after)) (ExplainTrace.steps data)
               (ExplainTrace.key_factors data) (ExplainTrace.confidence data)
               (ExplainTrace.timestamp data))).
Proof.
  intros Hn He Hdangling.
  assert (Hlinks : d3Links_of (list_to_set (map Node.id nodes))
                     (before ++ edge :: after)
                   = d3Links_of (list_to_set (map Node.id nodes))
                       (before ++ after)).
  { unfold d3Links_of. rewrite !filter_app, filter_cons.
    rewrite decide_False; [reflexivity|].
    unfold endpoints_known. intros H. apply andb_true_iff in H as [Hs Ht].
    apply bool_decide_eq_true in Hs, Ht.
    rewrite elem_of_list_to_set in Hs, Ht. tauto. }
  unfold layout. rewrite Hn, He.
  cbn [ExplainTrace.nodes ExplainTrace.edges ExplainTrace.stages].
  change (default [] (Some (before ++ edge :: after)))
    with (before ++ edge :: after).
  change (default [] (Some (before ++ after))) with (before ++ after).
  destruct nodes as [|n nodes]; [reflexivity|].
  unfold settled, attempt. cbv zeta. rewrite Hlinks. reflexivity.
Qed.

Lemma dangling_edge_moves_nothing_witness :
  layout laneEngine risingRandom (Some sampleTrace)
  = layout laneEngine risingRandom
      (Some (ExplainTrace.mk (ExplainTrace.stages sampleTrace)
               (Some (default [] (ExplainTrace.nodes sampleTrace)))
               (Some ([Edge.mk "a" "b" "supports" 1%Z] ++ []))
               (ExplainTrace.steps sampleTrace)
               (ExplainTrace.key_factors sampleTrace)
               (ExplainTrace.confidence sampleTrace)
               (ExplainTrace.timestamp sampleTrace))).
Proof.
  refine (dangling_edge_moves_nothing laneEngine risingRandom sampleTrace
            (default [] (ExplainTrace.nodes sampleTrace))
            [Edge.mk "a" "b" "supports" 1%Z] []
            (Edge.mk "a" "ghost" "dangling" 1%Z) eq_refl eq_refl _).
  right. by_evaluation.
Defined.

Lemma renderNode_some (E : D3Force) (HE : d3_contract E)
    (random : nat -> num) (data : ExplainTrace.t) (nodes : list Node.t)
    (animationProgress : num) (n : Node.t) :
  ExplainTrace.nodes data = Some nodes -> n ∈ nodes ->
  is_Some (renderNode (layout E random (Some data)) animationProgress n).
Proof.
  intros Hn Hin.
  destruct (layout_lookup_node E HE random data nodes n Hn Hin) as [d Hp].
  destruct (position_sound d) as (F & _).
  unfold renderNode. rewrite Hp, F. eauto.
Qed.

Lemma layout_noNodes (E : D3Force) (random : nat -> num)
    (data : ExplainTrace.t) :
  noNodes (Some data) ->
  size (LayoutResult.nodePositions (layout E random (Some data))) = 0%nat.
Proof.
  intros [Hd | [Hd | Hd]]; [discriminate| |]; cbn in Hd;
    unfold layout; rewrite Hd; apply map_size_empty.
Qed.

(** X20. In every state of a session exactly one of the three conditional
    children of the scene is mounted: the idle particles, the thinking
    particles or the graph of the trace in [vizData]; the mode VISUALIZING
    never comes without a trace.  The mounted graph draws a sphere for
    every node of its trace; for a trace without nodes it returns [null]
    and the canvas is blank. *)
Theorem scene_child_mounted (trim : string -> string)
    (stored : list HistoryItem.t) (events : list Event) :
  length (sceneContent (App.vizMode (Session.app (run trim stored events)))
            (App.vizData (Session.app (run trim stored events)))) = 1%nat
  /\ (App.vizMode (Session.app (run trim stored events)) = VISUALIZING ->
      exists data,
        App.vizData (Session.app (run trim stored events)) = Some data
        /\ sceneContent (App.vizMode (Session.app (run trim stored events)))
             (App.vizData (Session.app (run trim stored events)))
           = [VisualizedGraphShown data]
        /\ forall (E : D3Force) (random : nat -> num) (progress : num),
             d3_contract E ->
             (noNodes (Some data) ->
              renderedNodes (Some data) (layout E random (Some data)) progress
              = []
              /\ renderedEdges (Some data) (layout E random (Some data)) = []
              /\ renderedLabels (Some data) (layout E random (Some data))
                   progress = Some [])
             /\ (forall nodes,
                   ExplainTrace.nodes data = Some nodes -> nodes <> [] ->
                   length (renderedNodes (Some data)
                             (layout E random (Some data)) progress)
                   = length nodes
                   /\ Forall is_Some
                        (renderedNodes (Some data)
                           (layout E random (Some data)) progress))).
Proof.
  pose proof (mode_visualizing _ (consistent_run trim stored events)) as H.
  revert H. generalize (Session.app (run trim stored events)). intros st H.
  destruct (App.vizMode st) eqn:Hmode.
  - split; [reflexivity | discriminate].
  - split; [reflexivity | discriminate].
  - destruct (H eq_refl) as [data Hdata]. rewrite Hdata.
    split; [reflexivity|]. intros _. exists data.
    split; [reflexivity|]. split; [reflexivity|].
    intros E random progress HE. split.
    + intros Hno. pose proof (layout_noNodes E random data Hno) as Hsize.
      unfold renderedNodes, renderedEdges, renderedLabels.
      rewrite Hsize. auto.
    + intros nodes Hn Hne. unfold renderedNodes.
      rewrite (layout_size_nonzero E HE random data nodes Hn Hne), Hn.
      split; [apply length_map|].
      apply Forall_forall. intros o (n & -> & Hin)%list_elem_of_fmap.
      exact (renderNode_some E HE random data nodes progress n Hn Hin).
Qed.

Lemma scene_child_mounted_witness :
  sceneContent
    (App.vizMode (Session.app (run sampleTrim sampleStored sampleEvents)))
    (App.vizData (Session.app (run sampleTrim sampleStored sampleEvents)))
  = [VisualizedGraphShown sampleTrace].
Proof.
  destruct (scene_child_mounted sampleTrim sampleStored sampleEvents)
    as [_ H].
  destruct (H eq_refl) as (data & Hdata & -> & _).
  vm_compute in Hdata. injection Hdata as <-. reflexivity.
Defined.

(** A response without nodes leaves the canvas blank: the mode is
    VISUALIZING, the graph is mounted and draws nothing. *)
Lemma empty_trace_blank_canvas :
  sceneContent
    (App.vizMode
       (Session.app
          (run sampleTrim []
             [Typed "why?"; Send "u1" "a1" "t1" "t2";
              Resolved (GeminiResponse.mk "Error processing reasoning data."
                          emptyTrace) "h1" "t3"])))
    (App.vizData
       (Session.app
          (run sampleTrim []
             [Typed "why?"; Send "u1" "a1" "t1" "t2";
              Resolved (GeminiResponse.mk "Error processing reasoning data."
                          emptyTrace) "h1" "t3"])))
  = [VisualizedGraphShown emptyTrace]
  /\ renderedNodes (Some emptyTrace)
       (layout stillEngine halfRandom (Some emptyTrace)) (Num.of_Z 1) = []
  /\ renderedEdges (Some emptyTrace)
       (layout stillEngine halfRandom (Some emptyTrace)) = []
  /\ renderedLabels (Some emptyTrace)
       (layout stillEngine halfRandom (Some emptyTrace)) (Num.of_Z 1)
     = Some [].
Proof. repeat split. Qed.

(** ** The direction of an edge *)

Section EdgeDirection.
Local Open Scope Qc_scope.

Lemma distance3D_sq_sym (p1 p2 : Point3D.t) :
  finite3 p1 = true -> finite3 p2 = true ->
  distance3D_sq p1 p2 = distance3D_sq p2 p1.
Proof.
  intros (a & b & c & ->)%finite3_Fin (a' & b' & c' & ->)%finite3_Fin.
  rewrite !distance3D_sq_Fin. f_equal. ring.
Qed.

End EdgeDirection.

(** X21. Whether an edge is drawn does not depend on its direction:
    swapping source and target gives the same answer, whatever the layout
    holds. *)
Theorem edge_direction_irrelevant (layout : LayoutResult.t) (edge : Edge.t) :
  drawsEdge layout
    (Edge.mk (Edge.target edge) (Edge.source edge)
       (Edge.relation_label edge) (Edge.strength edge))
  = drawsEdge layout edge.
Proof.
  unfold drawsEdge. cbn [Edge.source Edge.target].
  destruct (LayoutResult.nodePositions layout !! Edge.source edge) as [p|],
           (LayoutResult.nodePositions layout !! Edge.target edge) as [q|];
    try reflexivity.
  destruct (finite3 p) eqn:Fp, (finite3 q) eqn:Fq; try reflexivity.
  unfold distance3D_ltb. now rewrite (distance3D_sq_sym p q Fp Fq).
Qed.

(** ** The history over a session *)

Lemma sameRecord_refl (a : HistoryItem.t) : sameRecord a a.
Proof. repeat split. Qed.

Lemma sameRecord_trans (a b c : HistoryItem.t) :
  sameRecord a b -> sameRecord b c -> sameRecord a c.
Proof.
  unfold sameRecord. intros (? & ? & ? & ? & ?) (? & ? & ? & ? & ?).
  repeat split; congruence.
Qed.

Lemma step_keeps_history (trim : string -> string) (s : Session.t)
    (e : Event) (k : nat) (item : HistoryItem.t) :
  App.history (Session.app s) !! k = Some item ->
  exists item',
    App.history (Session.app (step trim s e)) !! k = Some item'
    /\ sameRecord item item'.
Proof.
  intros Hk.
  assert (Hsame : exists item',
             App.history (Session.app s) !! k = Some item'
             /\ sameRecord item item')
    by (exists item; split; [exact Hk | apply sameRecord_refl]).
  destruct e as [value| | | |traceId|selected|dataUrl|tab]; cbn [step].
  - exact Hsame.
  - unfold handleSendMessage. destruct (_ || _); exact Hsame.
  - destruct (Session.inFlight s); [|exact Hsame].
    cbn. exists item. split; [|apply sameRecord_refl].
    apply lookup_app_l_Some, Hk.
  - destruct (Session.inFlight s); exact Hsame.
  - unfold handleViewReasoning. destruct (List.find _ _); exact Hsame.
  - exact Hsame.
  - unfold handleThumbnailCapture.
    destruct (App.currentVizId (Session.app s)) as [prevId|]; [|exact Hsame].
    destruct (String.eqb prevId ""); [exact Hsame|].
    cbn. rewrite list_lookup_fmap, Hk. cbn. eexists. split; [reflexivity|].
    destruct (String.eqb (HistoryItem.id item) prevId); repeat split.
  - exact Hsame.
Qed.

(** X22. The history only grows over a session: whatever happens next, an
    item stays at its place with its id, question, answer, trace and
    timestamp; only its thumbnail may change. *)
Theorem history_is_kept (trim : string -> string)
    (stored : list HistoryItem.t) (events more : list Event)
    (k : nat) (item : HistoryItem.t) :
  App.history (Session.app (run trim stored events)) !! k = Some item ->
  exists item',
    App.history (Session.app (run trim stored (events ++ more))) !! k
    = Some item'
    /\ sameRecord item item'.
Proof.
  intros Hk. induction more as [|e more IH] using rev_ind.
  - rewrite app_nil_r. exists item. split; [exact Hk | apply sameRecord_refl].
  - destruct IH as (item' & Hk' & Hsame).
    unfold run in *. rewrite app_assoc, foldl_snoc.
    destruct (step_keeps_history trim _ e k item' Hk') as (item'' & Hk'' & Hs).
    exists item''. split; [exact Hk''|].
    eapply sameRecord_trans; eassumption.
Qed.

Lemma history_is_kept_witness :
  exists item',
    App.history (Session.app (run sampleTrim sampleStored sampleEvents))
    !! 0%nat = Some item'
    /\ HistoryItem.id item' = "old".
Proof.
  destruct (history_is_kept sampleTrim sampleStored [] sampleEvents 0
              (HistoryItem.mk "old" "what?" "That." oneNodeTrace "t0" None)
              eq_refl) as (item' & Hk & Hid & _).
  exists item'. split; [exact Hk | symmetry; exact Hid].
Defined.
